(** * cli-utils: object identities, the apply task and the apply-time mutator

    A shallow embedding of the Go sources of the apply engine:
    - [pkg/object/objmetadata.go]: [ObjMetadata], its serialised form, the
      parser of that form, the inventory hash and the slice-as-set helpers;
    - [pkg/apply/mutator/apply_time_mutator.go]: the substitution performed
      by [ApplyTimeMutator.Mutate] and its helpers;
    - [pkg/apply/task/apply_task.go]: the per-object loop of
      [ApplyTask.Start];
    - the dependency graph and the resolver, which are described by the
      specification only;
    - [pkg/kyq/kyq.go]: [Get] and [Set] over the yq library;
    - [pkg/object/dependson]: the helpers of the depends-on annotation;
    - [pkg/apply/destroyer.go]: the options of the destroyer and what the
      goroutine of [Destroyer.Run] does to the event channel;
    - [cmd/main.go]: [updateHelp];
    - [pkg/logutil]: the go-logging backend [KlogGoLoggingBackend].

    Go strings are modelled as [string] (a sequence of bytes), Go [int] as
    [Z], [uint32] as [Z] reduced modulo [2^32], Go maps used as sets as
    [gset], and [(T, error)] results as the sum type [result]. *)

From Stdlib Require Import ZArith Ascii String List Lia.
From stdpp Require Import base decidable option list sets gmap fin_maps strings sorting relations.

#[local] Set Warnings "-register-all,-clear-no-such-hyp".

Local Open Scope string_scope.
Local Open Scope Z_scope.

(** ** Results of fallible functions *)

Inductive result (E A : Type) : Type :=
| Ok (a : A)
| Err (e : E).
Arguments Ok {E A} a.
Arguments Err {E A} e.

Definition is_Err {E A} (r : result E A) : Prop :=
  match r with Err _ => True | Ok _ => False end.

(** ** The functions of Go's [strings] package used by the sources *)

(** [s[:i]] and [s[i:]] on byte strings.  Go panics when [i] is out of
    range; every index used by the sources comes from [Index] or [LastIndex]
    and is in range. *)
Fixpoint slice_to (s : string) (i : nat) : string :=
  match i, s with
  | S i', String c s' => String c (slice_to s' i')
  | _, _ => ""
  end.

Fixpoint slice_from (s : string) (i : nat) : string :=
  match i, s with
  | S i', String _ s' => slice_from s' i'
  | _, _ => s
  end.

Definition HasPrefix (s pre : string) : bool := String.prefix pre s.

(** [strings.Index]: the index of the first instance of [substr] in [s],
    or [-1]. *)
Fixpoint Index (s substr : string) : Z :=
  match s with
  | "" => if HasPrefix "" substr then 0 else -1
  | String _ s' =>
      if HasPrefix s substr then 0
      else let i := Index s' substr in
           if i <? 0 then -1 else i + 1
  end.

(** [strings.LastIndex]: the index of the last instance of [substr] in [s],
    or [-1]. *)
Fixpoint LastIndex (s substr : string) : Z :=
  match s with
  | "" => if HasPrefix "" substr then 0 else -1
  | String _ s' =>
      let i := LastIndex s' substr in
      if 0 <=? i then i + 1
      else if HasPrefix s substr then 0 else -1
  end.

Definition Contains (s substr : string) : bool := 0 <=? Index s substr.

(** [strings.ReplaceAll] for a non-empty [old]: the non-overlapping
    instances of [old] are replaced from left to right.  [skip] counts the
    bytes of a matched instance that are still to be dropped. *)
Fixpoint replace_go (old new : string) (skip : nat) (s : string) : string :=
  match s with
  | "" => ""
  | String c s' =>
      match skip with
      | S k => replace_go old new k s'
      | O =>
          if HasPrefix s old
          then new +:+ replace_go old new (String.length old - 1) s'
          else String c (replace_go old new 0 s')
      end
  end.

(** With an empty [old], Go inserts [new] before every rune and at the end;
    the sources never do this, and the model inserts at every byte. *)
Fixpoint interleave (new s : string) : string :=
  match s with
  | "" => new
  | String c s' => new +:+ String c (interleave new s')
  end.

Definition ReplaceAll (s old new : string) : string :=
  match old with
  | "" => interleave new s
  | _ => replace_go old new 0 s
  end.

(** ** pkg/object: ObjMetadata *)

Module object.

Record GroupKind : Type := mkGroupKind { Group : string; Kind : string }.

Record ObjMetadata : Type := mkObjMetadata {
  Namespace : string;
  Name : string;
  GK : GroupKind
}.

Global Instance GroupKind_eq_dec : EqDecision GroupKind.
Proof. solve_decision. Defined.

Global Instance ObjMetadata_eq_dec : EqDecision ObjMetadata.
Proof. solve_decision. Defined.

Global Instance GroupKind_countable : Countable GroupKind.
Proof.
  refine (inj_countable' (fun gk => (Group gk, Kind gk))
                         (fun p => mkGroupKind p.1 p.2) _).
  by intros [].
Defined.

Global Instance ObjMetadata_countable : Countable ObjMetadata.
Proof.
  refine (inj_countable' (fun o => (Namespace o, Name o, GK o))
                         (fun p => mkObjMetadata p.1.1 p.1.2 p.2) _).
  by intros [].
Defined.

Definition fieldSeparator : string := "_".
Definition colonTranscoded : string := "__".

Definition NilObjMetadata : ObjMetadata := mkObjMetadata "" "" (mkGroupKind "" "").

(** [rbacv1.GroupName] of k8s.io/api/rbac/v1. *)
Definition rbacGroupName : string := "rbac.authorization.k8s.io".

(** The keys of the map [RBACGroupKind]; [isRBAC] is its lookup. *)
Definition RBACGroupKind : list GroupKind :=
  [ mkGroupKind rbacGroupName "Role";
    mkGroupKind rbacGroupName "ClusterRole";
    mkGroupKind rbacGroupName "RoleBinding";
    mkGroupKind rbacGroupName "ClusterRoleBinding" ].

Definition isRBAC (gk : GroupKind) : bool := bool_decide (gk ∈ RBACGroupKind).

Definition CreateObjMetadata (namespace name : string) (gk : GroupKind)
  : result string ObjMetadata :=
  if decide (name = "") then Err "empty name for object"
  else if decide (Kind gk = "") then Err "empty kind for object"
  else Ok (mkObjMetadata namespace name gk).

Definition ParseObjMetadata (s : string) : result string ObjMetadata :=
  let index := Index s fieldSeparator in
  if index =? -1 then Err ("unable to parse stored object metadata: " +:+ s)
  else
    let namespace := slice_to s (Z.to_nat index) in
    let s := slice_from s (Z.to_nat (index + 1)) in
    let index := LastIndex s fieldSeparator in
    if index =? -1 then Err ("unable to parse stored object metadata: " +:+ s)
    else
      let kind := slice_from s (Z.to_nat (index + 1)) in
      let s := slice_to s (Z.to_nat index) in
      let index := LastIndex s fieldSeparator in
      if index =? -1 then Err ("unable to parse stored object metadata: " +:+ s)
      else
        let group := slice_from s (Z.to_nat (index + 1)) in
        let name := slice_to s (Z.to_nat index) in
        let name := ReplaceAll name colonTranscoded ":" in
        if Contains name fieldSeparator then Err ("too many fields within: " +:+ s)
        else CreateObjMetadata namespace name (mkGroupKind group kind).

(** [ObjMetadata.String] *)
Definition String_ (o : ObjMetadata) : string :=
  let name := if isRBAC (GK o) then ReplaceAll (Name o) ":" colonTranscoded else Name o in
  Namespace o +:+ fieldSeparator +:+ name +:+ fieldSeparator +:+
  Group (GK o) +:+ fieldSeparator +:+ Kind (GK o).

(** [no_sep s]: the field separator does not occur in [s];
    [sep_free x]: it occurs in no field of the identity [x]. *)
Definition no_sep (s : string) : Prop := Contains s fieldSeparator = false.

Definition sep_free (x : ObjMetadata) : Prop :=
  no_sep (Namespace x) /\ no_sep (Name x) /\ no_sep (Group (GK x)) /\ no_sep (Kind (GK x)).

(** *** The inventory hash *)

(** [sort.Strings]: increasing byte-wise lexicographic order.  The order is
    total and antisymmetric, so the result is the one sorted permutation of
    the input whatever the sorting algorithm (see [sort_Strings_unique]). *)
Definition sort_Strings (l : list string) : list string := merge_sort String.le l.

(** hash/fnv, 32-bit FNV-1a. *)
Definition offset32 : Z := 2166136261.
Definition prime32 : Z := 16777619.
Definition uint32 (z : Z) : Z := z mod 2 ^ 32.

Definition byte_of (c : ascii) : Z := Z.of_N (N_of_ascii c).

(** [Write] of the 32-bit FNV-1a hash; it never returns an error. *)
Fixpoint fnv32a_Write (h : Z) (data : string) : Z :=
  match data with
  | "" => h
  | String c data' => fnv32a_Write (uint32 (Z.lxor h (byte_of c) * prime32)) data'
  end.

(** [strconv.FormatUint(n, base)] for [2 <= base <= 16]: lower-case digits,
    no leading zeros.  64 digits are enough for every [uint64]. *)
Definition digit (d : Z) : ascii :=
  match String.get (Z.to_nat d) "0123456789abcdef" with
  | Some c => c
  | None => "0"%char
  end.

Fixpoint formatBits (fuel : nat) (n base : Z) (acc : string) : string :=
  match fuel with
  | O => acc
  | S fuel' =>
      let acc' := String (digit (n mod base)) acc in
      if n / base =? 0 then acc' else formatBits fuel' (n / base) base acc'
  end.

Definition FormatUint (n base : Z) : string := formatBits 64 n base "".

Definition calcHash (objs : list string) : result string Z :=
  let objs := sort_Strings objs in
  let h := foldl fnv32a_Write offset32 objs in
  Ok h.

Definition Hash (objs : list ObjMetadata) : result string string :=
  let objStrs := map String_ objs in
  match calcHash objStrs with
  | Err e => Err e
  | Ok hashInt => Ok (FormatUint hashInt 16)
  end.

(** *** Slices used as sets *)

(** A [map[ObjMetadata]struct{}] is a finite set.  Go leaves the order in
    which [range] visits a map unspecified: [rangeKeys] is that order. *)
Section slice_sets.
Variable rangeKeys : gset ObjMetadata -> list ObjMetadata.

(** [for _, a := range setA { m[a] = struct{}{} }] *)
Definition insertAll (m : gset ObjMetadata) (setA : list ObjMetadata) : gset ObjMetadata :=
  foldl (fun m a => {[a]} ∪ m) m setA.

(** [for _, b := range setB { delete(m, b) }] *)
Definition deleteAll (m : gset ObjMetadata) (setB : list ObjMetadata) : gset ObjMetadata :=
  foldl (fun m b => m ∖ {[b]}) m setB.

Definition SetDiff (setA setB : list ObjMetadata) : list ObjMetadata :=
  let m := insertAll ∅ setA in
  let m := deleteAll m setB in
  rangeKeys m.

Definition Union (setA setB : list ObjMetadata) : list ObjMetadata :=
  let m := insertAll ∅ setA in
  let m := insertAll m setB in
  rangeKeys m.

Definition SetEquals (setA setB : list ObjMetadata) : bool :=
  let mapA := insertAll ∅ setA in
  let mapB := insertAll ∅ setB in
  if negb (bool_decide (size mapA = size mapB)) then false
  else forallb (fun b => bool_decide (b ∈ mapA)) (rangeKeys mapB).

(** [ObjMetas.Contains] *)
Fixpoint ObjMetas_Contains (oms : list ObjMetadata) (id : ObjMetadata) : bool :=
  match oms with
  | [] => false
  | om :: oms' => if decide (om = id) then true else ObjMetas_Contains oms' id
  end.
End slice_sets.

(** Identities used in the examples. *)
Definition id_a : ObjMetadata := mkObjMetadata "" "a" (mkGroupKind "" "b").
Definition id_b : ObjMetadata := mkObjMetadata "ns" "x" (mkGroupKind "apps" "Deployment").
Definition rbac_id : ObjMetadata :=
  mkObjMetadata "kube-system" "system:controller:token-cleaner" (mkGroupKind rbacGroupName "Role").

(** The number that a string of lower-case hexadecimal digits writes, to
    read back what [FormatUint _ 16] prints; [-1] stands for a byte that
    is not such a digit. *)
Definition digitValue (c : ascii) : Z :=
  let n := byte_of c in
  if (48 <=? n) && (n <=? 57) then n - 48
  else if (97 <=? n) && (n <=? 102) then n - 87
  else -1.

Fixpoint hexValue_from (v : Z) (s : string) : Z :=
  match s with
  | "" => v
  | String c s' => hexValue_from (v * 16 + digitValue c) s'
  end.

Definition hexValue (s : string) : Z := hexValue_from 0 s.

Fixpoint isHex (s : string) : bool :=
  match s with
  | "" => true
  | String c s' => (0 <=? digitValue c) && isHex s'
  end.

End object.

(** ** pkg/apply/mutator: the apply-time mutator *)

Module mutator.
Import object.

(** Modelled from the spec: [mutation.ResourceReference], whose group and
    version are used by [getObject], and [mutation.FieldSubstitution], the
    substitution record [{sourceRef, sourcePath, targetPath, token?}] of
    section 4.I; pkg/object/mutation is not among the sources. *)
Record ResourceReference : Type := mkResourceReference {
  RefGroup : string;
  RefVersion : string;
  RefKind : string;
  RefName : string;
  RefNamespace : string
}.

Record FieldSubstitution : Type := mkFieldSubstitution {
  SourceRef : ResourceReference;
  SourcePath : string;
  TargetPath : string;
  Token : string
}.

Section apply_time_mutator.
(** The dynamic values held by an [interface{}] read from a manifest.
    [float64] stands for Go's floating-point payloads, which are opaque
    here. *)
Variable float64 : Type.

Inductive Value : Type :=
| VNil
| VString (s : string)
| VInt (n : Z)                       (* int, int32, int64 *)
| VFloat (f : float64)               (* float32, float64 *)
| VBool (b : bool)
| VSlice (l : list Value)            (* []interface{} *)
| VMap (m : list (string * Value)).  (* map[string]interface{} *)

(** [unstructured.Unstructured.Object], a [map[string]interface{}]. *)
Definition Object : Type := list (string * Value).

(** The errors of this package, one constructor per place that creates
    one; [cause] is the error wrapped with [%w]. *)
Inductive error : Type :=
| External (msg : string)
    (* an error returned by a library or by the cluster *)
| EmptyPath
    (* "empty path expression" *)
| DollarPath
    (* "path expression starts with '$.': yq expressions should start with '.'" *)
| ReadFieldFailed (path : string) (cause : error)
    (* "failed to read resource field with path expression %q: %w" *)
| WriteFieldFailed (path : string) (cause : error)
    (* "failed to read resource field with path expression %q: %w", in writeFieldValue *)
| MarshalFailed (value : Value)
    (* "failed to marshal value to json: %#v" *)
| ReadAnnotationFailed (target : ResourceReference) (cause : error)
    (* "failed to read jsonpath field in target resource (%v): %w" *)
| SelfReference (source : ResourceReference)
    (* "invalid self-reference (%v)" *)
| GetSourceFailed (source : ResourceReference) (cause : error)
    (* "failed to get source resource (%v): %w" *)
| ReadTargetFailed (path : string) (target : ResourceReference) (cause : error)
    (* "failed to read field %q from target resource (%v): %w" *)
| ReadSourceFailed (path : string) (source : ResourceReference) (cause : error)
    (* "failed to read field %q from source resource (%v): %w" *)
| SourceFieldNotPresent (path : string) (source : ResourceReference)
    (* "source field %q not present in source resource (%v)" *)
| TargetNotString (targetValue : Value)
    (* "token is specified, but target field value is %T, expected string" *)
| StringifyFailed (target : ResourceReference) (cause : error)
    (* "failed to stringify source field value (%v): %w" *)
| SetFieldFailed (target : ResourceReference) (cause : error)
    (* "failed to set field in target resource (%v): %w" *)
| ValidateRefFailed (ref : ResourceReference) (cause : error)
    (* "failed to validate resource reference (%v): %w" *)
| MappingFailed (cause : error)
    (* "failed to identify resource mapping: %w" *)
| RetrieveFailed (cause : error).
    (* "failed to retrieve resource from cluster: %w" *)

(** *** Collaborators *)

(** [fmt.Sprintf("%v", x)] and [json.Marshal]. *)
Variable Sprintf_v : Value -> string.
Variable json_Marshal : Value -> result error string.

(** pkg/kyq over the yq library: [kyq.Get] returns the value, whether a
    node matched, and an error; [kyq.Set] updates the map in place. *)
Variable kyq_Get : Object -> string -> result error (Value * bool).
Variable kyq_Set : Object -> string -> Value -> Object * option error.

(** pkg/object/mutation. *)
Variable HasAnnotation : Object -> bool.
Variable ReadAnnotation : Object -> result error (list FieldSubstitution).
Variable NewResourceReference : Object -> ResourceReference.
Variable RefEqual : ResourceReference -> ResourceReference -> bool.
Variable ResourceReferenceToObjMeta : ResourceReference -> result error ObjMetadata.

(** The REST mapper and the dynamic client: the mapping for a group and
    kind (and version when given), and the [Get] of a resource. *)
Variable Mapping : Type.
Variable RESTMapping : GroupKind -> option string -> result error Mapping.
Variable clusterGet : Mapping -> string -> string -> result error Object.

Definition mutation_Annotation : string := "config.kubernetes.io/apply-time-mutation".

(** *** readFieldValue, writeFieldValue, valueToString *)

(** The paths that the two helpers refuse themselves. *)
Definition refused (path : string) : Prop := path = "" \/ HasPrefix path "$." = true.

Definition readFieldValue (obj : Object) (path : string) : result error (Value * bool) :=
  if decide (path = "") then Err EmptyPath
  else if HasPrefix path "$." then Err DollarPath
  else match kyq_Get obj path with
       | Err e => Err (ReadFieldFailed path e)
       | Ok (value, found) => Ok (value, found)
       end.

(** The object is updated in place: the first component is the object
    after the call. *)
Definition writeFieldValue (obj : Object) (path : string) (value : Value)
  : Object * option error :=
  if decide (path = "") then (obj, Some EmptyPath)
  else if HasPrefix path "$." then (obj, Some DollarPath)
  else match kyq_Set obj path value with
       | (obj', Some e) => (obj', Some (WriteFieldFailed path e))
       | (obj', None) => (obj', None)
       end.

Definition valueToString (value : Value) : result error string :=
  match value with
  | VString valueTyped => Ok valueTyped
  | VInt _ | VFloat _ | VBool _ => Ok (Sprintf_v value)
  | _ =>
      match json_Marshal value with
      | Err _ => Err (MarshalFailed value)
      | Ok jsonBytes => Ok jsonBytes
      end
  end.

(** The words of the specification on the stringified source value:
    "strings pass through; numbers/bools formatted with [%v]; maps/lists
    JSON-marshaled", and so is every other value, [nil] among them.  This
    definition does not follow [valueToString]. *)
Inductive stringified : Value -> string -> Prop :=
| stringified_string s : stringified (VString s) s
| stringified_int n : stringified (VInt n) (Sprintf_v (VInt n))
| stringified_float f : stringified (VFloat f) (Sprintf_v (VFloat f))
| stringified_bool b : stringified (VBool b) (Sprintf_v (VBool b))
| stringified_nil s : json_Marshal VNil = Ok s -> stringified VNil s
| stringified_slice l s : json_Marshal (VSlice l) = Ok s -> stringified (VSlice l) s
| stringified_map m s : json_Marshal (VMap m) = Ok s -> stringified (VMap m) s.

(** *** getObject *)

(** The optional resource cache, a map from identity to object. *)
Definition ResourceCache : Type := option (gmap ObjMetadata Object).

Definition getObject (cache : ResourceCache) (ref : ResourceReference)
  : ResourceCache * result error Object :=
  match ResourceReferenceToObjMeta ref with
  | Err e => (cache, Err (ValidateRefFailed ref e))
  | Ok id =>
      match cache ≫= (fun c => c !! id) with
      | Some obj => (cache, Ok obj)
      | None =>
          let gk := mkGroupKind (RefGroup ref) (RefKind ref) in
          let mapping :=
            if decide (RefVersion ref = "") then RESTMapping gk None
            else RESTMapping gk (Some (RefVersion ref)) in
          match mapping with
          | Err e => (cache, Err (MappingFailed e))
          | Ok mapping =>
              match clusterGet mapping (RefNamespace ref) (RefName ref) with
              | Err e => (cache, Err (RetrieveFailed e))
              | Ok obj => ((fun c => <[id := obj]> c) <$> cache, Ok obj)
              end
          end
      end
  end.

(** *** Mutate *)

(** The value written to the target field (the [if sub.Token == ""]
    statement of the substitution loop). *)
Definition newValue (targetRef : ResourceReference) (sub : FieldSubstitution)
    (targetValue sourceValue : Value) : result error Value :=
  if decide (Token sub = "") then Ok sourceValue
  else
    match targetValue with
    | VString targetValueString =>
        match valueToString sourceValue with
        | Err e => Err (StringifyFailed targetRef e)
        | Ok sourceValueString =>
            Ok (VString (ReplaceAll targetValueString (Token sub) sourceValueString))
        end
    | _ => Err (TargetNotString targetValue)
    end.

(** One iteration of the substitution loop: the cache and the target
    object after it, and the error that ends the loop, if any. *)
Definition substitute (targetRef : ResourceReference) (cache : ResourceCache)
    (obj : Object) (sub : FieldSubstitution)
  : ResourceCache * Object * option error :=
  let sourceRef := SourceRef sub in
  match getObject cache sourceRef with
  | (cache, Err e) => (cache, obj, Some (GetSourceFailed sourceRef e))
  | (cache, Ok sourceObj) =>
      match readFieldValue obj (TargetPath sub) with
      | Err e => (cache, obj, Some (ReadTargetFailed (TargetPath sub) targetRef e))
      | Ok (targetValue, _) =>
          match readFieldValue sourceObj (SourcePath sub) with
          | Err e => (cache, obj, Some (ReadSourceFailed (SourcePath sub) sourceRef e))
          | Ok (_, false) =>
              (cache, obj, Some (SourceFieldNotPresent (SourcePath sub) sourceRef))
          | Ok (sourceValue, true) =>
              match newValue targetRef sub targetValue sourceValue with
              | Err e => (cache, obj, Some e)
              | Ok newValue =>
                  match writeFieldValue obj (TargetPath sub) newValue with
                  | (obj', Some e) => (cache, obj', Some (SetFieldFailed targetRef e))
                  | (obj', None) => (cache, obj', None)
                  end
              end
          end
      end
  end.

Record MutateResult : Type := mkMutateResult {
  mutated : bool;
  reason : string;
  err : option error
}.

Fixpoint substituteAll (targetRef : ResourceReference) (cache : ResourceCache)
    (obj : Object) (subs : list FieldSubstitution) (mutated : bool) (reason : string)
  : ResourceCache * Object * MutateResult :=
  match subs with
  | [] => (cache, obj, mkMutateResult mutated reason None)
  | sub :: subs' =>
      match substitute targetRef cache obj sub with
      | (cache, obj, Some e) => (cache, obj, mkMutateResult mutated reason (Some e))
      | (cache, obj, None) =>
          substituteAll targetRef cache obj subs' true
            ("resource contained annotation: " +:+ mutation_Annotation)
      end
  end.

Definition Mutate (cache : ResourceCache) (obj : Object)
  : ResourceCache * Object * MutateResult :=
  let targetRef := NewResourceReference obj in
  if negb (HasAnnotation obj) then (cache, obj, mkMutateResult false "" None)
  else
    match ReadAnnotation obj with
    | Err e => (cache, obj, mkMutateResult false "" (Some (ReadAnnotationFailed targetRef e)))
    | Ok subs =>
        match find (fun sub => RefEqual targetRef (SourceRef sub)) subs with
        | Some sub =>
            (cache, obj, mkMutateResult false "" (Some (SelfReference (SourceRef sub))))
        | None => substituteAll targetRef cache obj subs false ""
        end
    end.
End apply_time_mutator.

Arguments VNil {float64}.
Arguments VString {float64} s.
Arguments VInt {float64} n.
Arguments VFloat {float64} f.
Arguments VBool {float64} b.
Arguments VSlice {float64} l.
Arguments VMap {float64} m.
Arguments External {float64} msg.
Arguments EmptyPath {float64}.
Arguments DollarPath {float64}.
Arguments ReadFieldFailed {float64} path cause.
Arguments WriteFieldFailed {float64} path cause.
Arguments MarshalFailed {float64} value.
Arguments ReadAnnotationFailed {float64} target cause.
Arguments SelfReference {float64} source.
Arguments GetSourceFailed {float64} source cause.
Arguments ReadTargetFailed {float64} path target cause.
Arguments ReadSourceFailed {float64} path source cause.
Arguments SourceFieldNotPresent {float64} path source.
Arguments TargetNotString {float64} targetValue.
Arguments StringifyFailed {float64} target cause.
Arguments SetFieldFailed {float64} target cause.
Arguments ValidateRefFailed {float64} ref cause.
Arguments MappingFailed {float64} cause.
Arguments RetrieveFailed {float64} cause.

(** *** Stand-ins for the collaborators, for the examples

    [fieldGet] and [fieldSet] evaluate a path of field names separated by
    dots, [.spec.url]; [lengthGet] understands the one expression [length],
    the number of keys of the object.  No floating-point value occurs. *)
Definition Val : Type := Value Empty_set.
Definition Obj : Type := Object Empty_set.

Fixpoint fields (path : string) : list string :=
  match path with
  | "" => [""]
  | String c path' =>
      if Ascii.eqb c "." then "" :: fields path'
      else match fields path' with
           | k :: ks => String c k :: ks
           | [] => [String c ""]
           end
  end.

Fixpoint lookupKey (k : string) (m : list (string * Val)) : option Val :=
  match m with
  | [] => None
  | (k', v) :: m' => if String.eqb k k' then Some v else lookupKey k m'
  end.

Fixpoint setKey (k : string) (f : option Val -> Val) (m : list (string * Val))
  : list (string * Val) :=
  match m with
  | [] => [(k, f None)]
  | (k', v) :: m' =>
      if String.eqb k k' then (k, f (Some v)) :: m' else (k', v) :: setKey k f m'
  end.

Fixpoint getPath (keys : list string) (v : Val) : option Val :=
  match keys with
  | [] => Some v
  | k :: keys' =>
      match v with
      | VMap m => lookupKey k m ≫= getPath keys'
      | _ => None
      end
  end.

Fixpoint setPath (keys : list string) (new : Val) (v : option Val) : Val :=
  match keys with
  | [] => new
  | k :: keys' =>
      match v with
      | Some (VMap m) => VMap (setKey k (setPath keys' new) m)
      | _ => VMap [(k, setPath keys' new None)]
      end
  end.

Definition fieldGet (obj : Obj) (path : string) : result (error Empty_set) (Val * bool) :=
  match fields path with
  | "" :: k :: keys =>
      match getPath (k :: keys) (VMap obj) with
      | Some v => Ok (v, true)
      | None => Ok (VNil, false)
      end
  | _ => Err (External "bad expression")
  end.

Definition fieldSet (obj : Obj) (path : string) (value : Val)
  : Obj * option (error Empty_set) :=
  match fields path with
  | "" :: k :: keys =>
      match setPath (k :: keys) value (Some (VMap obj)) with
      | VMap m => (m, None)
      | _ => (obj, Some (External "not a map"))
      end
  | _ => (obj, Some (External "bad expression"))
  end.

Definition lengthGet (obj : Obj) (path : string) : result (error Empty_set) (Val * bool) :=
  if String.eqb path "length" then Ok (VInt (Z.of_nat (length obj)), true)
  else Err (External "bad expression").

Definition showValue (v : Val) : string :=
  match v with
  | VBool true => "true"
  | VBool false => "false"
  | _ => ""
  end.

Definition noJSON (v : Val) : result (error Empty_set) string :=
  Err (External "unsupported value").

Definition refToObjMeta (ref : ResourceReference) : result (error Empty_set) ObjMetadata :=
  Ok (mkObjMetadata (RefNamespace ref) (RefName ref) (mkGroupKind (RefGroup ref) (RefKind ref))).

Definition noMapping (gk : GroupKind) (version : option string) : result (error Empty_set) unit :=
  Err (External "no matches for kind").

Definition noCluster (mapping : unit) (namespace name : string) : result (error Empty_set) Obj :=
  Err (External "not found").

(** The objects of the scenario "apply-time substitution with token". *)
Definition sourceObject : Obj := [("spec", VMap [("secret", VString "XYZ")])].
Definition targetObject : Obj := [("spec", VMap [("url", VString "https://${SECRET}/path")])].
Definition sourceReference : ResourceReference :=
  mkResourceReference "" "v1" "Secret" "source" "test-namespace".
Definition targetReference : ResourceReference :=
  mkResourceReference "" "v1" "ConfigMap" "target" "test-namespace".
Definition scenarioSubstitution : FieldSubstitution :=
  mkFieldSubstitution sourceReference ".spec.secret" ".spec.url" "${SECRET}".
Definition scenarioCache : ResourceCache Empty_set :=
  Some {[ mkObjMetadata "test-namespace" "source" (mkGroupKind "" "Secret") := sourceObject ]}.

(** Stand-ins for pkg/object/mutation and for the cluster in the scenario:
    the annotation of every object holds the substitutions [subs], every
    object is the target of the scenario, references are compared by kind,
    name and namespace, and the cluster holds the source object under
    every name. *)
Definition annotated (obj : Obj) : bool := true.

Definition annotationOf (subs : list FieldSubstitution) (obj : Obj)
  : result (error Empty_set) (list FieldSubstitution) := Ok subs.

Definition referenceOf (obj : Obj) : ResourceReference := targetReference.

Definition sameReference (a b : ResourceReference) : bool :=
  String.eqb (RefKind a) (RefKind b) && String.eqb (RefName a) (RefName b) &&
  String.eqb (RefNamespace a) (RefNamespace b).

Definition anyMapping (gk : GroupKind) (version : option string) : result (error Empty_set) unit :=
  Ok tt.

Definition sourceCluster (mapping : unit) (namespace name : string)
  : result (error Empty_set) Obj := Ok sourceObject.

Definition selfSubstitution : FieldSubstitution :=
  mkFieldSubstitution targetReference ".spec.url" ".spec.url" "".

Definition scenarioMutate (subs : list FieldSubstitution) :=
  Mutate Empty_set showValue noJSON fieldGet fieldSet annotated (annotationOf subs)
    referenceOf sameReference refToObjMeta unit noMapping noCluster.

End mutator.

(** ** pkg/apply/task: the apply task *)

Module task.
Import object.

(** Modelled from the spec: [common.ServerSideOptions] and
    [common.DryRunStrategy], with the fields and values of the flags
    [--server-side], [--force-conflicts], [--field-manager] and [--dry-run]
    of section 6; pkg/common is not among the sources. *)
Record ServerSideOptions : Type := mkServerSideOptions {
  ServerSideApply : bool;
  ForceConflicts : bool;
  FieldManager : string
}.

Inductive DryRunStrategy : Type := DryRunNone | DryRunClient | DryRunServer.

(** Modelled from the spec: [event.ApplyEventOperation], the operations
    [Apply{Created|Configured|Unchanged}] of section 4.H; [ZeroOperation] is
    the zero value of the type, carried by an event whose operation is not
    set.  pkg/apply/event is not among the sources. *)
Inductive ApplyEventOperation : Type :=
| ZeroOperation | Created | Configured | Unchanged.

(** Modelled from the spec: [event.Type], the event types of section 6. *)
Inductive EventType : Type :=
| InitType | ApplyType | PruneType | StatusType | WaitType | InventoryUpdateType
| ErrorType.

Section apply_task.
(** The objects, the [resource.Info] built for them, the errors of the
    collaborators with their [Error()] text, and the [applyOptions]
    created by the factory. *)
Variable Unstructured : Type.
Variable Info : Type.
Variable RuntimeObject : Type.
Variable UID : Type.
Variable error : Type.
Variable Error : error -> string.
Variable applyOptions : Type.

Variable UnstructuredToObjMetaOrDie : Unstructured -> ObjMetadata.
(** [obj.GroupVersionKind().GroupKind()] *)
Variable GroupKindOf : Unstructured -> GroupKind.
(** [info.Object], and [meta.Accessor] with [GetUID] and [GetGeneration]. *)
Variable InfoObject : Info -> option RuntimeObject.
Variable Accessor : RuntimeObject -> result error (UID * Z).

(** The errors carried by the events: an error of a collaborator, alone
    or wrapped by the task. *)
Inductive taskError : Type :=
| Plain (e : error)
| UnknownTypeError (e : error)           (* applyerror.NewUnknownTypeError *)
| ApplyRunError (e : error)              (* applyerror.NewApplyRunError *)
| InitializeApplyOptionError (e : error) (* applyerror.NewInitializeApplyOptionError *)
| FilterFailed (id : ObjMetadata) (filterName : string) (e : error)
    (* "failed to filter %q with %q: %w" *)
| MutateFailed (id : ObjMetadata) (mutatorName : string) (e : error).
    (* "failed to mutate %q with %q: %w" *)

Record ApplyEvent : Type := mkApplyEvent {
  Identifier : ObjMetadata;
  Operation : ApplyEventOperation;
  Resource : option Unstructured;
  EventError : option taskError
}.

Record Event : Type := mkEvent {
  Type_ : EventType;
  ApplyEvent_ : ApplyEvent
}.

(** [filter.ValidationFilter] and [mutator.Interface].  A mutator updates
    the object in place: the first component is the object after the
    call. *)
Record ValidationFilter : Type := mkValidationFilter {
  FilterName : string;
  Filter : Unstructured -> bool * string * option error
}.

Record Mutator : Type := mkMutator {
  MutatorName : string;
  Mutate : Unstructured -> Unstructured * (bool * string * option error)
}.

Record ApplyTask : Type := mkApplyTask {
  TaskName : string;
  BuildInfo : Unstructured -> result error Info;  (* InfoHelper.BuildInfo *)
  Objects : list Unstructured;
  Filters : list ValidationFilter;
  Mutators : list Mutator;
  Strategy : DryRunStrategy;
  ServerSide : ServerSideOptions
}.

(** [applyOptionsFactoryFunc], a package variable of the source, and
    [SetObjects([]*resource.Info{info})] followed by [Run()].  The info
    points to the object, so [Run] sees the object as mutated; it returns
    the info as the call leaves it. *)
Variable applyOptionsFactoryFunc :
  ServerSideOptions -> DryRunStrategy -> result error applyOptions.
Variable Run : applyOptions -> Info -> Unstructured -> Info * option error.

(** What the goroutine of [Start] does to the task context and to its
    collaborators, in order. *)
Inductive Action : Type :=
| SendEvent (e : Event)                  (* taskContext.EventChannel() <- e *)
| CaptureResourceFailure (id : ObjMetadata)
| ResourceApplied (id : ObjMetadata) (uid : UID) (gen : Z)
| CallFactory (o : ServerSideOptions) (s : DryRunStrategy)
| CallRun (ao : applyOptions) (info : Info) (obj : Unstructured)
| SendTaskResult.                        (* taskContext.TaskChannel() <- TaskResult{} *)

Definition createApplyEvent (id : ObjMetadata) (operation : ApplyEventOperation)
    (resource : Unstructured) : Event :=
  mkEvent ApplyType (mkApplyEvent id operation (Some resource) None).

Definition createApplyFailedEvent (id : ObjMetadata) (err : taskError) : Event :=
  mkEvent ApplyType (mkApplyEvent id ZeroOperation None (Some err)).

Definition sendBatchApplyEvents (objects : list Unstructured) (err : error) : list Action :=
  flat_map (fun obj =>
    let id := UnstructuredToObjMetaOrDie obj in
    [SendEvent (createApplyFailedEvent id (InitializeApplyOptionError err));
     CaptureResourceFailure id]) objects.

Definition isAPIService (obj : Unstructured) : bool :=
  let gk := GroupKindOf obj in
  bool_decide (Group gk = "apiregistration.k8s.io") && bool_decide (Kind gk = "APIService").

Definition isStreamError (err : error) : bool :=
  Contains (Error err) "stream error: stream ID ".

(** [ApplyTask.filter] *)
Fixpoint filter_loop (id : ObjMetadata) (filters : list ValidationFilter)
    (obj : Unstructured) : bool * option taskError :=
  match filters with
  | [] => (false, None)
  | f :: filters' =>
      match Filter f obj with
      | (_, _, Some err) => (true, Some (FilterFailed id (FilterName f) err))
      | (true, _, None) => (true, None)
      | (false, _, None) => filter_loop id filters' obj
      end
  end.

Definition filter (a : ApplyTask) (obj : Unstructured) : bool * option taskError :=
  filter_loop (UnstructuredToObjMetaOrDie obj) (Filters a) obj.

(** [ApplyTask.mutate] *)
Fixpoint mutate_loop (id : ObjMetadata) (mutators : list Mutator)
    (obj : Unstructured) : Unstructured * option taskError :=
  match mutators with
  | [] => (obj, None)
  | m :: mutators' =>
      match Mutate m obj with
      | (obj', (_, _, Some err)) => (obj', Some (MutateFailed id (MutatorName m) err))
      | (obj', (_, _, None)) => mutate_loop id mutators' obj'
      end
  end.

Definition mutate (a : ApplyTask) (obj : Unstructured) : Unstructured * option taskError :=
  mutate_loop (UnstructuredToObjMetaOrDie obj) (Mutators a) obj.

Definition clientSideOptions : ServerSideOptions := mkServerSideOptions false false "".

Definition clientSideApply (info : Info) (obj : Unstructured) (strategy : DryRunStrategy)
  : list Action * Info * option error :=
  match applyOptionsFactoryFunc clientSideOptions strategy with
  | Err err => ([CallFactory clientSideOptions strategy], info, Some err)
  | Ok ao =>
      let '(info', err) := Run ao info obj in
      ([CallFactory clientSideOptions strategy; CallRun ao info obj], info', err)
  end.

(** The body of the loop over the objects in [Start]. *)
Definition applyObject (a : ApplyTask) (ao : applyOptions) (obj : Unstructured)
  : list Action :=
  let id := UnstructuredToObjMetaOrDie obj in
  match BuildInfo a obj with
  | Err err =>
      [SendEvent (createApplyFailedEvent id (UnknownTypeError err));
       CaptureResourceFailure id]
  | Ok info =>
      match filter a obj with
      | (_, Some err) =>
          [SendEvent (createApplyFailedEvent id err); CaptureResourceFailure id]
      | (true, None) =>
          [SendEvent (createApplyEvent id Unchanged obj); CaptureResourceFailure id]
      | (false, None) =>
          match mutate a obj with
          | (_, Some err) =>
              [SendEvent (createApplyFailedEvent id err); CaptureResourceFailure id]
          | (obj, None) =>
              let '(info1, err) := Run ao info obj in
              let '(fallback, info2, err) :=
                match err with
                | Some e =>
                    if ServerSideApply (ServerSide a) && isAPIService obj && isStreamError e
                    then clientSideApply info1 obj (Strategy a)
                    else ([], info1, err)
                | None => ([], info1, err)
                end in
              [CallRun ao info obj] ++ fallback ++
              match err with
              | Some e =>
                  [SendEvent (createApplyFailedEvent id (ApplyRunError e));
                   CaptureResourceFailure id]
              | None =>
                  match InfoObject info2 with
                  | Some o =>
                      match Accessor o with
                      | Ok (uid, gen) => [ResourceApplied id uid gen]
                      | Err _ => []
                      end
                  | None => []
                  end
              end
          end
      end
  end.

(** [ApplyTask.Start]: the actions of its goroutine. *)
Definition Start (a : ApplyTask) : list Action :=
  match applyOptionsFactoryFunc (ServerSide a) (Strategy a) with
  | Err err =>
      [CallFactory (ServerSide a) (Strategy a)] ++
      sendBatchApplyEvents (Objects a) err ++ [SendTaskResult]
  | Ok ao =>
      [CallFactory (ServerSide a) (Strategy a)] ++
      flat_map (applyObject a ao) (Objects a) ++ [SendTaskResult]
  end.

(** The events sent and the failures captured by a sequence of actions. *)
Definition events (tr : list Action) : list Event :=
  omap (fun x => match x with SendEvent e => Some e | _ => None end) tr.

Definition failures (tr : list Action) : list ObjMetadata :=
  omap (fun x => match x with CaptureResourceFailure id => Some id | _ => None end) tr.

(** The call of the factory for client-side options, which only
    [clientSideApply] makes in the loop, marks the fallback. *)
Definition fallback (a : ApplyTask) : Action := CallFactory clientSideOptions (Strategy a).

(** The per-object failures with the error of the event: building the
    info, a filter, a mutator, or the apply itself (after the fallback,
    where it is taken). *)
Inductive objectFails (a : ApplyTask) (ao : applyOptions) (obj : Unstructured)
  : taskError -> Prop :=
| fails_BuildInfo e :
    BuildInfo a obj = Err e ->
    objectFails a ao obj (UnknownTypeError e)
| fails_filter info filtered err :
    BuildInfo a obj = Ok info -> filter a obj = (filtered, Some err) ->
    objectFails a ao obj err
| fails_mutate info obj' err :
    BuildInfo a obj = Ok info -> filter a obj = (false, None) ->
    mutate a obj = (obj', Some err) ->
    objectFails a ao obj err
| fails_Run info obj' info1 e :
    BuildInfo a obj = Ok info -> filter a obj = (false, None) ->
    mutate a obj = (obj', None) -> Run ao info obj' = (info1, Some e) ->
    ServerSideApply (ServerSide a) && isAPIService obj' && isStreamError e = false ->
    objectFails a ao obj (ApplyRunError e)
| fails_clientSideApply info obj' info1 e0 tr info2 e :
    BuildInfo a obj = Ok info -> filter a obj = (false, None) ->
    mutate a obj = (obj', None) -> Run ao info obj' = (info1, Some e0) ->
    ServerSideApply (ServerSide a) && isAPIService obj' && isStreamError e0 = true ->
    clientSideApply info1 obj' (Strategy a) = (tr, info2, Some e) ->
    objectFails a ao obj (ApplyRunError e).

(** *** The words of the specification on filters, mutators and failures

    These definitions do not follow [filter], [mutate] or the loop of
    [Start]; they say, on the results of the filters, of the mutators, of
    [BuildInfo], of the factory and of [Run] themselves, what it is for the
    filters to let an object pass, for a list of mutators to run without an
    error and what object they leave, and for an object to fail. *)
Definition filtersPass (filters : list ValidationFilter) (obj : Unstructured) : Prop :=
  Forall (fun f => exists reason, Filter f obj = (false, reason, None)) filters.

Fixpoint mutatorsSucceed (mutators : list Mutator) (obj : Unstructured) : Prop :=
  match mutators with
  | [] => True
  | m :: mutators' =>
      (exists mutated reason, (Mutate m obj).2 = (mutated, reason, None)) /\
      mutatorsSucceed mutators' (Mutate m obj).1
  end.

Definition runMutators (mutators : list Mutator) (obj : Unstructured) : Unstructured :=
  foldl (fun obj m => (Mutate m obj).1) obj mutators.

(** The text of the error makes the task fall back to client-side apply
    for the object. *)
Definition streamErrorOnAPIService (a : ApplyTask) (obj : Unstructured) (e : error) : Prop :=
  ServerSideApply (ServerSide a) = true /\
  Group (GroupKindOf obj) = "apiregistration.k8s.io" /\
  Kind (GroupKindOf obj) = "APIService" /\
  Contains (Error e) "stream error: stream ID " = true.

Inductive objectFailure (a : ApplyTask) (ao : applyOptions) (obj : Unstructured)
  : taskError -> Prop :=
| failure_info e :
    BuildInfo a obj = Err e ->
    objectFailure a ao obj (UnknownTypeError e)
| failure_filter info pre f post filtered reason e :
    BuildInfo a obj = Ok info ->
    Filters a = (pre ++ f :: post)%list -> filtersPass pre obj ->
    Filter f obj = (filtered, reason, Some e) ->
    objectFailure a ao obj (FilterFailed (UnstructuredToObjMetaOrDie obj) (FilterName f) e)
| failure_mutator info pre m post obj' mutated reason e :
    BuildInfo a obj = Ok info -> filtersPass (Filters a) obj ->
    Mutators a = (pre ++ m :: post)%list -> mutatorsSucceed pre obj ->
    Mutate m (runMutators pre obj) = (obj', (mutated, reason, Some e)) ->
    objectFailure a ao obj (MutateFailed (UnstructuredToObjMetaOrDie obj) (MutatorName m) e)
| failure_apply info info1 e :
    BuildInfo a obj = Ok info -> filtersPass (Filters a) obj ->
    mutatorsSucceed (Mutators a) obj ->
    Run ao info (runMutators (Mutators a) obj) = (info1, Some e) ->
    ~ streamErrorOnAPIService a (runMutators (Mutators a) obj) e ->
    objectFailure a ao obj (ApplyRunError e)
| failure_fallback_options info info1 e0 e :
    BuildInfo a obj = Ok info -> filtersPass (Filters a) obj ->
    mutatorsSucceed (Mutators a) obj ->
    Run ao info (runMutators (Mutators a) obj) = (info1, Some e0) ->
    streamErrorOnAPIService a (runMutators (Mutators a) obj) e0 ->
    applyOptionsFactoryFunc clientSideOptions (Strategy a) = Err e ->
    objectFailure a ao obj (ApplyRunError e)
| failure_fallback_apply info info1 e0 ao' info2 e :
    BuildInfo a obj = Ok info -> filtersPass (Filters a) obj ->
    mutatorsSucceed (Mutators a) obj ->
    Run ao info (runMutators (Mutators a) obj) = (info1, Some e0) ->
    streamErrorOnAPIService a (runMutators (Mutators a) obj) e0 ->
    applyOptionsFactoryFunc clientSideOptions (Strategy a) = Ok ao' ->
    Run ao' info1 (runMutators (Mutators a) obj) = (info2, Some e) ->
    objectFailure a ao obj (ApplyRunError e).

(** What is recorded for an object whose apply returned no error. *)
Definition applied (id : ObjMetadata) (info : Info) : list Action :=
  match InfoObject info with
  | Some o =>
      match Accessor o with
      | Ok (uid, gen) => [ResourceApplied id uid gen]
      | Err _ => []
      end
  | None => []
  end.
End apply_task.

Arguments Plain {error} e.
Arguments UnknownTypeError {error} e.
Arguments ApplyRunError {error} e.
Arguments InitializeApplyOptionError {error} e.
Arguments FilterFailed {error} id filterName e.
Arguments MutateFailed {error} id mutatorName e.
Arguments mkApplyEvent {Unstructured error}.
Arguments mkEvent {Unstructured error}.
Arguments mkValidationFilter {Unstructured error}.
Arguments FilterName {Unstructured error}.
Arguments Filter {Unstructured error}.
Arguments mkMutator {Unstructured error}.
Arguments MutatorName {Unstructured error}.
Arguments Mutate {Unstructured error}.
Arguments mkApplyTask {Unstructured Info error}.
Arguments TaskName {Unstructured Info error}.
Arguments BuildInfo {Unstructured Info error}.
Arguments Objects {Unstructured Info error}.
Arguments Filters {Unstructured Info error}.
Arguments Mutators {Unstructured Info error}.
Arguments Strategy {Unstructured Info error}.
Arguments ServerSide {Unstructured Info error}.
Arguments SendEvent {Unstructured Info UID error applyOptions} e.
Arguments CaptureResourceFailure {Unstructured Info UID error applyOptions} id.
Arguments ResourceApplied {Unstructured Info UID error applyOptions} id uid gen.
Arguments CallFactory {Unstructured Info UID error applyOptions} o s.
Arguments CallRun {Unstructured Info UID error applyOptions} ao info obj.
Arguments SendTaskResult {Unstructured Info UID error applyOptions}.

(** *** Stand-ins for the collaborators, for the examples

    An object and its info are its identity, an error is its text, the
    options created by the factory are the server-side options it is given.
    The cluster refuses every server-side apply with a stream error and
    accepts every client-side apply; no info can be built for the kind
    [Unknown]; the one filter keeps the objects of the namespace
    [other-inventory] from being applied. *)
Definition fakeFactory (o : ServerSideOptions) (s : DryRunStrategy)
  : result string ServerSideOptions := Ok o.

Definition fakeRun (ao : ServerSideOptions) (info obj : ObjMetadata)
  : ObjMetadata * option string :=
  if ServerSideApply ao then (info, Some "stream error: stream ID 1; INTERNAL_ERROR")
  else (info, None).

Definition fakeBuildInfo (obj : ObjMetadata) : result string ObjMetadata :=
  if String.eqb (Kind (GK obj)) "Unknown" then Err "no matches for kind Unknown" else Ok obj.

Definition fakeAccessor (o : unit) : result string (string * Z) := Ok ("uid", 1).

Definition inventoryFilter : ValidationFilter ObjMetadata string :=
  mkValidationFilter "InventoryPolicyFilter"
    (fun obj => if String.eqb (Namespace obj) "other-inventory"
                then (true, "object owned by another inventory", None)
                else (false, "", None)).

Definition apiService : ObjMetadata :=
  mkObjMetadata "" "v1beta1.metrics.k8s.io" (mkGroupKind "apiregistration.k8s.io" "APIService").
Definition deployment : ObjMetadata :=
  mkObjMetadata "test-namespace" "foo" (mkGroupKind "apps" "Deployment").
Definition unknownObject : ObjMetadata :=
  mkObjMetadata "test-namespace" "bar" (mkGroupKind "example.com" "Unknown").
Definition foreignObject : ObjMetadata :=
  mkObjMetadata "other-inventory" "baz" (mkGroupKind "" "ConfigMap").

Definition fakeTask : ApplyTask ObjMetadata ObjMetadata string :=
  mkApplyTask "apply-0" fakeBuildInfo [deployment; unknownObject; foreignObject; apiService]
    [inventoryFilter] [] DryRunNone (mkServerSideOptions true false "kapply").

Definition fakeApplyObject :=
  applyObject ObjMetadata ObjMetadata unit string string (fun e => e) ServerSideOptions
    (fun obj => obj) GK (fun _ => Some tt) fakeAccessor fakeFactory fakeRun.

Definition fakeStart :=
  Start ObjMetadata ObjMetadata unit string string (fun e => e) ServerSideOptions
    (fun obj => obj) GK (fun _ => Some tt) fakeAccessor fakeFactory fakeRun.

End task.

(** ** pkg/object/graph: the dependency graph and the resolver *)

Module graph.
Import object.

(** Modelled from the spec: the dependency graph of section 4.B (an
    adjacency map from an identity to the set of identities it depends on)
    with [AddEdge] and [Sort], and the resolver of section 4.C, [SortObjs].
    The sources hold only the tests of this package, depends_test.go. *)
Abbreviation Graph := (gmap ObjMetadata (gset ObjMetadata)).

(** Modelled from the spec: an edge [(from, to)], "[from] depends on [to]". *)
Definition Edge : Type := (ObjMetadata * ObjMetadata)%type.

(** Modelled from the spec: the error of the graph, [CyclicDependencyError]
    with the residual edges. *)
Inductive error : Type :=
| CyclicDependencyError (edges : list Edge).

(** Modelled from the spec: the identities [v] depends on. *)
Definition adjacent (g : Graph) (v : ObjMetadata) : gset ObjMetadata :=
  default ∅ (g !! v).

(** Modelled from the spec: the edges of the graph. *)
Definition GetEdges (g : Graph) : list Edge :=
  map_to_list g ≫= (fun '(v, adj) => (fun w => (v, w)) <$> elements adj).

(** Modelled from the spec: a vertex is added without edges, once. *)
Definition AddVertex (v : ObjMetadata) (g : Graph) : Graph :=
  match g !! v with
  | Some _ => g
  | None => <[v := ∅]> g
  end.

(** Modelled from the spec: "[AddEdge(from, to)] — idempotent; self-loops
    are rejected".  The one error kind of the graph is
    [CyclicDependencyError]; a rejected self-loop is reported as the cycle
    it is. *)
Definition AddEdge (g : Graph) (e : Edge) : result error Graph :=
  let '(from, to) := e in
  if decide (from = to) then Err (CyclicDependencyError [e])
  else
    let g := AddVertex to (AddVertex from g) in
    Ok (<[from := {[to]} ∪ adjacent g from]> g).

(** Modelled from the spec: the edges of a pass are added in order; the
    first rejected edge ends the construction. *)
Fixpoint AddEdges (g : Graph) (es : list Edge) : result error Graph :=
  match es with
  | [] => Ok g
  | e :: es' =>
      match AddEdge g e with
      | Err err => Err err
      | Ok g' => AddEdges g' es'
      end
  end.

(** Modelled from the spec: the leaves, the vertices without out-edges. *)
Definition leafVertices (g : Graph) : gset ObjMetadata :=
  dom (filter (fun kv => kv.2 = ∅) g).

(** Modelled from the spec: leaf-removal, of the vertices and of the edges
    that point to them. *)
Definition removeVertices (vs : gset ObjMetadata) (g : Graph) : Graph :=
  (fun adj => adj ∖ vs) <$> filter (fun kv => kv.1 ∉ vs) g.

(** Modelled from the spec: "level 0 = no out-edges; level k+1 = out-edges
    only to levels <= k" and "if after iterated leaf-removal any nodes
    remain, return [CyclicDependencyError] with the residual cycle set".
    Each round removes a leaf, so as many rounds as the graph has vertices
    are enough ([sort_loop_fuel]). *)
Fixpoint sort_loop (fuel : nat) (g : Graph) : option (result error (list (gset ObjMetadata))) :=
  if decide (g = ∅) then Some (Ok [])
  else
    match fuel with
    | O => None
    | S fuel' =>
        let leaves := leafVertices g in
        if decide (leaves = ∅) then Some (Err (CyclicDependencyError (GetEdges g)))
        else
          match sort_loop fuel' (removeVertices leaves g) with
          | Some (Ok waves) => Some (Ok (leaves :: waves))
          | r => r
          end
    end.

(** Modelled from the spec: [Sort()], which returns the waves or the
    error. *)
Definition Sort (g : Graph) : result error (list (gset ObjMetadata)) :=
  match sort_loop (size g) g with
  | Some r => r
  | None => Err (CyclicDependencyError (GetEdges g))
  end.

(** Modelled from the spec: a desired object as the resolver reads it: its
    identity, the identities of its depends-on annotation, the source
    references of its apply-time-mutation annotation and, for a
    CustomResourceDefinition, the group and kind it defines. *)
Record DesiredObject : Type := mkDesiredObject {
  objId : ObjMetadata;
  dependsOn : list ObjMetadata;
  applyTimeMutation : list ObjMetadata;
  crdDefines : option GroupKind
}.

(** Modelled from the spec: the identities of the input set. *)
Definition ids (objs : list DesiredObject) : list ObjMetadata := objId <$> objs.

(** Modelled from the spec: the dependencies of section 4.C, "[a] depends
    on [b]", between the identities of the input. *)
Inductive dependency (objs : list DesiredObject) : ObjMetadata -> ObjMetadata -> Prop :=
| dep_dependsOn o dep :
    o ∈ objs -> dep ∈ dependsOn o -> dep ∈ ids objs ->
    dependency objs (objId o) dep
| dep_applyTimeMutation o src :
    o ∈ objs -> src ∈ applyTimeMutation o -> src ∈ ids objs ->
    dependency objs (objId o) src
| dep_namespace o ns :
    o ∈ objs -> ns ∈ objs -> Namespace (objId o) <> "" ->
    GK (objId ns) = mkGroupKind "" "Namespace" -> Name (objId ns) = Namespace (objId o) ->
    dependency objs (objId o) (objId ns)
| dep_crd o crd :
    o ∈ objs -> crd ∈ objs -> crdDefines crd = Some (GK (objId o)) ->
    dependency objs (objId o) (objId crd).

(** Modelled from the spec: "a [Namespace] object", of the core group. *)
Definition isNamespace (o : DesiredObject) : bool :=
  bool_decide (GK (objId o) = mkGroupKind "" "Namespace").

(** Modelled from the spec: pass 1 of section 4.C, explicit depends-on.  A
    reference to an identity outside the input set is an external
    dependency and adds no edge. *)
Definition dependsOnEdges (objs : list DesiredObject) : list Edge :=
  objs ≫= (fun o =>
    (fun dep => (objId o, dep)) <$>
      filter (fun dep => dep ∈ ids objs) (dependsOn o)).

(** Modelled from the spec: pass 2, apply-time mutation, an edge from the
    target to each source in the input set. *)
Definition applyTimeMutationEdges (objs : list DesiredObject) : list Edge :=
  objs ≫= (fun o =>
    (fun src => (objId o, src)) <$>
      filter (fun src => src ∈ ids objs) (applyTimeMutation o)).

(** Modelled from the spec: pass 3, namespace containment, an edge from
    every namespaced object to the [Namespace] object named by its
    namespace. *)
Definition namespaceEdges (objs : list DesiredObject) : list Edge :=
  objs ≫= (fun o =>
    if decide (Namespace (objId o) = "") then []
    else
      (fun ns => (objId o, objId ns)) <$>
        filter (fun ns => isNamespace ns = true /\ Name (objId ns) = Namespace (objId o)) objs).

(** Modelled from the spec: pass 4, an edge from every custom resource of
    the group and kind a CustomResourceDefinition defines to that
    definition. *)
Definition crdEdges (objs : list DesiredObject) : list Edge :=
  objs ≫= (fun crd =>
    match crdDefines crd with
    | None => []
    | Some gk =>
        (fun o => (objId o, objId crd)) <$> filter (fun o => GK (objId o) = gk) objs
    end).

(** Modelled from the spec: the passes add their edges to one graph. *)
Definition edges (objs : list DesiredObject) : list Edge :=
  dependsOnEdges objs ++ applyTimeMutationEdges objs ++
  namespaceEdges objs ++ crdEdges objs.

(** Modelled from the spec: [SortObjs], the resolver.  Every input object
    is a vertex; the waves of identities are mapped back to the objects,
    kept in input order. *)
Definition SortObjs (objs : list DesiredObject) : result error (list (list DesiredObject)) :=
  match objs with
  | [] => Ok []
  | _ =>
      let g := foldr AddVertex ∅ (ids objs) in
      match AddEdges g (edges objs) with
      | Err err => Err err
      | Ok g =>
          match Sort g with
          | Err err => Err err
          | Ok waves =>
              Ok ((fun wave => filter (fun o => objId o ∈ wave) objs) <$> waves)
          end
      end
  end.

(** The index of the wave that holds the object of an identity. *)
Fixpoint waveOf (waves : list (list DesiredObject)) (id : ObjMetadata) : option nat :=
  match waves with
  | [] => None
  | wave :: waves' =>
      if decide (id ∈ ids wave) then Some O else S <$> waveOf waves' id
  end.

(** The wave of an identity in the waves of the graph. *)
Fixpoint level (waves : list (gset ObjMetadata)) (v : ObjMetadata) : option nat :=
  match waves with
  | [] => None
  | wave :: waves' => if decide (v ∈ wave) then Some O else S <$> level waves' v
  end.

(** Every target of an edge is a vertex. *)
Definition closed (g : Graph) : Prop := forall a b, b ∈ adjacent g a -> b ∈ dom g.

(** The objects of the tests. *)
Definition test_namespace : DesiredObject :=
  mkDesiredObject (mkObjMetadata "" "test-namespace" (mkGroupKind "" "Namespace")) [] [] None.
Definition test_deployment : DesiredObject :=
  mkDesiredObject (mkObjMetadata "test-namespace" "foo" (mkGroupKind "apps" "Deployment"))
    [] [] None.
Definition test_secret : DesiredObject :=
  mkDesiredObject (mkObjMetadata "test-namespace" "secret" (mkGroupKind "" "Secret")) [] [] None.

Definition test_dependent : DesiredObject :=
  mkDesiredObject (objId test_deployment) [objId test_secret] [] None.
Definition test_cyclic : DesiredObject :=
  mkDesiredObject (objId test_secret) [objId test_deployment] [] None.

Definition scenario_waves : list (list DesiredObject) :=
  [[test_namespace]; [test_secret; test_deployment]].

End graph.

(** ** pkg/kyq: yq expressions on an object *)

Module kyq.

Section kyq.
(** [map[string]interface{}], [interface{}] with its [nil], the errors of
    the libraries, [yaml.Node] and [yqlib.ExpressionNode].  A byte slice is
    a string; the nil slice and the empty one are both the empty string. *)
Variable Object : Type.
Variable Value : Type.
Variable nil : Value.
Variable error : Type.
Variable Node : Type.
Variable ExpressionNode : Type.

(** gopkg.in/yaml.v3 and encoding/json.  [yaml_Unmarshal_map] is
    [yaml.Unmarshal(yamlBytes, &obj)] on the map of the caller: it returns
    the map as the call leaves it. *)
Variable yaml_Marshal : Object -> result error string.
Variable yaml_Unmarshal : string -> result error Value.
Variable yaml_Unmarshal_map : string -> Object -> Object * option error.
Variable json_Marshal : Value -> result error string.
Variable Decode : string -> result error Node.

(** yqlib: the parser of expressions, the navigator on the input node
    with the file name of its context, and the printer, which returns what
    it wrote. *)
Variable ParseExpression : string -> result error ExpressionNode.
Variable GetMatchingNodes : string -> Node -> ExpressionNode -> result error (list Node).
Variable PrintResults : list Node -> string * option error.

(** [evaluateStream]: what was printed, whether a node matched, and the
    error. *)
Definition evaluateStream (filename : string) (reader : string) (exNode : ExpressionNode)
  : string * bool * option error :=
  match Decode reader with
  | Err err => ("", false, Some err)
  | Ok input =>
      match GetMatchingNodes filename input exNode with
      | Err err => ("", false, Some err)
      | Ok result =>
          let found := negb (Nat.eqb (length result) 0) in
          if negb found then ("", false, None)
          else
            match PrintResults result with
            | (output, Some err) => (output, found, Some err)
            | (output, None) => (output, found, None)
            end
      end
  end.

Definition evaluateYaml (yamlBytes : string) (expression : string)
  : string * bool * option error :=
  match ParseExpression expression with
  | Err err => ("", false, Some err)
  | Ok node =>
      let filename := "object" in
      match evaluateStream filename yamlBytes node with
      | (output, found, Some err) => (output, found, Some err)
      | (output, found, None) => (output, found, None)
      end
  end.

Definition Get (obj : Object) (expression : string) : Value * bool * option error :=
  match yaml_Marshal obj with
  | Err err => (nil, false, Some err)
  | Ok yamlBytes =>
      match evaluateYaml yamlBytes expression with
      | (_, _, Some err) => (nil, false, Some err)
      | (_, false, None) => (nil, false, None)
      | (yamlBytes, true, None) =>
          match yaml_Unmarshal yamlBytes with
          | Err err => (nil, false, Some err)
          | Ok result => (result, true, None)
          end
      end
  end.

(** The expression that [Set] evaluates, [fmt.Sprintf("(%s) = %s", ...)]. *)
Definition assignment (expression : string) (jsonBytes : string) : string :=
  "(" +:+ expression +:+ ") = " +:+ jsonBytes.

(** [Set] updates the map in place: the first component is the map after
    the call. *)
Definition Set_ (obj : Object) (expression : string) (value : Value)
  : Object * option error :=
  match yaml_Marshal obj with
  | Err err => (obj, Some err)
  | Ok yamlBytes =>
      match json_Marshal value with
      | Err err => (obj, Some err)
      | Ok jsonBytes =>
          let expression := assignment expression jsonBytes in
          match evaluateYaml yamlBytes expression with
          | (_, _, Some err) => (obj, Some err)
          | (_, false, None) => (obj, None)
          | (yamlBytes, true, None) => yaml_Unmarshal_map yamlBytes obj
          end
      end
  end.
End kyq.

(** *** Stand-ins for the libraries, for the examples

    An object is a YAML scalar and its own text, a node and a value are
    their text, and an expression is its text.  The expression [.] matches
    the input, [(.) = v] matches the scalar [v], and every other
    expression matches nothing. *)
Definition scalarMatch (filename : string) (input : string) (expression : string)
  : result string (list string) :=
  if String.eqb expression "." then Ok [input]
  else if HasPrefix expression "(.) = " then Ok [slice_from expression 6]
  else Ok [].

Definition scalarPrint (nodes : list string) : string * option string :=
  (String.concat "" nodes, None).

Definition scalarGet : string -> string -> string * bool * option string :=
  Get string string "" string string string
    (fun obj => Ok obj) (fun s => Ok s) (fun s => Ok s) (fun e => Ok e) scalarMatch scalarPrint.

Definition scalarSet : string -> string -> string -> string * option string :=
  Set_ string string string string string
    (fun obj => Ok obj) (fun s obj => (s, None)) (fun v => Ok v) (fun s => Ok s)
    (fun e => Ok e) scalarMatch scalarPrint.

End kyq.

(** ** pkg/object/dependson: the depends-on annotation *)

Module dependson.
Import object.

Definition Annotation : string := "config.kubernetes.io/depends-on".

(** [DependencySet], a slice of identities. *)
Definition DependencySet : Type := list ObjMetadata.

Section dependson.
(** [unstructured.Unstructured] with [GetAnnotations], which returns the
    map of annotations or the nil map, and [SetAnnotations];
    [mutation.ResourceReference] with [mutation.NewResourceReference]; the
    parser and the formatter of dependency sets with their errors, and
    [DependencySet.Equal], which are in other files of the package. *)
Variable Unstructured : Type.
Variable GetAnnotations : Unstructured -> option (gmap string string).
Variable SetAnnotations : Unstructured -> gmap string string -> Unstructured.
Variable ResourceReference : Type.
Variable NewResourceReference : Unstructured -> ResourceReference.
Variable cause : Type.
Variable ParseDependencySet : string -> DependencySet * option cause.
Variable FormatDependencySet : DependencySet -> result cause string.
Variable Equal : DependencySet -> DependencySet -> bool.

Inductive error : Type :=
| ObjectNil
    (* "object is nil" *)
| EmptySet
    (* "dependency set is empty" *)
| ParseFailed (objRef : ResourceReference) (e : cause)
    (* "failed to parse annotation %q on object %q: %w" *)
| FormatFailed (objRef : ResourceReference) (e : cause).
    (* "failed to format annotation %q on object %q: %w" *)

(** [u.GetAnnotations()[key]]: reading the nil map finds nothing. *)
Definition annotation (u : Unstructured) (key : string) : option string :=
  GetAnnotations u ≫= (fun a => a !! key).

(** The object is a pointer: [None] is the nil pointer. *)
Definition HasAnnotation (u : option Unstructured) : bool :=
  match u with
  | None => false
  | Some u => bool_decide (is_Some (annotation u Annotation))
  end.

Definition ReadAnnotation (obj : option Unstructured) : DependencySet * option error :=
  match obj with
  | None => ([], None)
  | Some u =>
      match annotation u Annotation with
      | None => ([], None)
      | Some depSetStr =>
          let objRef := NewResourceReference u in
          match ParseDependencySet depSetStr with
          | (depSet, Some err) => (depSet, Some (ParseFailed objRef err))
          | (depSet, None) => (depSet, None)
          end
      end
  end.

(** The object is updated in place: the first component is the object
    after the call. *)
Definition WriteAnnotation (obj : option Unstructured) (depSet : DependencySet)
  : option Unstructured * option error :=
  match obj with
  | None => (None, Some ObjectNil)
  | Some u =>
      if Equal depSet [] then (obj, Some EmptySet)
      else
        match FormatDependencySet depSet with
        | Err err => (obj, Some (FormatFailed (NewResourceReference u) err))
        | Ok depSetStr =>
            let a := default ∅ (GetAnnotations u) in
            let a := <[Annotation := depSetStr]> a in
            (Some (SetAnnotations u a), None)
        end
  end.
End dependson.

Arguments ObjectNil {ResourceReference cause}.
Arguments EmptySet {ResourceReference cause}.
Arguments ParseFailed {ResourceReference cause} objRef e.
Arguments FormatFailed {ResourceReference cause} objRef e.

(** *** Stand-ins, for the examples

    An object is its map of annotations; a dependency set is written as
    the names of its identities, each followed by a comma, and read back
    as identities of the kind [Pod] without a namespace. *)
Definition names (deps : DependencySet) : string :=
  foldr (fun id s => Name id +:+ "," +:+ s) "" deps.

Fixpoint split_names (acc : string) (s : string) : list string :=
  match s with
  | "" => []
  | String c s' =>
      if Ascii.eqb c "," then acc :: split_names "" s'
      else split_names (acc +:+ String c "") s'
  end.

Definition fakeParse (s : string) : DependencySet * option string :=
  ((fun n => mkObjMetadata "" n (mkGroupKind "" "Pod")) <$> split_names "" s, None).

Definition fakeFormat (deps : DependencySet) : result string string := Ok (names deps).

Definition fakeEqual (a b : DependencySet) : bool := bool_decide (a = b).

Definition pod (name : string) : ObjMetadata := mkObjMetadata "" name (mkGroupKind "" "Pod").

End dependson.

(** ** pkg/apply: the destroyer *)

Module destroyer.
Import object.

(** [metav1.DeletePropagationBackground] *)
Definition DeletePropagationBackground : string := "Background".

Section destroyer.
(** [inventory.InventoryPolicy], [common.DryRunStrategy],
    [inventory.InventoryInfo], the objects, the REST mapper, the errors,
    the task queue of the solver with its action groups, and the events
    that the task runner sends.  A [time.Duration] is an integer. *)
Variable InventoryPolicy : Type.
Variable DryRunStrategy : Type.
Variable InventoryInfo : Type.
Variable Unstructured : Type.
Variable RESTMapper : Type.
Variable error : Type.
Variable TaskQueue : Type.
Variable ActionGroups : Type.
Variable RunnerEvent : Type.

(** [poller.DefaultPollInterval] *)
Variable DefaultPollInterval : Z.

Record DestroyerOptions : Type := mkDestroyerOptions {
  InventoryPolicy_ : InventoryPolicy;
  DryRunStrategy_ : DryRunStrategy;
  DeleteTimeout : Z;
  DeletePropagationPolicy : string;
  EmitStatusEvents : bool;
  PollInterval : Z
}.

(** [prune.Options], [solver.Options] and [taskrunner.Options], with the
    fields that the destroyer sets. *)
Record PruneOpts : Type := mkPruneOpts {
  prune_DryRunStrategy : DryRunStrategy;
  prune_DeleteTimeout : Z;
  prune_DeletionPropagationPolicy : string;
  prune_Destroy : bool
}.

Record SolverOpts : Type := mkSolverOpts {
  solver_DeleteTimeout : Z;
  solver_DryRunStrategy : DryRunStrategy;
  solver_DeletePropagationPolicy : string
}.

Record TaskRunnerOpts : Type := mkTaskRunnerOpts {
  UseCache : bool;
  runner_PollInterval : Z;
  runner_EmitStatusEvents : bool
}.

Definition PruneOptions (do : DestroyerOptions) : PruneOpts :=
  mkPruneOpts (DryRunStrategy_ do) (DeleteTimeout do) (DeletePropagationPolicy do) true.

Definition SolverOptions (do : DestroyerOptions) : SolverOpts :=
  mkSolverOpts (DeleteTimeout do) (DryRunStrategy_ do) (DeletePropagationPolicy do).

Definition TaskRunnerOptions (do : DestroyerOptions) : TaskRunnerOpts :=
  mkTaskRunnerOpts true (PollInterval do) (EmitStatusEvents do).

(** The options are updated through the pointer: the result is the
    options after the call. *)
Definition setDestroyerDefaults (o : DestroyerOptions) : DestroyerOptions :=
  let o :=
    if decide (PollInterval o = 0)
    then mkDestroyerOptions (InventoryPolicy_ o) (DryRunStrategy_ o) (DeleteTimeout o)
           (DeletePropagationPolicy o) (EmitStatusEvents o) DefaultPollInterval
    else o in
  if decide (DeletePropagationPolicy o = "")
  then mkDestroyerOptions (InventoryPolicy_ o) (DryRunStrategy_ o) (DeleteTimeout o)
         DeletePropagationBackground (EmitStatusEvents o) (PollInterval o)
  else o.

(** The filters of the destroyer, [filter.PreventRemoveFilter{}] and
    [filter.InventoryPolicyFilter{Inv, InvPolicy}]. *)
Inductive DeleteFilter : Type :=
| PreventRemoveFilter
| InventoryPolicyFilter (Inv : InventoryInfo) (InvPolicy : InventoryPolicy).

(** The collaborators of [Run]: the pruner, the factory, the task queue
    builder with what [Run] hands to it (the mapper, the [Destroy] flag,
    the objects, filters and options of [AppendPruneWaitTasks], the
    inventory and strategy of [AppendDeleteInvTask]), whose [Build]
    returns a queue and an error, and the task runner, created for the
    identities of the objects, which sends events and returns an error. *)
Variable GetPruneObjs :
  InventoryInfo -> list Unstructured -> PruneOpts -> result error (list Unstructured).
Variable ToRESTMapper : result error RESTMapper.
Variable Build :
  RESTMapper -> bool -> list Unstructured -> list DeleteFilter -> SolverOpts ->
  InventoryInfo -> DryRunStrategy -> TaskQueue * option error.
Variable ToActionGroups : TaskQueue -> ActionGroups.
Variable UnstructuredsToObjMetasOrDie : list Unstructured -> list ObjMetadata.
Variable runner_Run :
  list ObjMetadata -> TaskQueue -> TaskRunnerOpts -> list RunnerEvent * option error.

(** What the goroutine of [Run] does to the event channel, in order. *)
Inductive Action : Type :=
| HandleError (err : error)          (* handleError(eventChannel, err) *)
| SendInit (groups : ActionGroups)   (* eventChannel <- event.Event{Type: event.InitType, ...} *)
| RunnerSends (e : RunnerEvent)      (* sent by the task runner *)
| Close.                             (* close(eventChannel) *)

Definition onError (err : option error) : list Action :=
  match err with
  | Some e => [HandleError e]
  | None => []
  end.

(** The action groups of the init events sent by a sequence of actions. *)
Definition inits (tr : list Action) : list ActionGroups :=
  omap (fun x => match x with SendInit groups => Some groups | _ => None end) tr.

Definition Run (inv : InventoryInfo) (opts : DestroyerOptions) : list Action :=
  let opts := setDestroyerDefaults opts in
  match GetPruneObjs inv [] (PruneOptions opts) with
  | Err err => [HandleError err; Close]
  | Ok deleteObjs =>
      match ToRESTMapper with
      | Err err => [HandleError err; Close]
      | Ok mapper =>
          let solverOpts := SolverOptions opts in
          let deleteFilters :=
            [PreventRemoveFilter; InventoryPolicyFilter inv (InventoryPolicy_ opts)] in
          let '(taskQueue, err) :=
            Build mapper (prune_Destroy (PruneOptions opts)) deleteObjs deleteFilters
              solverOpts inv (DryRunStrategy_ opts) in
          let deleteIds := UnstructuredsToObjMetasOrDie deleteObjs in
          let '(sent, err') := runner_Run deleteIds taskQueue (TaskRunnerOptions opts) in
          onError err ++ [SendInit (ToActionGroups taskQueue)] ++
          (RunnerSends <$> sent) ++ onError err' ++ [Close]
      end
  end.
End destroyer.

Arguments mkDestroyerOptions {InventoryPolicy DryRunStrategy}.
Arguments InventoryPolicy_ {InventoryPolicy DryRunStrategy}.
Arguments DryRunStrategy_ {InventoryPolicy DryRunStrategy}.
Arguments DeleteTimeout {InventoryPolicy DryRunStrategy}.
Arguments DeletePropagationPolicy {InventoryPolicy DryRunStrategy}.
Arguments EmitStatusEvents {InventoryPolicy DryRunStrategy}.
Arguments PollInterval {InventoryPolicy DryRunStrategy}.
Arguments PreventRemoveFilter {InventoryPolicy InventoryInfo}.
Arguments InventoryPolicyFilter {InventoryPolicy InventoryInfo} Inv InvPolicy.
Arguments HandleError {error ActionGroups RunnerEvent} err.
Arguments SendInit {error ActionGroups RunnerEvent} groups.
Arguments RunnerSends {error ActionGroups RunnerEvent} e.
Arguments Close {error ActionGroups RunnerEvent}.

(** Two seconds, in nanoseconds. *)
Definition twoSeconds : Z := 2000000000.

End destroyer.

(** ** cmd: the help texts of kapply *)

Module kapply.

(** The fields of [cobra.Command] that [updateHelp] rewrites. *)
Record Command : Type := mkCommand {
  Short : string;
  Long : string;
  Example : string
}.

(** The command is updated through the pointer: the result is the command
    after the call. *)
Definition updateHelp (names : list string) (c : Command) : Command :=
  foldl (fun c name =>
    mkCommand
      (ReplaceAll (Short c) ("kubectl " +:+ name) ("kapply " +:+ name))
      (ReplaceAll (Long c) ("kubectl " +:+ name) ("kapply " +:+ name))
      (ReplaceAll (Example c) ("kubectl " +:+ name) ("kapply " +:+ name))) c names.

(** The names of the commands in [main]. *)
Definition names : list string := ["init"; "apply"; "preview"; "diff"; "destroy"; "status"].

End kapply.

(** ** pkg/logutil: go-logging records sent to klog *)

Module logutil.

(** The levels of gopkg.in/op/go-logging.v1, from the most severe. *)
Definition CRITICAL : Z := 0.
Definition ERROR : Z := 1.
Definition WARNING : Z := 2.
Definition NOTICE : Z := 3.
Definition INFO : Z := 4.
Definition DEBUG : Z := 5.

(** The [<level>Depth] functions of klog that a [LogFunc] can be. *)
Inductive LogFunc : Type := ErrorDepth | WarningDepth | InfoDepth.

Record KlogGoLoggingBackend : Type := mkKlogGoLoggingBackend {
  LevelVerbosity : gmap Z Z;
  LevelLog : gmap Z LogFunc
}.

Definition NewKlogGoLoggingBackend : KlogGoLoggingBackend :=
  mkKlogGoLoggingBackend
    (<[CRITICAL := 0]> (<[ERROR := 0]> (<[WARNING := 0]> (<[NOTICE := 1]>
       (<[INFO := 2]> (<[DEBUG := 5]> ∅))))))
    (<[CRITICAL := ErrorDepth]> (<[ERROR := ErrorDepth]> (<[WARNING := WarningDepth]>
       (<[NOTICE := InfoDepth]> (<[INFO := InfoDepth]> (<[DEBUG := InfoDepth]> ∅)))))).

(** A call of a klog function with its depth and the message. *)
Record Call : Type := mkCall {
  call_func : LogFunc;
  call_depth : Z;
  call_message : string
}.

Section Log.
(** [klog.V(v).Enabled()] *)
Variable Enabled : Z -> bool.

(** [Log]: the calls of klog functions it makes, and the error. *)
Definition Log (k : KlogGoLoggingBackend) (level : Z) (calldepth : Z) (message : string)
  : list Call * option string :=
  let v := default 0 (LevelVerbosity k !! level) in
  if negb (Enabled v) then ([], None)
  else
    let logFunc := default ErrorDepth (LevelLog k !! level) in
    ([mkCall logFunc (calldepth + 1) message], None).
End Log.

End logutil.

(** * Facts *)

Local Open Scope list_scope.

Lemma app_String c s t : String c s +:+ t = String c (s +:+ t).
Proof. reflexivity. Qed.

Lemma app_empty_l s : "" +:+ s = s.
Proof. reflexivity. Qed.

Lemma HasPrefix_empty s : HasPrefix s "" = true.
Proof. by destruct s. Qed.

Lemma HasPrefix_String c s d p :
  HasPrefix (String c s) (String d p) = if ascii_dec d c then HasPrefix s p else false.
Proof. reflexivity. Qed.

Lemma HasPrefix_app p s : HasPrefix (p +:+ s) p = true.
Proof.
  induction p as [|c p IH]; [apply HasPrefix_empty|].
  rewrite app_String, HasPrefix_String. by destruct (ascii_dec c c).
Qed.

(** An instance of [old] that was matched is skipped whole. *)
Lemma replace_go_skip old new x s :
  replace_go old new (String.length x) (x +:+ s) = replace_go old new 0 s.
Proof.
  induction x as [|c x IH]; [by destruct s|]. by rewrite app_String.
Qed.

(** Where [old] does not occur, nothing changes. *)
Lemma ReplaceAll_absent s old new :
  old <> "" -> Contains s old = false -> ReplaceAll s old new = s.
Proof.
  intros Hold. unfold ReplaceAll, Contains. destruct old as [|o old]; [done|].
  induction s as [|c s IH]; [done|]. cbn [Index replace_go].
  destruct (HasPrefix (String c s) (String o old)); [done|].
  destruct (Index s (String o old) <? 0) eqn:E.
  - intros _. f_equal. apply IH. apply Z.ltb_lt in E. by apply Z.leb_gt.
  - apply Z.ltb_ge in E. intros H. apply Z.leb_gt in H. lia.
Qed.

(** The first instance of [old] is replaced, and the replacement resumes
    after it: by induction, every instance found from left to right is
    replaced. *)
Lemma ReplaceAll_first a b old new :
  old <> "" -> Index (a +:+ old +:+ b) old = Z.of_nat (String.length a) ->
  ReplaceAll (a +:+ old +:+ b) old new = a +:+ new +:+ ReplaceAll b old new.
Proof.
  intros Hold. unfold ReplaceAll. destruct old as [|o old]; [done|].
  induction a as [|c a IH].
  - intros _. rewrite !app_empty_l, app_String. cbn [replace_go].
    rewrite <- app_String, HasPrefix_app. f_equal.
    replace (String.length (String o old) - 1)%nat with (String.length old)
      by (simpl; lia).
    apply replace_go_skip.
  - rewrite !(app_String c a). cbn [Index replace_go String.length].
    destruct (HasPrefix _ (String o old)); [intros Hi; lia|].
    destruct (Index _ (String o old) <? 0) eqn:E; [intros Hi; lia|].
    intros Hi. f_equal. apply IH. lia.
Qed.

Module object_facts.
Import object.

(** *** Byte strings *)

Lemma app_assoc_s (a b c : string) : (a +:+ b) +:+ c = a +:+ (b +:+ c).
Proof. induction a as [|x a IH]; [done|]. by rewrite !app_String, IH. Qed.

Lemma HasPrefix_sep c s : HasPrefix (String c s) "_" = bool_decide (c = "_"%char).
Proof.
  rewrite HasPrefix_String, HasPrefix_empty. destruct (ascii_dec "_" c) as [<-|Hne].
  - done.
  - rewrite bool_decide_eq_false_2; congruence.
Qed.

Lemma slice_to_app a b : slice_to (a +:+ b) (String.length a) = a.
Proof. induction a as [|x a IH]; [by destruct b|]. rewrite app_String. cbn. by rewrite IH. Qed.

Lemma slice_from_app a b : slice_from (a +:+ b) (String.length a) = b.
Proof. induction a as [|x a IH]; [by destruct b|]. rewrite app_String. by cbn. Qed.

Lemma no_sep_String c s : no_sep (String c s) <-> c <> "_"%char /\ no_sep s.
Proof.
  unfold no_sep, Contains, fieldSeparator. cbn [Index]. rewrite HasPrefix_sep.
  case_bool_decide as Hc.
  - split; [done | by intros []].
  - destruct (Index s "_" <? 0) eqn:Hi.
    + apply Z.ltb_lt in Hi. split; [intros _; split; [done|] | done].
      apply Z.leb_gt. lia.
    + apply Z.ltb_ge in Hi. split.
      * intros H. apply Z.leb_gt in H. lia.
      * intros [_ H]. apply Z.leb_gt in H. lia.
Qed.

Lemma Index_sep_app a b :
  no_sep a -> Index (a +:+ String "_" b) "_" = Z.of_nat (String.length a).
Proof.
  induction a as [|x a IH]; intros Ha.
  - rewrite app_empty_l. cbn [Index]. by rewrite HasPrefix_sep, bool_decide_eq_true_2.
  - apply no_sep_String in Ha as [Hx Ha]. rewrite app_String. cbn [Index].
    rewrite HasPrefix_sep, bool_decide_eq_false_2 by done.
    rewrite (IH Ha). cbn [String.length].
    destruct (Z.of_nat (String.length a) <? 0) eqn:Hlt; [apply Z.ltb_lt in Hlt|]; lia.
Qed.

Lemma LastIndex_no_sep b : no_sep b -> LastIndex b "_" = -1.
Proof.
  induction b as [|x b IH]; intros Hb; [done|].
  apply no_sep_String in Hb as [Hx Hb]. cbn [LastIndex]. rewrite (IH Hb).
  by rewrite HasPrefix_sep, bool_decide_eq_false_2.
Qed.

Lemma LastIndex_sep_app a b :
  no_sep b -> LastIndex (a +:+ String "_" b) "_" = Z.of_nat (String.length a).
Proof.
  intros Hb. induction a as [|x a IH].
  - rewrite app_empty_l. cbn [LastIndex]. rewrite (LastIndex_no_sep _ Hb).
    by rewrite HasPrefix_sep, bool_decide_eq_true_2.
  - rewrite app_String. cbn [LastIndex]. rewrite IH. cbn [String.length].
    destruct (0 <=? Z.of_nat (String.length a)) eqn:Hle; [lia|].
    apply Z.leb_gt in Hle. lia.
Qed.

(** Transcoding [":"] to ["__"] and back is the identity on names without
    the separator. *)
Lemma replace_colon_String c s :
  replace_go ":" "__" 0 (String c s) =
  if bool_decide (c = ":"%char) then "__" +:+ replace_go ":" "__" 0 s
  else String c (replace_go ":" "__" 0 s).
Proof.
  cbn [replace_go]. rewrite HasPrefix_String, HasPrefix_empty.
  destruct (ascii_dec ":" c) as [<-|Hne].
  - by rewrite bool_decide_eq_true_2.
  - by rewrite bool_decide_eq_false_2 by congruence.
Qed.

Lemma transcode_roundtrip name :
  no_sep name -> ReplaceAll (ReplaceAll name ":" colonTranscoded) colonTranscoded ":" = name.
Proof.
  unfold ReplaceAll, colonTranscoded.
  induction name as [|c s IH]; intros Hn; [done|].
  apply no_sep_String in Hn as [Hc Hs]. rewrite replace_colon_String.
  case_bool_decide as Hcol.
  - subst c. change ("__" +:+ ?t) with (String "_" (String "_" t)).
    cbn [replace_go]. rewrite !HasPrefix_String, HasPrefix_empty.
    destruct (ascii_dec "_" "_"); [|done].
    cbn [replace_go String.length Nat.sub].
    rewrite app_String, app_empty_l. f_equal. by apply IH.
  - cbn [replace_go]. rewrite HasPrefix_String.
    destruct (ascii_dec "_" c); [congruence|]. f_equal. by apply IH.
Qed.

Lemma no_sep_not_Contains s : no_sep s -> Contains s fieldSeparator = false.
Proof. done. Qed.

Lemma slice_from_sep a c b : slice_from (a +:+ String c b) (S (String.length a)) = b.
Proof.
  induction a as [|x a IH]; [rewrite app_empty_l; cbn; by destruct b|].
  rewrite app_String. by cbn.
Qed.

Lemma app_sep_assoc a c b t : a +:+ String c (b +:+ t) = (a +:+ String c b) +:+ t.
Proof. by rewrite app_assoc_s, app_String. Qed.

Lemma of_nat_eqb_m1 n : (Z.of_nat n =? -1) = false.
Proof. apply Z.eqb_neq. lia. Qed.

Lemma to_nat_of_nat_succ n : Z.to_nat (Z.of_nat n + 1) = S n.
Proof. lia. Qed.

(** The parser applied to four separated fields, where only the second one
    may contain the separator. *)
Lemma Parse_fields ns nm g k :
  no_sep ns -> no_sep g -> no_sep k ->
  ParseObjMetadata (ns +:+ String "_" (nm +:+ String "_" (g +:+ String "_" k))) =
  let name := ReplaceAll nm colonTranscoded ":" in
  if Contains name fieldSeparator then Err ("too many fields within: " +:+ (nm +:+ String "_" g))
  else CreateObjMetadata ns name (mkGroupKind g k).
Proof.
  intros Hns Hg Hk. unfold ParseObjMetadata, fieldSeparator. cbv zeta.
  rewrite (Index_sep_app ns _ Hns), of_nat_eqb_m1, Nat2Z.id, to_nat_of_nat_succ.
  rewrite slice_to_app, slice_from_sep.
  rewrite (app_sep_assoc nm "_" g).
  rewrite (LastIndex_sep_app _ _ Hk), of_nat_eqb_m1, Nat2Z.id, to_nat_of_nat_succ.
  rewrite slice_to_app, slice_from_sep.
  rewrite (LastIndex_sep_app _ _ Hg), of_nat_eqb_m1, Nat2Z.id, to_nat_of_nat_succ.
  by rewrite slice_to_app, slice_from_sep.
Qed.

Lemma String_fields x :
  String_ x =
  Namespace x +:+ String "_"
    ((if isRBAC (GK x) then ReplaceAll (Name x) ":" colonTranscoded else Name x)
       +:+ String "_" (Group (GK x) +:+ String "_" (Kind (GK x)))).
Proof. reflexivity. Qed.

Lemma parse_String_sep_free x :
  Name x <> "" -> Kind (GK x) <> "" -> sep_free x ->
  ParseObjMetadata (String_ x) = Ok x.
Proof.
  intros Hname Hkind (Hns & Hnm & Hg & Hk).
  rewrite String_fields, Parse_fields by done. cbv zeta.
  assert (ReplaceAll (if isRBAC (GK x) then ReplaceAll (Name x) ":" colonTranscoded
                      else Name x) colonTranscoded ":" = Name x) as ->.
  { destruct (isRBAC (GK x)); [by apply transcode_roundtrip|].
    unfold ReplaceAll, colonTranscoded. clear Hname. 
    induction (Name x) as [|c s IH]; [done|].
    apply no_sep_String in Hnm as [Hc Hs]. cbn [replace_go]. rewrite HasPrefix_String.
    destruct (ascii_dec "_" c); [congruence|]. f_equal. by apply IH. }
  rewrite (no_sep_not_Contains _ Hnm). unfold CreateObjMetadata.
  rewrite !decide_False by done. by destruct x as [? ? []].
Qed.

(** What the parser returns has no separator in any field. *)
Lemma no_sep_before_Index s :
  Index s "_" <> -1 -> no_sep (slice_to s (Z.to_nat (Index s "_"))).
Proof.
  induction s as [|c s IH]; [done|]. cbn [Index]. rewrite HasPrefix_sep.
  case_bool_decide as Hc; [done|].
  destruct (Index s "_" <? 0) eqn:Hi; [done|]. apply Z.ltb_ge in Hi. intros _.
  replace (Z.to_nat (Index s "_" + 1)) with (S (Z.to_nat (Index s "_"))) by lia.
  cbn [slice_to]. apply no_sep_String. split; [done|]. apply IH. lia.
Qed.

Lemma no_sep_after_LastIndex s :
  no_sep (slice_from s (Z.to_nat (LastIndex s "_" + 1))).
Proof.
  induction s as [|c s IH]; [done|]. cbn [LastIndex].
  destruct (0 <=? LastIndex s "_") eqn:Hi.
  - apply Z.leb_le in Hi.
    replace (Z.to_nat (LastIndex s "_" + 1 + 1)) with (S (Z.to_nat (LastIndex s "_" + 1)))
      by lia.
    by cbn [slice_from].
  - apply Z.leb_gt in Hi.
    replace (Z.to_nat (LastIndex s "_" + 1)) with O in IH by lia.
    assert (no_sep s) as Hs by (by destruct s).
    rewrite HasPrefix_sep. case_bool_decide as Hc.
    + change (Z.to_nat (0 + 1)) with 1%nat. cbn [slice_from]. by destruct s.
    + change (Z.to_nat (-1 + 1)) with O. cbn [slice_from]. by apply no_sep_String.
Qed.

Lemma Parse_Ok_sep_free s y : ParseObjMetadata s = Ok y -> sep_free y.
Proof.
  unfold ParseObjMetadata, fieldSeparator. cbv zeta.
  destruct (Index s "_" =? -1) eqn:H1; [done|]. apply Z.eqb_neq in H1.
  set (s1 := slice_from s _).
  destruct (LastIndex s1 "_" =? -1) eqn:H2; [done|].
  set (s2 := slice_to s1 _).
  destruct (LastIndex s2 "_" =? -1) eqn:H3; [done|].
  set (name := ReplaceAll _ _ _).
  destruct (Contains name "_") eqn:H4; [done|].
  unfold CreateObjMetadata. destruct (decide (name = "")); [done|]. cbn [Kind].
  destruct (decide (_ = "")); [done|]. intros [= <-].
  repeat split; cbn [Namespace Name GK Group Kind].
  - by apply no_sep_before_Index.
  - done.
  - apply no_sep_after_LastIndex.
  - apply no_sep_after_LastIndex.
Qed.

(** *** The hash and the slice-as-set helpers *)

(** A sorted permutation of a list of strings is the result of
    [sort_Strings], however it was obtained. *)
Lemma sort_Strings_unique (l l' : list string) :
  Sorted String.le l' -> l' ≡ₚ l -> l' = sort_Strings l.
Proof.
  intros Hs Hp. unfold sort_Strings.
  apply (Sorted_unique String.le); [done | apply Sorted_merge_sort; apply _ |].
  by rewrite merge_sort_Permutation.
Qed.

Lemma sort_Strings_Permutation (l1 l2 : list string) :
  l1 ≡ₚ l2 -> sort_Strings l1 = sort_Strings l2.
Proof.
  intros Hp. apply sort_Strings_unique.
  - apply Sorted_merge_sort; apply _.
  - unfold sort_Strings. by rewrite merge_sort_Permutation.
Qed.

Lemma Hash_Permutation (s1 s2 : list ObjMetadata) : s1 ≡ₚ s2 -> Hash s1 = Hash s2.
Proof.
  intros Hp. unfold Hash, calcHash.
  by rewrite (sort_Strings_Permutation (map String_ s1) (map String_ s2))
    by (by apply Permutation_map).
Qed.

Lemma insertAll_spec (m : gset ObjMetadata) l : insertAll m l = list_to_set l ∪ m.
Proof.
  revert m. induction l as [|a l IH]; intros m; simpl.
  - set_solver.
  - unfold insertAll in *. simpl. rewrite IH. set_solver.
Qed.

Lemma deleteAll_spec (m : gset ObjMetadata) l : deleteAll m l = m ∖ list_to_set l.
Proof.
  revert m. induction l as [|a l IH]; intros m; simpl.
  - set_solver.
  - unfold deleteAll in *. simpl. rewrite IH. set_solver.
Qed.

Section slice_sets_facts.
Variable rangeKeys : gset ObjMetadata -> list ObjMetadata.
Hypothesis rangeKeys_elements : forall m, rangeKeys m ≡ₚ elements m.

Lemma list_to_set_rangeKeys m : list_to_set (rangeKeys m) = m.
Proof. apply set_eq. intros x. rewrite elem_of_list_to_set, rangeKeys_elements. set_solver. Qed.

Lemma NoDup_rangeKeys m : NoDup (rangeKeys m).
Proof. rewrite rangeKeys_elements. apply NoDup_elements. Qed.

Lemma SetEquals_true (A B : list ObjMetadata) :
  SetEquals rangeKeys A B = true <->
  list_to_set A =@{gset ObjMetadata} list_to_set B.
Proof.
  unfold SetEquals. rewrite !insertAll_spec, !union_empty_r_L.
  set (mA := list_to_set A : gset ObjMetadata).
  set (mB := list_to_set B : gset ObjMetadata).
  case_bool_decide as Hsz; simpl.
  - rewrite forallb_forall. split.
    + intros Hall. symmetry. apply set_eq_subseteq.
      assert (mB ⊆ mA) as Hsub.
      { intros x Hx. specialize (Hall x). rewrite bool_decide_eq_true in Hall.
        apply Hall, list_elem_of_In. rewrite rangeKeys_elements. set_solver. }
      split; [done|].
      apply set_subseteq_size_eq in Hsub; [set_solver | lia].
    + intros Heq x Hx. apply bool_decide_eq_true. rewrite Heq.
      apply list_elem_of_In in Hx. rewrite rangeKeys_elements in Hx.
      by apply elem_of_elements in Hx.
  - split; [done|]. intros Heq. by rewrite Heq in Hsz.
Qed.

Lemma Union_spec (A B : list ObjMetadata) :
  list_to_set (Union rangeKeys A B) =@{gset ObjMetadata} list_to_set A ∪ list_to_set B
  /\ NoDup (Union rangeKeys A B).
Proof.
  unfold Union. rewrite !insertAll_spec, union_empty_r_L.
  split; [|apply NoDup_rangeKeys]. rewrite list_to_set_rangeKeys. apply union_comm_L.
Qed.

Lemma SetDiff_spec (A B : list ObjMetadata) :
  list_to_set (SetDiff rangeKeys A B) =@{gset ObjMetadata} list_to_set A ∖ list_to_set B
  /\ NoDup (SetDiff rangeKeys A B).
Proof.
  unfold SetDiff. rewrite deleteAll_spec, insertAll_spec, union_empty_r_L.
  split; [|apply NoDup_rangeKeys]. by rewrite list_to_set_rangeKeys.
Qed.

(** C9: whatever the order in which Go ranges over a map, [Union A B]
    lists the union of the elements of [A] and [B], each once,
    [SetDiff A B] lists the elements of [A] that are not in [B], each
    once, and the elements of [SetDiff A B] together with those common to
    [A] and [B] are the elements of [A]. *)
Theorem Union_SetDiff_set_algebra (A B : list ObjMetadata) :
  let sA : gset ObjMetadata := list_to_set A in
  let sB : gset ObjMetadata := list_to_set B in
  (list_to_set (Union rangeKeys A B) = sA ∪ sB /\ NoDup (Union rangeKeys A B)) /\
  (list_to_set (SetDiff rangeKeys A B) = sA ∖ sB /\ NoDup (SetDiff rangeKeys A B)) /\
  list_to_set (SetDiff rangeKeys A B) ∪ (sA ∩ sB) = sA.
Proof.
  intros sA sB. split; [apply Union_spec|]. split; [apply SetDiff_spec|].
  rewrite (proj1 (SetDiff_spec A B)). fold sA sB.
  apply set_eq. intros x. rewrite elem_of_union, elem_of_difference, elem_of_intersection.
  destruct (decide (x ∈ sB)); tauto.
Qed.

(** C4, amended: for slices without duplicates, [SetEquals S S'] implies
    [Hash S = Hash S'].  The hash is taken over the sorted serialised
    forms of all the elements of the slice, so it does not depend on their
    order, but it does depend on how often each one occurs. *)
Theorem Hash_SetEquals_NoDup (S S' : list ObjMetadata) :
  NoDup S -> NoDup S' -> SetEquals rangeKeys S S' = true -> Hash S = Hash S'.
Proof.
  intros HS HS' Heq. apply SetEquals_true in Heq. apply Hash_Permutation.
  apply NoDup_Permutation; [done..|]. intros x.
  by rewrite <- !(elem_of_list_to_set (C := gset ObjMetadata)), Heq.
Qed.
End slice_sets_facts.

Lemma elements_Permutation_refl (m : gset ObjMetadata) : elements m ≡ₚ elements m.
Proof. reflexivity. Qed.

Lemma Union_SetDiff_set_algebra_witness :
  let sA : gset ObjMetadata := list_to_set [id_a; id_b] in
  let sB : gset ObjMetadata := list_to_set [id_b; id_b] in
  (list_to_set (Union elements [id_a; id_b] [id_b; id_b]) = sA ∪ sB
   /\ NoDup (Union elements [id_a; id_b] [id_b; id_b])) /\
  (list_to_set (SetDiff elements [id_a; id_b] [id_b; id_b]) = sA ∖ sB
   /\ NoDup (SetDiff elements [id_a; id_b] [id_b; id_b])) /\
  list_to_set (SetDiff elements [id_a; id_b] [id_b; id_b]) ∪ (sA ∩ sB) = sA.
Proof.
  exact (Union_SetDiff_set_algebra elements elements_Permutation_refl [id_a; id_b] [id_b; id_b]).
Defined.

Lemma NoDup_ab : NoDup [id_a; id_b].
Proof.
  apply NoDup_cons. split; [|apply NoDup_singleton].
  intros H%list_elem_of_singleton. discriminate H.
Qed.
Lemma NoDup_ba : NoDup [id_b; id_a].
Proof.
  apply NoDup_cons. split; [|apply NoDup_singleton].
  intros H%list_elem_of_singleton. discriminate H.
Qed.

Lemma Hash_SetEquals_NoDup_witness :
  SetEquals elements [id_a; id_b] [id_b; id_a] = true /\
  Hash [id_a; id_b] = Hash [id_b; id_a].
Proof.
  split; [vm_compute; reflexivity|].
  apply (Hash_SetEquals_NoDup elements elements_Permutation_refl [id_a; id_b] [id_b; id_a]
           NoDup_ab NoDup_ba).
  vm_compute; reflexivity.
Defined.

(** C4 as stated fails: [SetEquals] ignores duplicates and [Hash] does
    not. *)
Lemma Hash_SetEquals_duplicates :
  SetEquals elements [id_a] [id_a; id_a] = true /\
  Hash [id_a] = Ok "fa74ef9b" /\ Hash [id_a; id_a] = Ok "fc921425" /\
  Hash [id_a] <> Hash [id_a; id_a].
Proof. split; [|split; [|split]]; [vm_compute; reflexivity ..|]. vm_compute. discriminate. Qed.

(** C1, amended: for every identity with a non-empty name and kind whose
    namespace, name, group and kind do not contain the field separator
    ["_"], parsing the serialised form returns the identity, also for the
    RBAC kinds, whose names may contain [":"]; and [String] is injective
    over such identities.  For an identity with the separator in a field,
    parsing the serialised form does not return it. *)
Theorem parse_String_roundtrip x :
  Name x <> "" -> Kind (GK x) <> "" ->
  (ParseObjMetadata (String_ x) = Ok x <-> sep_free x) /\
  (sep_free x ->
   forall y, Name y <> "" -> Kind (GK y) <> "" -> sep_free y -> String_ x = String_ y -> x = y).
Proof.
  intros Hn Hk. split; [split|].
  - apply Parse_Ok_sep_free.
  - by apply parse_String_sep_free.
  - intros Hs y Hny Hky Hsy Heq.
    pose proof (parse_String_sep_free x Hn Hk Hs) as Hx.
    pose proof (parse_String_sep_free y Hny Hky Hsy) as Hy.
    rewrite Heq in Hx. congruence.
Qed.

Lemma parse_String_roundtrip_witness :
  String_ rbac_id = "kube-system_system__controller__token-cleaner_rbac.authorization.k8s.io_Role" /\
  ParseObjMetadata (String_ rbac_id) = Ok rbac_id.
Proof.
  split; [reflexivity|].
  apply (proj1 (parse_String_roundtrip rbac_id ltac:(discriminate) ltac:(discriminate))).
  repeat split; reflexivity.
Defined.

(** C1 as stated fails where a field contains the separator: the
    serialised form of a Role named [my_role] does not parse, and two
    identities that split [a_b_c] differently have one serialised form. *)
Lemma parse_String_separator_counterexample :
  let x := mkObjMetadata "ns" "my_role" (mkGroupKind rbacGroupName "Role") in
  let y := mkObjMetadata "a_b" "c" (mkGroupKind "" "Pod") in
  let z := mkObjMetadata "a" "b_c" (mkGroupKind "" "Pod") in
  (Name x <> "" /\ Kind (GK x) <> "" /\
   ParseObjMetadata (String_ x) = Err "too many fields within: my_role_rbac.authorization.k8s.io") /\
  (Name y <> "" /\ Kind (GK y) <> "" /\ Name z <> "" /\ Kind (GK z) <> "" /\
   String_ y = String_ z /\ y <> z).
Proof. cbv zeta. repeat split; try discriminate; vm_compute; reflexivity. Qed.

End object_facts.

Module mutator_facts.
Import object mutator.

Section apply_time_mutator_facts.
Variable float64 : Type.
Variable Sprintf_v : Value float64 -> string.
Variable json_Marshal : Value float64 -> result (error float64) string.
Variable kyq_Get : Object float64 -> string -> result (error float64) (Value float64 * bool).
Variable kyq_Set : Object float64 -> string -> Value float64 -> Object float64 * option (error float64).
Variable ResourceReferenceToObjMeta : ResourceReference -> result (error float64) ObjMetadata.
Variable Mapping : Type.
Variable RESTMapping : GroupKind -> option string -> result (error float64) Mapping.
Variable clusterGet : Mapping -> string -> string -> result (error float64) (Object float64).

Local Abbreviation readFieldValue := (readFieldValue float64 kyq_Get).
Local Abbreviation writeFieldValue := (writeFieldValue float64 kyq_Set).
Local Abbreviation valueToString := (valueToString float64 Sprintf_v json_Marshal).
Local Abbreviation newValue := (newValue float64 Sprintf_v json_Marshal).
Local Abbreviation getObject :=
  (getObject float64 ResourceReferenceToObjMeta Mapping RESTMapping clusterGet).
Local Abbreviation refused := mutator.refused.
Local Abbreviation substitute :=
  (substitute float64 Sprintf_v json_Marshal kyq_Get kyq_Set ResourceReferenceToObjMeta
     Mapping RESTMapping clusterGet).

Lemma readFieldValue_refused obj path :
  refused path ->
  readFieldValue obj path = Err (if decide (path = "") then EmptyPath else DollarPath).
Proof.
  intros [->|Hp]; unfold mutator.readFieldValue; [done|].
  destruct (decide (path = "")); [done|]. by rewrite Hp.
Qed.

Lemma writeFieldValue_refused obj path value :
  refused path ->
  writeFieldValue obj path value =
  (obj, Some (if decide (path = "") then EmptyPath else DollarPath)).
Proof.
  intros [->|Hp]; unfold mutator.writeFieldValue; [done|].
  destruct (decide (path = "")); [done|]. by rewrite Hp.
Qed.

Lemma substitute_refused targetRef cache obj sub :
  refused (TargetPath sub) \/ refused (SourcePath sub) ->
  exists cache' e, substitute targetRef cache obj sub = (cache', obj, Some e).
Proof.
  intros Hbad. unfold mutator.substitute.
  destruct (getObject cache (SourceRef sub)) as [cache' [src|e]]; [|eauto].
  destruct (readFieldValue obj (TargetPath sub)) as [[tv fnd]|e] eqn:Ht; [|eauto].
  destruct Hbad as [Hbad|Hbad].
  { by rewrite (readFieldValue_refused _ _ Hbad) in Ht. }
  rewrite (readFieldValue_refused _ _ Hbad). eauto.
Qed.

(** C6, amended: reading or writing a field with the empty path or with
    a path that begins with ["$."] returns an error and leaves the object
    as it is, and so does a substitution with such a source or target
    path; every other path, whether it begins with ["."] or not, is
    handed to the yq evaluator, whose result is returned. *)
Theorem field_path_guards obj path value :
  (refused path ->
     is_Err (readFieldValue obj path) /\
     exists e, writeFieldValue obj path value = (obj, Some e)) /\
  (~ refused path ->
     readFieldValue obj path =
       match kyq_Get obj path with
       | Err e => Err (ReadFieldFailed path e)
       | Ok r => Ok r
       end /\
     writeFieldValue obj path value =
       match kyq_Set obj path value with
       | (obj', Some e) => (obj', Some (WriteFieldFailed path e))
       | (obj', None) => (obj', None)
       end) /\
  (forall targetRef cache sub,
     refused (TargetPath sub) \/ refused (SourcePath sub) ->
     exists cache' e, substitute targetRef cache obj sub = (cache', obj, Some e)).
Proof.
  split; [|split].
  - intros Hr. rewrite readFieldValue_refused, writeFieldValue_refused by done.
    split; [done|eauto].
  - intros Hr. unfold mutator.refused in Hr. unfold mutator.readFieldValue, mutator.writeFieldValue.
    destruct (decide (path = "")); [tauto|].
    destruct (HasPrefix path "$."); [tauto|]. split; [|done].
    by destruct (kyq_Get obj path) as [[? ?]|?].
  - intros targetRef cache sub. apply substitute_refused.
Qed.

(** The value written by a substitution, case by case, and the step of
    the substitution loop that writes it. *)
Lemma newValue_cases targetRef sub (targetValue sourceValue : Value float64) :
  (Token sub = "" -> newValue targetRef sub targetValue sourceValue = Ok sourceValue) /\
  (Token sub <> "" -> (forall t, targetValue <> VString t) ->
     newValue targetRef sub targetValue sourceValue = Err (TargetNotString targetValue)) /\
  (Token sub <> "" -> forall t, targetValue = VString t ->
     newValue targetRef sub targetValue sourceValue =
       match valueToString sourceValue with
       | Ok s => Ok (VString (ReplaceAll t (Token sub) s))
       | Err e => Err (StringifyFailed targetRef e)
       end /\
     (forall s, Contains t (Token sub) = false -> ReplaceAll t (Token sub) s = t) /\
     (forall s a b, t = a +:+ Token sub +:+ b ->
        Index t (Token sub) = Z.of_nat (String.length a) ->
        ReplaceAll t (Token sub) s = a +:+ s +:+ ReplaceAll b (Token sub) s)) /\
  ((forall s, valueToString (VString s) = Ok s) /\
   (forall n, valueToString (VInt n) = Ok (Sprintf_v (VInt n))) /\
   (forall f, valueToString (VFloat f) = Ok (Sprintf_v (VFloat f))) /\
   (forall b, valueToString (VBool b) = Ok (Sprintf_v (VBool b))) /\
   (forall v s, (exists l, v = VSlice l) \/ (exists m, v = VMap m) ->
      json_Marshal v = Ok s -> valueToString v = Ok s)) /\
  (forall cache cache' obj sourceObj found new,
     getObject cache (SourceRef sub) = (cache', Ok sourceObj) ->
     readFieldValue obj (TargetPath sub) = Ok (targetValue, found) ->
     readFieldValue sourceObj (SourcePath sub) = Ok (sourceValue, true) ->
     newValue targetRef sub targetValue sourceValue = Ok new ->
     substitute targetRef cache obj sub =
       match writeFieldValue obj (TargetPath sub) new with
       | (obj', Some e) => (cache', obj', Some (SetFieldFailed targetRef e))
       | (obj', None) => (cache', obj', None)
       end).
Proof.
  unfold mutator.newValue. split; [|split; [|split; [|split]]].
  - intros ->. done.
  - intros Htok Hns. rewrite decide_False by done.
    destruct targetValue; try done. by destruct (Hns s).
  - intros Htok t ->. rewrite decide_False by done. split; [|split].
    + by destruct (valueToString sourceValue).
    + intros s. by apply ReplaceAll_absent.
    + intros s a b -> Hi. by apply ReplaceAll_first.
  - repeat split; try done.
    intros v s [[l ->]|[m ->]] Hj; simpl; by rewrite Hj.
  - intros cache cache' obj sourceObj found new Hget Ht Hs Hnew.
    unfold mutator.substitute. rewrite Hget, Ht, Hs.
    unfold mutator.newValue. by rewrite Hnew.
Qed.
End apply_time_mutator_facts.

(** *** The substitutions of Mutate *)

Section Mutate_facts.
Variable float64 : Type.
Variable Sprintf_v : Value float64 -> string.
Variable json_Marshal : Value float64 -> result (error float64) string.
Variable kyq_Get : Object float64 -> string -> result (error float64) (Value float64 * bool).
Variable kyq_Set : Object float64 -> string -> Value float64 -> Object float64 * option (error float64).
Variable HasAnnotation : Object float64 -> bool.
Variable ReadAnnotation : Object float64 -> result (error float64) (list FieldSubstitution).
Variable NewResourceReference : Object float64 -> ResourceReference.
Variable RefEqual : ResourceReference -> ResourceReference -> bool.
Variable ResourceReferenceToObjMeta : ResourceReference -> result (error float64) ObjMetadata.
Variable Mapping : Type.
Variable RESTMapping : GroupKind -> option string -> result (error float64) Mapping.
Variable clusterGet : Mapping -> string -> string -> result (error float64) (Object float64).

Local Abbreviation valueToString := (valueToString float64 Sprintf_v json_Marshal).
Local Abbreviation stringified := (stringified float64 Sprintf_v json_Marshal).
Local Abbreviation newValue := (newValue float64 Sprintf_v json_Marshal).
Local Abbreviation getObject :=
  (getObject float64 ResourceReferenceToObjMeta Mapping RESTMapping clusterGet).
Local Abbreviation substitute :=
  (substitute float64 Sprintf_v json_Marshal kyq_Get kyq_Set ResourceReferenceToObjMeta
     Mapping RESTMapping clusterGet).
Local Abbreviation substituteAll :=
  (substituteAll float64 Sprintf_v json_Marshal kyq_Get kyq_Set ResourceReferenceToObjMeta
     Mapping RESTMapping clusterGet).
Local Abbreviation Mutate :=
  (Mutate float64 Sprintf_v json_Marshal kyq_Get kyq_Set HasAnnotation ReadAnnotation
     NewResourceReference RefEqual ResourceReferenceToObjMeta Mapping RESTMapping clusterGet).
Local Abbreviation refused := mutator.refused.
Local Abbreviation annotationReason := ("resource contained annotation: " +:+ mutation_Annotation).

Lemma stringified_valueToString v s : stringified v s -> valueToString v = Ok s.
Proof. intros [ | | | |? H|? ? H|? ? H]; cbn [mutator.valueToString]; by rewrite ?H. Qed.

(** The substitutions of the annotation are made one after the other:
    those of a list followed by another are those of the first list and,
    when none of them failed, those of the second. *)
Lemma substituteAll_app targetRef l1 l2 : forall cache obj b s,
  substituteAll targetRef cache obj (l1 ++ l2) b s =
  match substituteAll targetRef cache obj l1 b s with
  | (cache1, obj1, r1) =>
      match err _ r1 with
      | None => substituteAll targetRef cache1 obj1 l2 (mutated _ r1) (reason _ r1)
      | Some _ => (cache1, obj1, r1)
      end
  end.
Proof.
  induction l1 as [|sub l1 IH]; intros cache obj b s; cbn [app mutator.substituteAll]; [done|].
  destruct (substitute targetRef cache obj sub) as [[c1 o1] [e|]]; [done|]. apply IH.
Qed.

Lemma find_self_reference_None targetRef (subs : list FieldSubstitution) :
  Forall (fun s => RefEqual targetRef (SourceRef s) = false) subs ->
  find (fun s => RefEqual targetRef (SourceRef s)) subs = None.
Proof. induction 1 as [|s subs Hs _ IH]; [done|]. cbn [find]. by rewrite Hs. Qed.

(** What [Mutate] does with a substitution of the annotation that it
    reaches, where the source object and the two fields are read. *)
Lemma Mutate_substitution cache obj pre sub post cache1 obj1 r1 cache2 sourceObj
    targetValue found sourceValue :
  HasAnnotation obj = true ->
  ReadAnnotation obj = Ok (pre ++ sub :: post) ->
  Forall (fun s => RefEqual (NewResourceReference obj) (SourceRef s) = false)
    (pre ++ sub :: post) ->
  substituteAll (NewResourceReference obj) cache obj pre false "" = (cache1, obj1, r1) ->
  err _ r1 = None ->
  getObject cache1 (SourceRef sub) = (cache2, Ok sourceObj) ->
  ~ refused (TargetPath sub) -> ~ refused (SourcePath sub) ->
  kyq_Get obj1 (TargetPath sub) = Ok (targetValue, found) ->
  kyq_Get sourceObj (SourcePath sub) = Ok (sourceValue, true) ->
  Mutate cache obj =
  match newValue (NewResourceReference obj) sub targetValue sourceValue with
  | Err e => (cache2, obj1, mkMutateResult _ (mutated _ r1) (reason _ r1) (Some e))
  | Ok v =>
      match kyq_Set obj1 (TargetPath sub) v with
      | (obj2, Some e) =>
          (cache2, obj2,
           mkMutateResult _ (mutated _ r1) (reason _ r1)
             (Some (SetFieldFailed (NewResourceReference obj)
                      (WriteFieldFailed (TargetPath sub) e))))
      | (obj2, None) =>
          substituteAll (NewResourceReference obj) cache2 obj2 post true annotationReason
      end
  end.
Proof.
  intros Ha Hr Hself Hpre Herr Hget Ht Hs Hkt Hks.
  unfold mutator.Mutate. rewrite Ha, Hr, (find_self_reference_None _ _ Hself). cbn [negb].
  rewrite substituteAll_app, Hpre, Herr. cbn [mutator.substituteAll].
  unfold mutator.substitute. rewrite Hget.
  unfold mutator.refused in Ht, Hs. unfold mutator.readFieldValue, mutator.writeFieldValue.
  destruct (decide (TargetPath sub = "")); [tauto|].
  destruct (HasPrefix (TargetPath sub) "$."); [tauto|].
  destruct (decide (SourcePath sub = "")); [tauto|].
  destruct (HasPrefix (SourcePath sub) "$."); [tauto|].
  rewrite Hkt, Hks.
  destruct (newValue _ sub targetValue sourceValue) as [v|e]; [|done].
  by destruct (kyq_Set obj1 (TargetPath sub) v) as [obj2 [e|]].
Qed.

(** C5: for every substitution of the annotation that [Mutate] reaches
    (the annotation is read, it has no self-reference, the substitutions
    before this one were made without an error, and the source object,
    the target field and the source field are read).  With an empty token
    the source value itself is written to the target path.  With a token,
    a target value that is not a string ends the mutation with an error
    and the object as it was; on a string target the value written is the
    target string with the instances of the token replaced by the source
    value as a string (a token that does not occur changes nothing; the
    first instance is replaced and the replacement goes on behind it),
    where a string is taken as it is, a number or a boolean is formatted
    with [%v], and every other value is marshalled to JSON, the mutation
    ending with an error when that fails.  Writing is [kyq.Set] on the
    object at the target path: when it fails the mutation ends with that
    error, and otherwise [Mutate] goes on with the substitutions after
    this one, on the object as written, and reports a mutation. *)
Theorem substitution_value cache obj pre sub post cache1 obj1 r1 cache2 sourceObj
    targetValue found sourceValue :
  HasAnnotation obj = true ->
  ReadAnnotation obj = Ok (pre ++ sub :: post) ->
  Forall (fun s => RefEqual (NewResourceReference obj) (SourceRef s) = false)
    (pre ++ sub :: post) ->
  substituteAll (NewResourceReference obj) cache obj pre false "" = (cache1, obj1, r1) ->
  err _ r1 = None ->
  getObject cache1 (SourceRef sub) = (cache2, Ok sourceObj) ->
  ~ refused (TargetPath sub) -> ~ refused (SourcePath sub) ->
  kyq_Get obj1 (TargetPath sub) = Ok (targetValue, found) ->
  kyq_Get sourceObj (SourcePath sub) = Ok (sourceValue, true) ->
  let written := fun v =>
    match kyq_Set obj1 (TargetPath sub) v with
    | (obj2, Some e) =>
        (cache2, obj2,
         mkMutateResult _ (mutated _ r1) (reason _ r1)
           (Some (SetFieldFailed (NewResourceReference obj)
                    (WriteFieldFailed (TargetPath sub) e))))
    | (obj2, None) =>
        substituteAll (NewResourceReference obj) cache2 obj2 post true annotationReason
    end in
  let failed := fun e =>
    (cache2, obj1, mkMutateResult _ (mutated _ r1) (reason _ r1) (Some e)) in
  (Token sub = "" -> Mutate cache obj = written sourceValue) /\
  (Token sub <> "" -> (forall t, targetValue <> VString t) ->
     Mutate cache obj = failed (TargetNotString targetValue)) /\
  (Token sub <> "" -> forall t, targetValue = VString t ->
     (forall s, stringified sourceValue s ->
        Mutate cache obj = written (VString (ReplaceAll t (Token sub) s))) /\
     (sourceValue = VNil \/ (exists l, sourceValue = VSlice l) \/
      (exists m, sourceValue = VMap m) ->
      forall e, json_Marshal sourceValue = Err e ->
        Mutate cache obj =
          failed (StringifyFailed (NewResourceReference obj) (MarshalFailed sourceValue))) /\
     (forall s, Contains t (Token sub) = false -> ReplaceAll t (Token sub) s = t) /\
     (forall s a b, t = a +:+ Token sub +:+ b ->
        Index t (Token sub) = Z.of_nat (String.length a) ->
        ReplaceAll t (Token sub) s = a +:+ s +:+ ReplaceAll b (Token sub) s)).
Proof.
  intros Ha Hr Hself Hpre Herr Hget Ht Hs Hkt Hks. cbv zeta.
  rewrite (Mutate_substitution cache obj pre sub post cache1 obj1 r1 cache2 sourceObj
             targetValue found sourceValue) by done.
  unfold mutator.newValue. split; [|split].
  - intros ->. by rewrite decide_True.
  - intros Htok Hns. rewrite decide_False by done.
    destruct targetValue; try done. by destruct (Hns s).
  - intros Htok t ->. rewrite decide_False by done. split; [|split; [|split]].
    + intros s Hstr. by rewrite (stringified_valueToString _ _ Hstr).
    + intros Hv e He. cbn [mutator.valueToString].
      by destruct Hv as [->|[[l ->]|[m ->]]]; cbn [mutator.valueToString]; rewrite He.
    + intros s. by apply ReplaceAll_absent.
    + intros s a b -> Hi. by apply ReplaceAll_first.
Qed.
End Mutate_facts.

(** The scenario: the URL of the target has its token replaced by the
    secret of the source, which is in the cache. *)
Lemma substitution_value_witness :
  scenarioMutate [scenarioSubstitution] scenarioCache targetObject =
  (scenarioCache, [("spec", VMap [("url", VString "https://XYZ/path")])],
   mkMutateResult Empty_set true
     "resource contained annotation: config.kubernetes.io/apply-time-mutation" None).
Proof.
  pose proof (proj1 (proj2 (proj2
       (substitution_value Empty_set showValue noJSON fieldGet fieldSet annotated
          (annotationOf [scenarioSubstitution]) referenceOf sameReference refToObjMeta unit
          noMapping noCluster scenarioCache targetObject [] scenarioSubstitution []
          scenarioCache targetObject (mkMutateResult Empty_set false "" None)
          scenarioCache sourceObject (VString "https://${SECRET}/path") true (VString "XYZ")
          eq_refl eq_refl
          ltac:(repeat constructor)
          eq_refl eq_refl eq_refl
          ltac:(intros [H|H]; discriminate H) ltac:(intros [H|H]; discriminate H)
          eq_refl eq_refl))
       ltac:(discriminate) "https://${SECRET}/path" eq_refl) "XYZ"
       (stringified_string Empty_set showValue noJSON "XYZ")) as H.
  unfold scenarioMutate. rewrite H. reflexivity.
Defined.

Lemma field_path_guards_witness :
  is_Err (readFieldValue Empty_set fieldGet targetObject "$.spec.url") /\
  exists e,
    writeFieldValue Empty_set fieldSet targetObject "$.spec.url" (VString "x") =
    (targetObject, Some e).
Proof.
  apply (proj1 (field_path_guards Empty_set showValue noJSON fieldGet fieldSet refToObjMeta
                  unit noMapping noCluster targetObject "$.spec.url" (VString "x"))).
  right. reflexivity.
Defined.

(** C6 as stated fails: a path that does not begin with ["."] and is
    neither empty nor begins with ["$."] is not refused by the helpers; it
    reaches the evaluator, and [length] is an expression of yq. *)
Lemma readFieldValue_without_dot :
  HasPrefix "length" "." = false /\
  readFieldValue Empty_set lengthGet targetObject "length" = Ok (VInt 1, true).
Proof. split; reflexivity. Qed.

End mutator_facts.

Module task_facts.
Import object task.

Section apply_task_facts.
Variables (Unstructured Info RuntimeObject UID error applyOptions : Type).
Variable Error : error -> string.
Variable UnstructuredToObjMetaOrDie : Unstructured -> ObjMetadata.
Variable GroupKindOf : Unstructured -> GroupKind.
Variable InfoObject : Info -> option RuntimeObject.
Variable Accessor : RuntimeObject -> result error (UID * Z).
Variable applyOptionsFactoryFunc :
  ServerSideOptions -> DryRunStrategy -> result error applyOptions.
Variable Run : applyOptions -> Info -> Unstructured -> Info * option error.

Local Abbreviation ApplyTask := (ApplyTask Unstructured Info error).
Local Abbreviation Action := (Action Unstructured Info UID error applyOptions).
Local Abbreviation filter := (filter Unstructured Info error UnstructuredToObjMetaOrDie).
Local Abbreviation mutate := (mutate Unstructured Info error UnstructuredToObjMetaOrDie).
Local Abbreviation isAPIService := (isAPIService Unstructured GroupKindOf).
Local Abbreviation isStreamError := (isStreamError error Error).
Local Abbreviation clientSideApply :=
  (clientSideApply Unstructured Info UID error applyOptions applyOptionsFactoryFunc Run).
Local Abbreviation applyObject :=
  (applyObject Unstructured Info RuntimeObject UID error Error applyOptions
     UnstructuredToObjMetaOrDie GroupKindOf InfoObject Accessor applyOptionsFactoryFunc Run).
Local Abbreviation Start :=
  (Start Unstructured Info RuntimeObject UID error Error applyOptions
     UnstructuredToObjMetaOrDie GroupKindOf InfoObject Accessor applyOptionsFactoryFunc Run).
Local Abbreviation createApplyEvent := (createApplyEvent Unstructured error).
Local Abbreviation createApplyFailedEvent := (createApplyFailedEvent Unstructured error).
Local Abbreviation fallback := (fallback Unstructured Info UID error applyOptions).
Local Abbreviation objectFails :=
  (objectFails Unstructured Info UID error Error applyOptions UnstructuredToObjMetaOrDie
     GroupKindOf applyOptionsFactoryFunc Run).
Local Abbreviation events := (events Unstructured Info UID error applyOptions).
Local Abbreviation failures := (failures Unstructured Info UID error applyOptions).

Implicit Types (a : ApplyTask) (ao : applyOptions) (obj : Unstructured).

Local Abbreviation filter_loop := (filter_loop Unstructured error).
Local Abbreviation mutate_loop := (mutate_loop Unstructured error).
Local Abbreviation filtersPass := (filtersPass Unstructured error).
Local Abbreviation mutatorsSucceed := (mutatorsSucceed Unstructured error).
Local Abbreviation runMutators := (runMutators Unstructured error).
Local Abbreviation streamErrorOnAPIService :=
  (streamErrorOnAPIService Unstructured Info error Error GroupKindOf).
Local Abbreviation objectFailure :=
  (objectFailure Unstructured Info error Error applyOptions UnstructuredToObjMetaOrDie
     GroupKindOf applyOptionsFactoryFunc Run).
Local Abbreviation applied :=
  (applied Unstructured Info RuntimeObject UID error applyOptions InfoObject Accessor).
Local Abbreviation idOf := UnstructuredToObjMetaOrDie.

(** The apply event of a failure, written out. *)
Local Abbreviation failedEvent := (fun (id : ObjMetadata) (err : taskError error) =>
  mkEvent ApplyType (mkApplyEvent (Unstructured := Unstructured) id ZeroOperation None (Some err))).

(** *** The loops over the filters and over the mutators *)

Lemma filter_loop_app_pass id pre fs obj :
  filtersPass pre obj -> filter_loop id (pre ++ fs) obj = filter_loop id fs obj.
Proof.
  induction 1 as [|f pre [r Hf] _ IH]; [done|]. cbn [app task.filter_loop]. by rewrite Hf.
Qed.

Lemma filter_loop_pass id fs obj :
  filter_loop id fs obj = (false, None) <-> filtersPass fs obj.
Proof.
  unfold task.filtersPass. induction fs as [|f fs IH]; cbn [task.filter_loop].
  - split; [constructor | done].
  - rewrite Forall_cons. destruct (Filter f obj) as [[[] r] [e|]].
    + split; [done|]. by intros [[r' [=]] _].
    + split; [done|]. by intros [[r' [=]] _].
    + split; [done|]. by intros [[r' [=]] _].
    + rewrite IH. split; [by eauto | by intros [_ ?]].
Qed.

Lemma mutate_loop_app_succeed id pre ms obj :
  mutatorsSucceed pre obj ->
  mutate_loop id (pre ++ ms) obj = mutate_loop id ms (runMutators pre obj).
Proof.
  revert obj. induction pre as [|m pre IH]; intros obj; [done|].
  cbn [app task.mutate_loop task.mutatorsSucceed task.runMutators foldl].
  destruct (Mutate m obj) as [obj1 [[b r] oe]]. cbn [fst snd].
  intros [(b' & r' & [= -> -> ->]) Hs]. by apply IH.
Qed.

Lemma mutate_loop_succeed id ms obj obj' :
  mutate_loop id ms obj = (obj', None) <->
  mutatorsSucceed ms obj /\ obj' = runMutators ms obj.
Proof.
  revert obj. induction ms as [|m ms IH]; intros obj;
    cbn [task.mutate_loop task.mutatorsSucceed task.runMutators foldl].
  - split; [by intros [= <-] | by intros [_ ->]].
  - destruct (Mutate m obj) as [obj1 [[b r] [e|]]]; cbn [fst snd].
    + split; [done|]. by intros [[(b' & r' & [=]) _] _].
    + rewrite IH. unfold task.runMutators. split.
      * intros [Hs ->]. by eauto.
      * by intros [[_ Hs] ->].
Qed.

Lemma streamErrorOnAPIService_decide a obj e :
  ServerSideApply (ServerSide a) && isAPIService obj && isStreamError e = true <->
  streamErrorOnAPIService a obj e.
Proof.
  unfold task.streamErrorOnAPIService, task.isAPIService, task.isStreamError.
  rewrite !andb_true_iff, !bool_decide_eq_true. tauto.
Qed.

(** *** What the loop does for an object that reaches the apply *)

Lemma applyObject_reached a ao obj info :
  BuildInfo a obj = Ok info -> filtersPass (Filters a) obj ->
  mutatorsSucceed (Mutators a) obj ->
  applyObject a ao obj =
    CallRun ao info (runMutators (Mutators a) obj) ::
    match Run ao info (runMutators (Mutators a) obj) with
    | (info1, None) => applied (idOf obj) info1
    | (info1, Some e) =>
        if ServerSideApply (ServerSide a) && isAPIService (runMutators (Mutators a) obj) &&
           isStreamError e
        then
          CallFactory clientSideOptions (Strategy a) ::
          match applyOptionsFactoryFunc clientSideOptions (Strategy a) with
          | Err e' => [SendEvent (failedEvent (idOf obj) (ApplyRunError e'));
                       CaptureResourceFailure (idOf obj)]
          | Ok ao' =>
              CallRun ao' info1 (runMutators (Mutators a) obj) ::
              match Run ao' info1 (runMutators (Mutators a) obj) with
              | (info2, None) => applied (idOf obj) info2
              | (info2, Some e') =>
                  [SendEvent (failedEvent (idOf obj) (ApplyRunError e'));
                   CaptureResourceFailure (idOf obj)]
              end
          end
        else [SendEvent (failedEvent (idOf obj) (ApplyRunError e));
              CaptureResourceFailure (idOf obj)]
    end.
Proof.
  intros Hi Hf Hm. unfold task.applyObject, task.filter, task.mutate.
  rewrite Hi, (proj2 (filter_loop_pass _ _ _) Hf).
  rewrite (proj2 (mutate_loop_succeed _ _ _ _) (conj Hm eq_refl)).
  set (obj' := runMutators (Mutators a) obj).
  destruct (Run ao info obj') as [info1 [e|]]; [|done].
  destruct (_ && _ && _); [|done]. unfold task.clientSideApply.
  destruct (applyOptionsFactoryFunc clientSideOptions (Strategy a)) as [ao'|e']; [|done].
  by destruct (Run ao' info1 obj') as [info2 [e'|]].
Qed.

Lemma fallback_clientSideApply a info obj :
  fallback a ∈ (clientSideApply info obj (Strategy a)).1.1.
Proof.
  unfold task.clientSideApply, task.fallback.
  destruct (applyOptionsFactoryFunc _ _) as [ao'|e]; [|by left].
  destruct (Run ao' info obj). by left.
Qed.

Lemma fallback_reached a ao obj :
  fallback a ∈ applyObject a ao obj ->
  exists info obj' info1 e,
    BuildInfo a obj = Ok info /\ filter a obj = (false, None) /\
    mutate a obj = (obj', None) /\ Run ao info obj' = (info1, Some e) /\
    ServerSideApply (ServerSide a) && isAPIService obj' && isStreamError e = true.
Proof.
  unfold task.applyObject, task.fallback.
  destruct (BuildInfo a obj) as [info|e0]; [|set_solver].
  destruct (filter a obj) as [[] [e0|]]; [set_solver..|].
  destruct (mutate a obj) as [obj' [e0|]]; [set_solver|].
  destruct (Run ao info obj') as [info1 [e|]] eqn:Hrun.
  2:{ intros H. repeat case_match; set_solver. }
  destruct (_ && _ && _) eqn:Hc; [|set_solver].
  intros _. by exists info, obj', info1, e.
Qed.

(** C7: the loop falls back to client-side apply for an object exactly
    when the apply of the object was reached (its info was built, the
    filters let it pass, the mutators ran without an error) and failed,
    server-side apply is set in the options of the task, the object is an
    APIService of the group apiregistration.k8s.io, and the text of the
    error contains ["stream error: stream ID "].  The fallback asks the
    factory for options without server-side apply and runs them on the
    same object, and its result stands for the result of the apply: with
    no error the object is recorded as applied, and with an error, of the
    factory or of the run, that error is the one of the failed apply
    event.  For every other error of the apply no fallback is made and
    the error of the apply is the one of the event. *)
Theorem fallback_iff a ao obj :
  (fallback a ∈ applyObject a ao obj <->
   exists info info1 e,
     BuildInfo a obj = Ok info /\ filtersPass (Filters a) obj /\
     mutatorsSucceed (Mutators a) obj /\
     Run ao info (runMutators (Mutators a) obj) = (info1, Some e) /\
     ServerSideApply (ServerSide a) = true /\
     Group (GroupKindOf (runMutators (Mutators a) obj)) = "apiregistration.k8s.io" /\
     Kind (GroupKindOf (runMutators (Mutators a) obj)) = "APIService" /\
     Contains (Error e) "stream error: stream ID " = true) /\
  (forall info info1 e,
     BuildInfo a obj = Ok info -> filtersPass (Filters a) obj ->
     mutatorsSucceed (Mutators a) obj ->
     Run ao info (runMutators (Mutators a) obj) = (info1, Some e) ->
     (streamErrorOnAPIService a (runMutators (Mutators a) obj) e ->
      (forall ao' info2,
         applyOptionsFactoryFunc clientSideOptions (Strategy a) = Ok ao' ->
         (Run ao' info1 (runMutators (Mutators a) obj) = (info2, None) ->
          applyObject a ao obj =
            [CallRun ao info (runMutators (Mutators a) obj);
             CallFactory (mkServerSideOptions false false "") (Strategy a);
             CallRun ao' info1 (runMutators (Mutators a) obj)] ++
            applied (idOf obj) info2) /\
         (forall e', Run ao' info1 (runMutators (Mutators a) obj) = (info2, Some e') ->
          applyObject a ao obj =
            [CallRun ao info (runMutators (Mutators a) obj);
             CallFactory (mkServerSideOptions false false "") (Strategy a);
             CallRun ao' info1 (runMutators (Mutators a) obj);
             SendEvent (failedEvent (idOf obj) (ApplyRunError e'));
             CaptureResourceFailure (idOf obj)])) /\
      (forall e', applyOptionsFactoryFunc clientSideOptions (Strategy a) = Err e' ->
         applyObject a ao obj =
           [CallRun ao info (runMutators (Mutators a) obj);
            CallFactory (mkServerSideOptions false false "") (Strategy a);
            SendEvent (failedEvent (idOf obj) (ApplyRunError e'));
            CaptureResourceFailure (idOf obj)])) /\
     (~ streamErrorOnAPIService a (runMutators (Mutators a) obj) e ->
      applyObject a ao obj =
        [CallRun ao info (runMutators (Mutators a) obj);
         SendEvent (failedEvent (idOf obj) (ApplyRunError e));
         CaptureResourceFailure (idOf obj)])).
Proof.
  split.
  - split.
    + intros H. apply fallback_reached in H as (info & obj' & info1 & e & Hi & Hf & Hm & Hr & Hc).
      apply filter_loop_pass in Hf. apply mutate_loop_succeed in Hm as [Hm ->].
      apply streamErrorOnAPIService_decide in Hc as (? & ? & ? & ?).
      by exists info, info1, e.
    + intros (info & info1 & e & Hi & Hf & Hm & Hr & Hc).
      rewrite (applyObject_reached a ao obj info Hi Hf Hm), Hr.
      rewrite (proj2 (streamErrorOnAPIService_decide a _ e) Hc).
      apply list_elem_of_further, list_elem_of_here.
  - intros info info1 e Hi Hf Hm Hr.
    rewrite (applyObject_reached a ao obj info Hi Hf Hm), Hr. split.
    + intros Hc. rewrite (proj2 (streamErrorOnAPIService_decide a _ e) Hc). split.
      * intros ao' info2 ->. split; [by intros ->|]. by intros e' ->.
      * by intros e' ->.
    + intros Hc. destruct (_ && _ && _) eqn:Hb; [|done].
      by apply streamErrorOnAPIService_decide in Hb.
Qed.

Lemma events_app (t1 t2 : list Action) : events (t1 ++ t2) = events t1 ++ events t2.
Proof. apply omap_app. Qed.

Lemma failures_app (t1 t2 : list Action) : failures (t1 ++ t2) = failures t1 ++ failures t2.
Proof. apply omap_app. Qed.

Lemma clientSideApply_quiet info obj strategy :
  events (clientSideApply info obj strategy).1.1 = [] /\
  failures (clientSideApply info obj strategy).1.1 = [].
Proof.
  unfold task.clientSideApply. destruct (applyOptionsFactoryFunc _ _) as [ao'|e]; [|done].
  by destruct (Run ao' info obj).
Qed.

Lemma objectFails_trace a ao obj err :
  objectFails a ao obj err ->
  events (applyObject a ao obj) = [createApplyFailedEvent (UnstructuredToObjMetaOrDie obj) err] /\
  failures (applyObject a ao obj) = [UnstructuredToObjMetaOrDie obj].
Proof.
  unfold task.applyObject.
  intros [e He|info filtered e Hi Hf|info obj' e Hi Hf Hm
         |info obj' info1 e Hi Hf Hm Hr Hc|info obj' info1 e0 tr info2 e Hi Hf Hm Hr Hc Hcs].
  - by rewrite He.
  - rewrite Hi, Hf. by destruct filtered.
  - by rewrite Hi, Hf, Hm.
  - rewrite Hi, Hf, Hm, Hr, Hc. done.
  - rewrite Hi, Hf, Hm, Hr, Hc.
    destruct (clientSideApply_quiet info1 obj' (Strategy a)) as [Hev Hfa].
    rewrite Hcs in Hev, Hfa |- *. simpl in Hev, Hfa.
    rewrite !events_app, !failures_app, Hev, Hfa. done.
Qed.

(** A failure in the words of the specification is a failure of the
    loop. *)
Lemma objectFailure_objectFails a ao obj err :
  objectFailure a ao obj err -> objectFails a ao obj err.
Proof.
  intros [e He|info pre f post b r e Hi Hfs Hpre Hf
         |info pre m post obj' b r e Hi Hf Hms Hpre Hm
         |info info1 e Hi Hf Hm Hr Hc
         |info info1 e0 e Hi Hf Hm Hr Hc Hfac
         |info info1 e0 ao' info2 e Hi Hf Hm Hr Hc Hfac Hr2].
  - by apply fails_BuildInfo.
  - apply (fails_filter _ _ _ _ _ _ _ _ _ _ _ _ _ info true); [done|].
    unfold task.filter. rewrite Hfs, (filter_loop_app_pass _ _ _ _ Hpre).
    cbn [task.filter_loop]. rewrite Hf. by destruct b.
  - apply (fails_mutate _ _ _ _ _ _ _ _ _ _ _ _ _ info obj'); [done| |].
    + by apply filter_loop_pass.
    + unfold task.mutate. rewrite Hms, (mutate_loop_app_succeed _ _ _ _ Hpre).
      cbn [task.mutate_loop]. by rewrite Hm.
  - apply (fails_Run _ _ _ _ _ _ _ _ _ _ _ _ _ info (runMutators (Mutators a) obj) info1);
      [done|by apply filter_loop_pass|by apply mutate_loop_succeed|done|].
    destruct (_ && _ && _) eqn:Hb; [|done].
    by apply streamErrorOnAPIService_decide in Hb.
  - apply (fails_clientSideApply _ _ _ _ _ _ _ _ _ _ _ _ _ info (runMutators (Mutators a) obj)
             info1 e0 [CallFactory clientSideOptions (Strategy a)] info1);
      [done|by apply filter_loop_pass|by apply mutate_loop_succeed|done| |].
    + by apply streamErrorOnAPIService_decide.
    + unfold task.clientSideApply. by rewrite Hfac.
  - apply (fails_clientSideApply _ _ _ _ _ _ _ _ _ _ _ _ _ info (runMutators (Mutators a) obj)
             info1 e0 [CallFactory clientSideOptions (Strategy a);
                       CallRun ao' info1 (runMutators (Mutators a) obj)] info2);
      [done|by apply filter_loop_pass|by apply mutate_loop_succeed|done| |].
    + by apply streamErrorOnAPIService_decide.
    + unfold task.clientSideApply. by rewrite Hfac, Hr2.
Qed.

Lemma Start_last a : last (Start a) = Some (SendTaskResult).
Proof.
  unfold task.Start. destruct (applyOptionsFactoryFunc _ _); by rewrite !app_assoc, last_snoc.
Qed.

(** C8: an object fails when no info can be built for it, when a filter
    returns an error (the filters before it having let the object pass),
    when a mutator returns an error (the mutators before it having run
    without one), or when the apply fails, by itself or in the
    client-side fallback.  For such an object exactly one event is sent,
    an apply event with the identity of the object and the error, with no
    operation and no resource, and the object is captured as a failure;
    the objects before and after it are processed as they are without
    it, and the task result is sent last. *)
Theorem object_failure_continues a ao pre obj post err :
  applyOptionsFactoryFunc (ServerSide a) (Strategy a) = Ok ao ->
  Objects a = pre ++ obj :: post ->
  objectFailure a ao obj err ->
  events (applyObject a ao obj) =
    [mkEvent ApplyType (mkApplyEvent (idOf obj) ZeroOperation None (Some err))] /\
  failures (applyObject a ao obj) = [idOf obj] /\
  Start a =
    [CallFactory (ServerSide a) (Strategy a)] ++
    flat_map (applyObject a ao) pre ++ applyObject a ao obj ++
    flat_map (applyObject a ao) post ++ [SendTaskResult] /\
  events (Start a) =
    events (flat_map (applyObject a ao) pre) ++
    [mkEvent ApplyType (mkApplyEvent (idOf obj) ZeroOperation None (Some err))] ++
    events (flat_map (applyObject a ao) post) /\
  failures (Start a) =
    failures (flat_map (applyObject a ao) pre) ++ [idOf obj] ++
    failures (flat_map (applyObject a ao) post) /\
  last (Start a) = Some (SendTaskResult).
Proof.
  intros Hao Hobjs Hfail. apply objectFailure_objectFails in Hfail.
  destruct (objectFails_trace a ao obj err Hfail) as [Hev Hfa].
  assert (Start a =
    [CallFactory (ServerSide a) (Strategy a)] ++
    flat_map (applyObject a ao) pre ++ applyObject a ao obj ++
    flat_map (applyObject a ao) post ++ [SendTaskResult]) as HS.
  { unfold task.Start. rewrite Hao, Hobjs, flat_map_app. simpl. by rewrite <- !app_assoc. }
  split; [exact Hev|]. split; [exact Hfa|]. split; [exact HS|].
  split; [|split; [|apply Start_last]].
  - rewrite HS, !events_app, Hev. cbn [task.events omap list_omap app]. by rewrite app_nil_r.
  - rewrite HS, !failures_app, Hfa. cbn [task.failures omap list_omap app]. by rewrite app_nil_r.
Qed.

(** C10: when a filter of the task filters an object without an error
    (the filters before it let the object pass), the task sends an apply
    event for the object, with the identity of the object, the operation
    [Unchanged], the object as resource and no error, and captures the
    object as a resource failure, and nothing else; both are part of what
    [Start] does, so the object counts among the failed resources. *)
Theorem filtered_object_is_failure a ao obj info pre f post reason :
  BuildInfo a obj = Ok info ->
  Filters a = pre ++ f :: post ->
  Forall (fun f' => exists r, Filter f' obj = (false, r, None)) pre ->
  Filter f obj = (true, reason, None) ->
  applyObject a ao obj =
    [SendEvent (mkEvent ApplyType (mkApplyEvent (idOf obj) Unchanged (Some obj) None));
     CaptureResourceFailure (idOf obj)] /\
  events (applyObject a ao obj) =
    [mkEvent ApplyType (mkApplyEvent (idOf obj) Unchanged (Some obj) None)] /\
  failures (applyObject a ao obj) = [idOf obj] /\
  (applyOptionsFactoryFunc (ServerSide a) (Strategy a) = Ok ao ->
   obj ∈ Objects a ->
   mkEvent ApplyType (mkApplyEvent (idOf obj) Unchanged (Some obj) None) ∈ events (Start a) /\
   idOf obj ∈ failures (Start a)).
Proof.
  intros Hi Hfs Hpre Hf.
  assert (filter a obj = (true, None)) as Hfilter.
  { unfold task.filter. rewrite Hfs, (filter_loop_app_pass _ _ _ _ Hpre).
    cbn [task.filter_loop]. by rewrite Hf. }
  assert (applyObject a ao obj =
    [SendEvent (mkEvent ApplyType (mkApplyEvent (idOf obj) Unchanged (Some obj) None));
     CaptureResourceFailure (idOf obj)]) as Htr.
  { unfold task.applyObject. by rewrite Hi, Hfilter. }
  split; [done|]. rewrite Htr. split; [done|]. split; [done|]. intros Hao Hin.
  apply list_elem_of_split in Hin as (l1 & l2 & Hobjs).
  unfold task.Start. rewrite Hao, Hobjs, flat_map_app. cbn [flat_map].
  fold (applyObject a ao obj). rewrite Htr.
  rewrite !events_app, !failures_app. cbn [task.events task.failures omap list_omap].
  rewrite !elem_of_app, !elem_of_cons. tauto.
Qed.
End apply_task_facts.

Lemma fallback_iff_witness :
  fakeApplyObject fakeTask (ServerSide fakeTask) apiService =
  [CallRun (ServerSide fakeTask) apiService apiService;
   CallFactory (mkServerSideOptions false false "") DryRunNone;
   CallRun (mkServerSideOptions false false "") apiService apiService;
   ResourceApplied apiService "uid" 1].
Proof.
  refine (proj1 (proj1 (proj1 (proj2 (fallback_iff ObjMetadata ObjMetadata unit string string
            ServerSideOptions (fun e => e) (fun obj => obj) GK (fun _ => Some tt) fakeAccessor
            fakeFactory fakeRun fakeTask (ServerSide fakeTask) apiService)
          apiService apiService "stream error: stream ID 1; INTERNAL_ERROR" _ _ _ _) _)
          (mkServerSideOptions false false "") apiService _) _).
  - reflexivity.
  - repeat constructor. by exists "".
  - exact I.
  - reflexivity.
  - repeat split; reflexivity.
  - reflexivity.
  - reflexivity.
Defined.

Lemma object_failure_continues_witness :
  events ObjMetadata ObjMetadata string string ServerSideOptions
    (fakeApplyObject fakeTask (ServerSide fakeTask) unknownObject) =
  [mkEvent ApplyType
     (mkApplyEvent unknownObject ZeroOperation None
        (Some (UnknownTypeError "no matches for kind Unknown")))] /\
  last (fakeStart fakeTask) = Some SendTaskResult.
Proof.
  destruct (object_failure_continues ObjMetadata ObjMetadata unit string string
              ServerSideOptions (fun e => e) (fun obj => obj) GK (fun _ => Some tt)
              fakeAccessor fakeFactory fakeRun fakeTask (ServerSide fakeTask)
              [deployment] unknownObject [foreignObject; apiService]
              (UnknownTypeError "no matches for kind Unknown"))
    as (Hev & _ & _ & _ & _ & Hlast).
  - reflexivity.
  - reflexivity.
  - apply failure_info. reflexivity.
  - split; [exact Hev | exact Hlast].
Defined.

Lemma filtered_object_is_failure_witness :
  fakeApplyObject fakeTask (ServerSide fakeTask) foreignObject =
  [SendEvent (mkEvent ApplyType (mkApplyEvent foreignObject Unchanged (Some foreignObject) None));
   CaptureResourceFailure foreignObject].
Proof.
  apply (filtered_object_is_failure ObjMetadata ObjMetadata unit string string
           ServerSideOptions (fun e => e) (fun obj => obj) GK (fun _ => Some tt)
           fakeAccessor fakeFactory fakeRun fakeTask (ServerSide fakeTask)
           foreignObject foreignObject [] inventoryFilter []
           "object owned by another inventory").
  - reflexivity.
  - reflexivity.
  - apply Forall_nil_2.
  - reflexivity.
Defined.

End task_facts.

Module graph_facts.
Import object graph.

Implicit Types (g : gmap ObjMetadata (gset ObjMetadata)) (v a b : ObjMetadata).
Implicit Types (L : gset ObjMetadata).

Lemma elem_of_adjacent g a b :
  b ∈ adjacent g a <-> exists adj, g !! a = Some adj /\ b ∈ adj.
Proof.
  unfold adjacent. destruct (g !! a) as [adj|]; simpl.
  - split; [intros ?; by exists adj | by intros (? & [= <-] & ?)].
  - split; [set_solver | by intros (? & ? & ?)].
Qed.

Lemma adjacent_dom g a b : b ∈ adjacent g a -> a ∈ dom g.
Proof. intros (adj & Ha & _)%elem_of_adjacent. apply elem_of_dom. eauto. Qed.

Lemma elem_of_leafVertices g v : v ∈ leafVertices g <-> g !! v = Some ∅.
Proof.
  unfold leafVertices. split.
  - intros [adj Hadj]%elem_of_dom. apply map_lookup_filter_Some in Hadj as [Hv Hadj].
    simpl in Hadj. by subst.
  - intros Hv. apply elem_of_dom. exists ∅. by apply map_lookup_filter_Some.
Qed.

Lemma leafVertices_dom g : leafVertices g ⊆ dom g.
Proof. intros v Hv%elem_of_leafVertices. apply elem_of_dom. eauto. Qed.

Lemma leaf_not_adjacent g a b : b ∈ adjacent g a -> a ∉ leafVertices g.
Proof.
  intros (adj & Ha & Hb)%elem_of_adjacent Hl%elem_of_leafVertices.
  rewrite Ha in Hl. set_solver.
Qed.

Lemma lookup_removeVertices L g v :
  removeVertices L g !! v =
  if decide (v ∈ L) then None else (fun adj => adj ∖ L) <$> g !! v.
Proof.
  unfold removeVertices. rewrite lookup_fmap.
  destruct (decide (v ∈ L)) as [Hin|Hout].
  - rewrite map_lookup_filter_None_2; [done|]. right. intros adj _. simpl. tauto.
  - destruct (g !! v) as [adj|] eqn:Hv.
    + by erewrite map_lookup_filter_Some_2.
    + rewrite map_lookup_filter_None_2; [done|]. by left.
Qed.

Lemma dom_removeVertices L g : dom (removeVertices L g) = dom g ∖ L.
Proof.
  apply set_eq. intros v. rewrite elem_of_difference, !elem_of_dom, lookup_removeVertices.
  destruct (decide (v ∈ L)); [split; [by intros [? ?] | tauto]|].
  rewrite fmap_is_Some. tauto.
Qed.

Lemma adjacent_removeVertices L g a b :
  b ∈ adjacent (removeVertices L g) a <-> (a ∉ L) /\ (b ∉ L) /\ b ∈ adjacent g a.
Proof.
  rewrite !elem_of_adjacent. setoid_rewrite lookup_removeVertices.
  destruct (decide (a ∈ L)) as [Hin|Hout].
  - split; [by intros (? & ? & ?) | tauto].
  - split.
    + intros (adj' & Hadj & Hb). apply fmap_Some in Hadj as (adj & Ha & ->).
      apply elem_of_difference in Hb as [Hb HbL]. eauto 6.
    + intros (_ & HbL & adj & Ha & Hb). exists (adj ∖ L). rewrite Ha. split; [done|].
      set_solver.
Qed.

Lemma size_removeVertices g :
  leafVertices g <> ∅ -> (size (removeVertices (leafVertices g) g) < size g)%nat.
Proof.
  intros Hne. rewrite <- !(size_dom (D := gset ObjMetadata)), dom_removeVertices.
  apply subset_size. pose proof (leafVertices_dom g) as Hsub.
  apply set_choose_L in Hne as [v Hv]. set_solver.
Qed.

(** As many rounds as there are vertices are enough. *)
Lemma sort_loop_fuel n g : (size g <= n)%nat -> is_Some (sort_loop n g).
Proof.
  revert g. induction n as [|n IH]; intros g Hsz; simpl.
  - destruct (decide (g = ∅)) as [->|Hne]; [eauto|].
    apply map_size_non_empty_iff in Hne. lia.
  - destruct (decide (g = ∅)); [eauto|].
    destruct (decide (leafVertices g = ∅)) as [|Hl]; [eauto|].
    pose proof (size_removeVertices g Hl) as Hlt.
    destruct (IH (removeVertices (leafVertices g) g)) as [r Hr]; [lia|].
    rewrite Hr. destruct r as [?|?]; eauto.
Qed.

Lemma closed_removeVertices L g : closed g -> closed (removeVertices L g).
Proof.
  intros Hc a b (Ha & Hb & Hab)%adjacent_removeVertices.
  rewrite dom_removeVertices. apply elem_of_difference. eauto.
Qed.

Lemma sort_loop_sound n g waves :
  closed g -> sort_loop n g = Some (Ok waves) ->
  (forall v, v ∈ dom g -> is_Some (level waves v)) /\
  (forall wave, wave ∈ waves -> wave ⊆ dom g) /\
  (forall a b, b ∈ adjacent g a ->
     exists i j, level waves a = Some i /\ level waves b = Some j /\ (j < i)%nat).
Proof.
  revert g waves. induction n as [|n IH]; intros g waves Hc; simpl.
  - destruct (decide (g = ∅)) as [->|]; [|done]. intros [= <-].
    split; [|split].
    + intros v. rewrite dom_empty_L. set_solver.
    + intros wave Hw. by apply elem_of_nil in Hw.
    + intros a b Hab%adjacent_dom. rewrite dom_empty_L in Hab. set_solver.
  - destruct (decide (g = ∅)) as [->|_].
    { intros [= <-]. split; [|split].
      + intros v. rewrite dom_empty_L. set_solver.
      + intros wave Hw. by apply elem_of_nil in Hw.
      + intros a b Hab%adjacent_dom. rewrite dom_empty_L in Hab. set_solver. }
    destruct (decide (leafVertices g = ∅)) as [|Hl]; [done|].
    set (L := leafVertices g) in *.
    destruct (sort_loop n (removeVertices L g)) as [[waves'|]|] eqn:Hrec; [|done..].
    intros [= <-].
    destruct (IH _ _ (closed_removeVertices L g Hc) Hrec) as (Hdom & Hsub & Hedge).
    assert (forall v, v ∈ dom g -> v ∉ L -> exists i, level (L :: waves') v = Some (S i)) as Hup.
    { intros v Hv HvL. destruct (Hdom v) as [i Hi].
      - rewrite dom_removeVertices. set_solver.
      - exists i. simpl. by rewrite decide_False, Hi by done. }
    split; [|split].
    + intros v Hv. simpl. destruct (decide (v ∈ L)); [eauto|].
      destruct (Hup v) as [i Hi]; [done..|]. simpl in Hi. rewrite decide_False in Hi by done.
      rewrite Hi. eauto.
    + intros wave [->|Hw]%elem_of_cons; [apply leafVertices_dom|].
      specialize (Hsub wave Hw). rewrite dom_removeVertices in Hsub. set_solver.
    + intros a b Hab. pose proof (leaf_not_adjacent g a b Hab) as HaL.
      pose proof (adjacent_dom g a b Hab) as Ha. fold L in HaL.
      destruct (decide (b ∈ L)) as [HbL|HbL].
      * destruct (Hup a Ha HaL) as [i Hi]. exists (S i), O.
        split; [done|]. split; [|lia]. simpl. by rewrite decide_True.
      * destruct (Hedge a b) as (i & j & Hi & Hj & Hlt).
        { by apply adjacent_removeVertices. }
        exists (S i), (S j). simpl. rewrite !decide_False, Hi, Hj by done.
        split; [done|]. split; [done|lia].
Qed.

(** *** Building the graph *)

Lemma dom_AddVertex v g : dom (AddVertex v g) = {[v]} ∪ dom g.
Proof.
  unfold AddVertex. destruct (g !! v) as [adj|] eqn:Hv.
  - assert (v ∈ dom g) by (apply elem_of_dom; eauto). set_solver.
  - by rewrite dom_insert_L.
Qed.

Lemma adjacent_AddVertex v g a : adjacent (AddVertex v g) a = adjacent g a.
Proof.
  unfold AddVertex, adjacent. destruct (g !! v) as [adj|] eqn:Hv; [done|].
  destruct (decide (v = a)) as [->|Hne].
  - by rewrite lookup_insert_eq, Hv.
  - by rewrite lookup_insert_ne.
Qed.

Lemma dom_foldr_AddVertex (l : list ObjMetadata) : dom (foldr AddVertex ∅ l) = list_to_set l.
Proof.
  induction l as [|v l IH]; simpl; [by rewrite dom_empty_L|].
  by rewrite dom_AddVertex, IH.
Qed.

Lemma adjacent_foldr_AddVertex (l : list ObjMetadata) a :
  adjacent (foldr AddVertex ∅ l) a = ∅.
Proof.
  induction l as [|v l IH]; simpl; [done|]. by rewrite adjacent_AddVertex.
Qed.

Lemma AddEdge_Ok g a b g' :
  AddEdge g (a, b) = Ok g' ->
  a <> b /\ dom g' = {[a; b]} ∪ dom g /\
  forall x, adjacent g' x = if decide (x = a) then {[b]} ∪ adjacent g a else adjacent g x.
Proof.
  unfold AddEdge. destruct (decide (a = b)) as [|Hne]; [done|]. intros [= <-].
  split; [done|]. split.
  - rewrite dom_insert_L, !dom_AddVertex. set_solver.
  - intros x. rewrite !adjacent_AddVertex. unfold adjacent at 1.
    destruct (decide (x = a)) as [->|Hx].
    + by rewrite lookup_insert_eq.
    + rewrite lookup_insert_ne by done. fold (adjacent (AddVertex b (AddVertex a g)) x).
      by rewrite !adjacent_AddVertex.
Qed.

Lemma AddEdges_Ok es : forall g g',
  AddEdges g es = Ok g' ->
  (forall a, (a, a) ∉ es) /\
  (forall v, v ∈ dom g' <-> v ∈ dom g \/ exists w, (v, w) ∈ es \/ (w, v) ∈ es) /\
  (forall a b, b ∈ adjacent g' a <-> b ∈ adjacent g a \/ (a, b) ∈ es).
Proof.
  induction es as [|[x y] es IH]; intros g g'; cbn [AddEdges].
  - intros [= <-]. split; [|split].
    + intros a Ha. by apply elem_of_nil in Ha.
    + intros v. split; [tauto|]. intros [?|(w & [H|H])]; [assumption| |]; by apply elem_of_nil in H.
    + intros a b. split; [tauto|]. intros [?|H]; [assumption|]. by apply elem_of_nil in H.
  - destruct (AddEdge g (x, y)) as [g1|] eqn:H1; [|done]. intros Hrec.
    apply AddEdge_Ok in H1 as (Hxy & Hdom1 & Hadj1).
    destruct (IH _ _ Hrec) as (Hself & Hdom & Hadj). split; [|split].
    + intros a [Heq|Hin]%elem_of_cons; [congruence|by eapply Hself].
    + intros v. rewrite Hdom, Hdom1. setoid_rewrite elem_of_cons.
      rewrite !elem_of_union, !elem_of_singleton. naive_solver.
    + intros a b. rewrite Hadj, Hadj1, elem_of_cons.
      destruct (decide (a = x)) as [->|Hne].
      * rewrite elem_of_union, elem_of_singleton. split.
        -- intros [[->|?]|?]; eauto.
        -- intros [?|[[= ->]|?]]; eauto.
      * split; [intros [?|?]; eauto|]. intros [?|[[= -> ->]|?]]; eauto. done.
Qed.

(** The edges of the resolver join identities of the input. *)
Lemma edges_ids objs a b : (a, b) ∈ edges objs -> a ∈ ids objs /\ b ∈ ids objs.
Proof.
  unfold edges, dependsOnEdges, applyTimeMutationEdges, namespaceEdges, crdEdges, ids.
  rewrite !elem_of_app, !list_elem_of_bind.
  intros [(o & Hin & Ho)|[(o & Hin & Ho)|[(o & Hin & Ho)|(o & Hin & Ho)]]].
  - apply list_elem_of_fmap in Hin as (d & [= -> ->] & Hd%list_elem_of_filter).
    split; [|tauto]. apply list_elem_of_fmap; eauto.
  - apply list_elem_of_fmap in Hin as (d & [= -> ->] & Hd%list_elem_of_filter).
    split; [|tauto]. apply list_elem_of_fmap; eauto.
  - destruct (decide (Namespace (objId o) = "")); [by apply elem_of_nil in Hin|].
    apply list_elem_of_fmap in Hin as (ns & [= -> ->] & Hns%list_elem_of_filter).
    split; apply list_elem_of_fmap; [eauto|]. exists ns. tauto.
  - destruct (crdDefines o) as [gk|]; [|by apply elem_of_nil in Hin].
    apply list_elem_of_fmap in Hin as (c & [= -> ->] & Hc%list_elem_of_filter).
    split; apply list_elem_of_fmap; [|eauto]. exists c. tauto.
Qed.

Lemma edges_dependency objs a b : (a, b) ∈ edges objs <-> dependency objs a b.
Proof.
  unfold edges, dependsOnEdges, applyTimeMutationEdges, namespaceEdges, crdEdges.
  rewrite !elem_of_app, !list_elem_of_bind. split.
  - intros [(o & Hin & Ho)|[(o & Hin & Ho)|[(o & Hin & Ho)|(o & Hin & Ho)]]].
    + apply list_elem_of_fmap in Hin as (d & [= -> ->] & [Hd1 Hd2]%list_elem_of_filter).
      by apply dep_dependsOn.
    + apply list_elem_of_fmap in Hin as (d & [= -> ->] & [Hd1 Hd2]%list_elem_of_filter).
      by apply dep_applyTimeMutation.
    + destruct (decide (Namespace (objId o) = "")) as [|Hns]; [by apply elem_of_nil in Hin|].
      apply list_elem_of_fmap in Hin as (ns & [= -> ->] & [[Hk Hn] Hin]%list_elem_of_filter).
      apply dep_namespace; [done..| |done]. by apply bool_decide_eq_true in Hk.
    + destruct (crdDefines o) as [gk|] eqn:Hgk; [|by apply elem_of_nil in Hin].
      apply list_elem_of_fmap in Hin as (c & [= -> ->] & [Hc Hin]%list_elem_of_filter).
      apply dep_crd; [done..|]. by rewrite Hc.
  - intros [o d Ho Hd Hin|o d Ho Hd Hin|o ns Ho Hns Hne Hk Hn|o crd Ho Hcrd Hgk].
    + left. exists o. split; [|done]. apply list_elem_of_fmap. exists d.
      split; [done|]. by apply list_elem_of_filter.
    + right; left. exists o. split; [|done]. apply list_elem_of_fmap. exists d.
      split; [done|]. by apply list_elem_of_filter.
    + right; right; left. exists o. split; [|done]. rewrite decide_False by done.
      apply list_elem_of_fmap. exists ns. split; [done|]. apply list_elem_of_filter.
      split; [|done]. split; [|done]. by apply bool_decide_eq_true.
    + right; right; right. exists crd. split; [|done]. rewrite Hgk.
      apply list_elem_of_fmap. exists o. split; [done|]. by apply list_elem_of_filter.
Qed.

Lemma waveOf_level objs (waves : list (gset ObjMetadata)) id :
  (forall wave, wave ∈ waves -> wave ⊆ list_to_set (ids objs)) ->
  waveOf ((fun wave => filter (fun o => objId o ∈ wave) objs) <$> waves) id = level waves id.
Proof.
  induction waves as [|wave waves IH]; intros Hsub; [done|].
  rewrite fmap_cons. cbn [waveOf level].
  rewrite IH by (intros w Hw; apply Hsub; by right).
  assert (id ∈ ids (filter (fun o => objId o ∈ wave) objs) <-> id ∈ wave) as Hiff.
  { unfold ids. rewrite list_elem_of_fmap. split.
    - intros (o & -> & Ho%list_elem_of_filter). tauto.
    - intros Hid. assert (id ∈ ids objs) as Hin.
      { apply (elem_of_list_to_set (C := gset ObjMetadata)), (Hsub wave); [by left|done]. }
      apply list_elem_of_fmap in Hin as (o & -> & Ho). exists o. split; [done|].
      by apply list_elem_of_filter. }
  destruct (decide (id ∈ wave)); [by rewrite decide_True by tauto|].
  by rewrite decide_False by tauto.
Qed.

Lemma Sort_Ok g waves :
  Sort g = Ok waves -> sort_loop (size g) g = Some (Ok waves).
Proof.
  unfold Sort. destruct (sort_loop (size g) g) as [r|]; [by intros ->|done].
Qed.

(** The graph of the resolver, when every edge is accepted. *)
Lemma SortObjs_Ok objs owaves :
  SortObjs objs = Ok owaves ->
  forall a b, (a, b) ∈ edges objs ->
    exists i j, waveOf owaves a = Some i /\ waveOf owaves b = Some j /\ (j < i)%nat.
Proof.
  unfold SortObjs. destruct objs as [|o objs']; [intros _ a b Hab; by apply elem_of_nil in Hab|].
  set (objs := o :: objs'). 
  destruct (AddEdges _ (edges objs)) as [g|] eqn:Hg; [|done].
  destruct (Sort g) as [waves|] eqn:Hs; [|done]. intros [= <-] a b Hab.
  apply AddEdges_Ok in Hg as (_ & Hdom & Hadj).
  assert (dom g = list_to_set (ids objs)) as Hdomg.
  { apply set_eq. intros v. rewrite Hdom, dom_foldr_AddVertex, elem_of_list_to_set.
    split; [|tauto]. intros [?|(w & [H|H])]; [done|apply edges_ids in H; tauto ..]. }
  assert (closed g) as Hc.
  { intros x y Hxy. apply Hadj in Hxy as [Hxy|Hxy].
    - rewrite adjacent_foldr_AddVertex in Hxy. set_solver.
    - rewrite Hdomg. apply elem_of_list_to_set. apply edges_ids in Hxy. tauto. }
  apply Sort_Ok in Hs. destruct (sort_loop_sound _ _ _ Hc Hs) as (_ & Hsub & Hedge).
  rewrite !waveOf_level by (by rewrite <- Hdomg). apply Hedge, Hadj. by right.
Qed.

(** The loop of [Sort] never runs out of rounds. *)
Lemma Sort_sort_loop g : sort_loop (size g) g = Some (Sort g).
Proof.
  unfold Sort. by destruct (sort_loop_fuel (size g) g) as [r ->].
Qed.

(** C2: when the resolver succeeds, every dependency [a -> b] between
    objects of the input (depends-on annotation, apply-time mutation,
    namespace, custom resource definition) has the object of [b] in an
    earlier wave than the object of [a]; and the namespace with a deployment
    and a secret in it are sorted into the waves [[Namespace]] and
    [[Secret, Deployment]], a wave being a set. *)
Theorem SortObjs_waves_respect_dependencies :
  (forall objs waves a b,
     SortObjs objs = Ok waves -> dependency objs a b ->
     exists i j, waveOf waves a = Some i /\ waveOf waves b = Some j /\ (j < i)%nat) /\
  (exists waves,
     SortObjs [test_deployment; test_namespace; test_secret] = Ok waves /\
     Forall2 (≡ₚ) waves scenario_waves).
Proof.
  split.
  { intros objs waves a b Hs Hd. apply (SortObjs_Ok objs waves Hs).
    by apply edges_dependency. }
  exists [[test_namespace]; [test_deployment; test_secret]]. split; [by vm_compute|].
  repeat constructor.
Qed.

Lemma SortObjs_waves_respect_dependencies_witness :
  exists i j,
    waveOf [[test_namespace]; [test_deployment; test_secret]] (objId test_deployment) = Some i /\
    waveOf [[test_namespace]; [test_deployment; test_secret]] (objId test_namespace) = Some j /\
    (j < i)%nat.
Proof.
  apply (proj1 SortObjs_waves_respect_dependencies
           [test_deployment; test_namespace; test_secret]).
  - vm_compute. reflexivity.
  - apply (dep_namespace _ test_deployment test_namespace).
    + apply list_elem_of_here.
    + apply list_elem_of_further, list_elem_of_here.
    + discriminate.
    + reflexivity.
    + reflexivity.
Defined.

(** C3: when the dependencies of the input contain a directed cycle, the
    resolver returns a [CyclicDependencyError]; an error carries no
    waves. *)
Theorem SortObjs_cycle_error objs a :
  tc (dependency objs) a a ->
  exists residual, SortObjs objs = Err (CyclicDependencyError residual).
Proof.
  intros Hcycle. destruct (SortObjs objs) as [waves|[residual]] eqn:Hs; [|eauto].
  exfalso.
  assert (forall x y, tc (dependency objs) x y ->
            exists i j, waveOf waves x = Some i /\ waveOf waves y = Some j /\ (j < i)%nat) as Hdec.
  { intros x y Hxy. induction Hxy as [x y Hxy|x y z Hxy _ IH].
    - by apply (SortObjs_Ok objs waves), edges_dependency.
    - apply edges_dependency in Hxy.
      destruct (SortObjs_Ok objs waves Hs x y Hxy) as (i & j & Hi & Hj & Hlt).
      destruct IH as (j' & k & Hj' & Hk & Hlt'). exists i, k.
      rewrite Hj in Hj'. injection Hj' as <-. split; [done|]. split; [done|lia]. }
  destruct (Hdec a a Hcycle) as (i & j & Hi & Hj & Hlt). rewrite Hi in Hj.
  injection Hj as <-. lia.
Qed.

Lemma SortObjs_cycle_error_witness :
  exists residual,
    SortObjs [test_dependent; test_cyclic] = Err (CyclicDependencyError residual).
Proof.
  apply (SortObjs_cycle_error [test_dependent; test_cyclic] (objId test_deployment)).
  apply (tc_l _ _ (objId test_secret)).
  - apply (dep_dependsOn _ test_dependent (objId test_secret)).
    + apply list_elem_of_here.
    + apply list_elem_of_here.
    + apply list_elem_of_further, list_elem_of_here.
  - apply tc_once.
    apply (dep_dependsOn _ test_cyclic (objId test_deployment)).
    + apply list_elem_of_further, list_elem_of_here.
    + apply list_elem_of_here.
    + apply list_elem_of_here.
Defined.

End graph_facts.


(** * More facts on pkg/object *)

Module object_more.
Import object object_facts.

(** *** The parser *)

Lemma Index_sep_split s :
  Index s "_" <> -1 ->
  s = slice_to s (Z.to_nat (Index s "_")) +:+
      String "_" (slice_from s (Z.to_nat (Index s "_" + 1))).
Proof.
  induction s as [|c s IH]; [done|]. cbn [Index]. rewrite HasPrefix_sep.
  case_bool_decide as Hc.
  - intros _. subst c. change (Z.to_nat (0 + 1)) with 1%nat. change (Z.to_nat 0) with 0%nat.
    cbn [slice_to slice_from]. destruct s; reflexivity.
  - destruct (Index s "_" <? 0) eqn:Hi; [done|]. apply Z.ltb_ge in Hi. intros _.
    replace (Z.to_nat (Index s "_" + 1 + 1)) with (S (Z.to_nat (Index s "_" + 1))) by lia.
    replace (Z.to_nat (Index s "_" + 1)) with (S (Z.to_nat (Index s "_"))) at 1 by lia.
    cbn [slice_to slice_from]. rewrite app_String. f_equal. apply IH. lia.
Qed.

Lemma LastIndex_sep_split s :
  LastIndex s "_" <> -1 ->
  s = slice_to s (Z.to_nat (LastIndex s "_")) +:+
      String "_" (slice_from s (Z.to_nat (LastIndex s "_" + 1))).
Proof.
  induction s as [|c s IH]; [done|]. cbn [LastIndex].
  destruct (0 <=? LastIndex s "_") eqn:Hi.
  - apply Z.leb_le in Hi. intros _.
    replace (Z.to_nat (LastIndex s "_" + 1 + 1)) with (S (Z.to_nat (LastIndex s "_" + 1)))
      by lia.
    replace (Z.to_nat (LastIndex s "_" + 1)) with (S (Z.to_nat (LastIndex s "_"))) at 1 by lia.
    cbn [slice_to slice_from]. rewrite app_String. f_equal. apply IH. lia.
  - rewrite HasPrefix_sep. case_bool_decide as Hc; [|done]. intros _. subst c.
    change (Z.to_nat (0 + 1)) with 1%nat. change (Z.to_nat 0) with 0%nat.
    cbn [slice_to slice_from]. destruct s; reflexivity.
Qed.

(** What the parser returns was built by [CreateObjMetadata]: the name and
    the kind are not empty. *)
Lemma Parse_Ok_named s y :
  ParseObjMetadata s = Ok y -> Name y <> "" /\ Kind (GK y) <> "".
Proof.
  unfold ParseObjMetadata. cbv zeta.
  destruct (_ =? -1); [done|]. destruct (_ =? -1); [done|]. destruct (_ =? -1); [done|].
  destruct (Contains _ _); [done|]. unfold CreateObjMetadata.
  destruct (decide (_ = "")); [done|]. destruct (decide (_ = "")); [done|].
  by intros [= <-].
Qed.

(** X1: the parser accepts only strings of four fields separated by the
    field separator: an accepted string is the namespace, a name field,
    the group and the kind of the identity returned, joined by ["_"]; the
    name returned is the name field with every ["__"] replaced by [":"];
    the name and the kind are not empty and no field of the identity
    contains the separator. *)
Theorem Parse_Ok_fields s y :
  ParseObjMetadata s = Ok y ->
  exists nm,
    s = Namespace y +:+ "_" +:+ nm +:+ "_" +:+ Group (GK y) +:+ "_" +:+ Kind (GK y) /\
    Name y = ReplaceAll nm colonTranscoded ":" /\
    Name y <> "" /\ Kind (GK y) <> "" /\ sep_free y.
Proof.
  intros H. pose proof (Parse_Ok_named _ _ H) as [Hn Hk].
  pose proof (Parse_Ok_sep_free _ _ H) as Hsf.
  revert H. unfold ParseObjMetadata, fieldSeparator. cbv zeta.
  destruct (Index s "_" =? -1) eqn:H1; [done|]. apply Z.eqb_neq in H1.
  set (s1 := slice_from s _).
  destruct (LastIndex s1 "_" =? -1) eqn:H2; [done|]. apply Z.eqb_neq in H2.
  set (s2 := slice_to s1 _).
  destruct (LastIndex s2 "_" =? -1) eqn:H3; [done|]. apply Z.eqb_neq in H3.
  set (nm := slice_to s2 _).
  destruct (Contains _ "_") eqn:H4; [done|].
  unfold CreateObjMetadata. destruct (decide (_ = "")); [done|]. cbn [Kind].
  destruct (decide (_ = "")); [done|]. intros [= <-].
  exists nm. cbn [Namespace Name GK Group Kind]. split; [|done].
  rewrite (Index_sep_split s H1) at 1. fold s1.
  rewrite (LastIndex_sep_split s1 H2) at 1. fold s2.
  rewrite (LastIndex_sep_split s2 H3) at 1. fold nm.
  change ("_" +:+ ?t) with (String "_" t).
  by rewrite (app_assoc_s nm).
Qed.

Lemma Parse_Ok_fields_witness :
  exists nm,
    "ns_a__b_rbac.authorization.k8s.io_Role" =
      "ns" +:+ "_" +:+ nm +:+ "_" +:+ "rbac.authorization.k8s.io" +:+ "_" +:+ "Role" /\
    "a:b" = ReplaceAll nm colonTranscoded ":".
Proof.
  destruct (Parse_Ok_fields "ns_a__b_rbac.authorization.k8s.io_Role"
              (mkObjMetadata "ns" "a:b" (mkGroupKind rbacGroupName "Role")))
    as (nm & H1 & H2 & _); [reflexivity|].
  exists nm. split; [exact H1 | exact H2].
Defined.

(** X2: an identity returned by the parser is in normal form: its
    serialised form parses, and parses to the same identity. *)
Theorem Parse_String_Parse s y :
  ParseObjMetadata s = Ok y -> ParseObjMetadata (String_ y) = Ok y.
Proof.
  intros H. pose proof (Parse_Ok_named _ _ H) as [Hn Hk].
  apply parse_String_sep_free; [done..|]. by apply (Parse_Ok_sep_free s).
Qed.

Lemma Parse_String_Parse_witness :
  ParseObjMetadata "_a__b__Pod" = Ok (mkObjMetadata "" "a:b" (mkGroupKind "" "Pod")) /\
  String_ (mkObjMetadata "" "a:b" (mkGroupKind "" "Pod")) = "_a:b__Pod" /\
  ParseObjMetadata "_a:b__Pod" = Ok (mkObjMetadata "" "a:b" (mkGroupKind "" "Pod")).
Proof.
  split; [reflexivity|]. split; [reflexivity|].
  exact (Parse_String_Parse "_a__b__Pod" (mkObjMetadata "" "a:b" (mkGroupKind "" "Pod"))
           eq_refl).
Defined.

(** *** The slices used as sets *)

Lemma ObjMetas_Contains_decide oms id : ObjMetas_Contains oms id = bool_decide (id ∈ oms).
Proof.
  induction oms as [|om oms IH]; cbn [ObjMetas_Contains].
  - rewrite bool_decide_eq_false_2; [done|]. apply not_elem_of_nil.
  - destruct (decide (om = id)) as [->|Hne].
    + rewrite bool_decide_eq_true_2; [done|]. apply list_elem_of_here.
    + rewrite IH. apply bool_decide_ext. rewrite elem_of_cons. naive_solver.
Qed.

Section slice_sets_more.
Variable rangeKeys : gset ObjMetadata -> list ObjMetadata.
Hypothesis rangeKeys_elements : forall m, rangeKeys m ≡ₚ elements m.

Lemma elem_of_Union A B x : x ∈ Union rangeKeys A B <-> x ∈ A \/ x ∈ B.
Proof.
  rewrite <- (elem_of_list_to_set (C := gset ObjMetadata)).
  rewrite (proj1 (Union_spec rangeKeys rangeKeys_elements A B)). set_solver.
Qed.

Lemma elem_of_SetDiff A B x : x ∈ SetDiff rangeKeys A B <-> x ∈ A /\ x ∉ B.
Proof.
  rewrite <- (elem_of_list_to_set (C := gset ObjMetadata)).
  rewrite (proj1 (SetDiff_spec rangeKeys rangeKeys_elements A B)). set_solver.
Qed.

Lemma SetEquals_elem_of A B :
  SetEquals rangeKeys A B = true <-> forall x, x ∈ A <-> x ∈ B.
Proof.
  rewrite (SetEquals_true rangeKeys rangeKeys_elements). split.
  - intros Heq x. by rewrite <- !(elem_of_list_to_set (C := gset ObjMetadata)), Heq.
  - intros H. apply set_eq. intros x. by rewrite !elem_of_list_to_set.
Qed.

(** X3: [Contains] decides membership in the slice, and on the slices
    returned by [Union] and [SetDiff] it is the disjunction, and the
    conjunction with the negation, of its values on the arguments, in
    whatever order Go ranges over the map. *)
Theorem Contains_Union_SetDiff A B id :
  (ObjMetas_Contains A id = true <-> id ∈ A) /\
  ObjMetas_Contains (Union rangeKeys A B) id =
    ObjMetas_Contains A id || ObjMetas_Contains B id /\
  ObjMetas_Contains (SetDiff rangeKeys A B) id =
    ObjMetas_Contains A id && negb (ObjMetas_Contains B id).
Proof.
  rewrite !ObjMetas_Contains_decide. split; [apply bool_decide_eq_true|]. split.
  - rewrite <- bool_decide_or. apply bool_decide_ext, elem_of_Union.
  - rewrite <- bool_decide_not, <- bool_decide_and. apply bool_decide_ext, elem_of_SetDiff.
Qed.

(** X4: [SetEquals] holds exactly when the two slices have the same
    elements, whatever their order and however often an element is
    repeated; it is reflexive, symmetric and transitive. *)
Theorem SetEquals_equivalence A B C :
  (SetEquals rangeKeys A B = true <-> forall x, x ∈ A <-> x ∈ B) /\
  SetEquals rangeKeys A A = true /\
  SetEquals rangeKeys A B = SetEquals rangeKeys B A /\
  (SetEquals rangeKeys A B = true -> SetEquals rangeKeys B C = true ->
   SetEquals rangeKeys A C = true).
Proof.
  split; [apply SetEquals_elem_of|]. split; [by apply SetEquals_elem_of|]. split.
  - apply Bool.eq_iff_eq_true. rewrite !SetEquals_elem_of.
    split; intros H x; by rewrite H.
  - rewrite !SetEquals_elem_of. intros H1 H2 x. by rewrite H1.
Qed.

(** X5: [SetDiff A B] is the empty slice exactly when every element of
    [A] is in [B], and [SetEquals A B] holds exactly when both
    differences are empty. *)
Theorem SetDiff_empty A B :
  (SetDiff rangeKeys A B = [] <-> forall x, x ∈ A -> x ∈ B) /\
  (SetEquals rangeKeys A B = true <->
   SetDiff rangeKeys A B = [] /\ SetDiff rangeKeys B A = []).
Proof.
  assert (forall A B, SetDiff rangeKeys A B = [] <-> forall x, x ∈ A -> x ∈ B) as Hd.
  { clear A B. intros A B. split.
    - intros He x Hx. destruct (decide (x ∈ B)) as [|Hn]; [done|].
      assert (x ∈ SetDiff rangeKeys A B) as Hin by (by apply elem_of_SetDiff).
      rewrite He in Hin. by apply not_elem_of_nil in Hin.
    - intros Hsub. destruct (SetDiff rangeKeys A B) as [|y l] eqn:E; [done|].
      assert (y ∈ SetDiff rangeKeys A B) as Hin by (rewrite E; apply list_elem_of_here).
      apply elem_of_SetDiff in Hin as [Hy Hn]. destruct Hn. by apply Hsub. }
  split; [apply Hd|]. rewrite SetEquals_elem_of, !Hd. naive_solver.
Qed.

(** X7: the hash does not depend on the order of the slice, so the hash
    of a union depends neither on the order in which Go ranges over the
    map nor on the order of the two arguments. *)
Theorem Hash_order_independent A B
    (rangeKeys' : gset ObjMetadata -> list ObjMetadata) :
  (forall m, rangeKeys' m ≡ₚ elements m) ->
  (A ≡ₚ B -> Hash A = Hash B) /\
  Hash (Union rangeKeys A B) = Hash (Union rangeKeys' B A).
Proof.
  intros Hr'. split; [apply Hash_Permutation|]. apply Hash_Permutation.
  destruct (Union_spec rangeKeys rangeKeys_elements A B) as [H1 N1].
  destruct (Union_spec rangeKeys' Hr' B A) as [H2 N2].
  apply NoDup_Permutation; [done..|]. intros x.
  rewrite <- !(elem_of_list_to_set (C := gset ObjMetadata)), H1, H2. set_solver.
Qed.
End slice_sets_more.

Lemma Contains_Union_SetDiff_witness :
  ObjMetas_Contains (Union elements [id_a] [id_b]) id_b = true /\
  ObjMetas_Contains (SetDiff elements [id_a; id_b] [id_b]) id_b = false.
Proof.
  destruct (Contains_Union_SetDiff elements elements_Permutation_refl [id_a] [id_b] id_b)
    as (_ & H1 & _).
  destruct (Contains_Union_SetDiff elements elements_Permutation_refl [id_a; id_b] [id_b] id_b)
    as (_ & _ & H2).
  split; [rewrite H1 | rewrite H2]; reflexivity.
Defined.

Lemma SetEquals_equivalence_witness :
  SetEquals elements [id_a; id_b; id_a] [id_b; id_a] =
  SetEquals elements [id_b; id_a] [id_a; id_b; id_a].
Proof.
  exact (proj1 (proj2 (proj2 (SetEquals_equivalence elements elements_Permutation_refl
                                [id_a; id_b; id_a] [id_b; id_a] [])))).
Defined.

Lemma SetDiff_empty_witness :
  SetDiff elements [id_a; id_a] [id_b; id_a] = [].
Proof.
  apply (proj1 (SetDiff_empty elements elements_Permutation_refl [id_a; id_a] [id_b; id_a])).
  intros x Hx. apply list_elem_of_further.
  apply elem_of_cons in Hx as [->|Hx]; [apply list_elem_of_here|].
  apply elem_of_cons in Hx as [->|Hx]; [apply list_elem_of_here|].
  by apply not_elem_of_nil in Hx.
Defined.

Lemma Hash_order_independent_witness :
  Hash (Union elements [id_a] [id_b]) = Hash (Union (fun m => reverse (elements m)) [id_b] [id_a]).
Proof.
  refine (proj2 (Hash_order_independent elements elements_Permutation_refl [id_a] [id_b]
                   (fun m => reverse (elements m)) _)).
  intros m. apply reverse_Permutation.
Defined.

(** *** The hash *)

Lemma uint32_range z : 0 <= uint32 z < 2 ^ 32.
Proof. unfold uint32. apply Z.mod_pos_bound. lia. Qed.

Lemma fnv32a_Write_range data : forall h,
  0 <= h < 2 ^ 32 -> 0 <= fnv32a_Write h data < 2 ^ 32.
Proof.
  induction data as [|c data IH]; intros h Hh; [done|].
  cbn [fnv32a_Write]. apply IH, uint32_range.
Qed.

Lemma foldl_fnv32a_range (l : list string) : forall h,
  0 <= h < 2 ^ 32 -> 0 <= foldl fnv32a_Write h l < 2 ^ 32.
Proof.
  induction l as [|s l IH]; intros h Hh; [done|].
  cbn [foldl]. by apply IH, fnv32a_Write_range.
Qed.

Lemma digitValue_digit d : 0 <= d < 16 -> digitValue (digit d) = d.
Proof.
  intros Hd.
  assert (d = 0 \/ d = 1 \/ d = 2 \/ d = 3 \/ d = 4 \/ d = 5 \/ d = 6 \/ d = 7 \/
          d = 8 \/ d = 9 \/ d = 10 \/ d = 11 \/ d = 12 \/ d = 13 \/ d = 14 \/ d = 15)
    as H by lia.
  repeat (destruct H as [->|H]; [reflexivity|]). by subst d.
Qed.

Lemma formatBits_value fuel : forall n acc,
  0 <= n < 16 ^ Z.of_nat fuel ->
  hexValue_from 0 (formatBits fuel n 16 acc) = hexValue_from n acc.
Proof.
  induction fuel as [|fuel IH]; intros n acc Hn.
  - cbn [formatBits]. change (16 ^ Z.of_nat 0) with 1 in Hn. by replace n with 0 by lia.
  - cbn [formatBits].
    assert (0 <= n mod 16 < 16) as Hm by (apply Z.mod_pos_bound; lia).
    pose proof (Z.div_mod n 16 ltac:(lia)) as Hdm.
    destruct (n / 16 =? 0) eqn:Hq.
    + apply Z.eqb_eq in Hq. cbn [hexValue_from]. rewrite digitValue_digit by done.
      f_equal. lia.
    + rewrite IH.
      * cbn [hexValue_from]. rewrite digitValue_digit by done. f_equal. lia.
      * rewrite Nat2Z.inj_succ, Z.pow_succ_r in Hn by lia.
        split; [apply Z.div_pos; lia|]. apply Z.div_lt_upper_bound; lia.
Qed.

Lemma formatBits_isHex fuel : forall n acc,
  0 <= n -> isHex acc = true -> isHex (formatBits fuel n 16 acc) = true.
Proof.
  induction fuel as [|fuel IH]; intros n acc Hn Hacc; [done|].
  cbn [formatBits].
  assert (0 <= n mod 16 < 16) as Hm by (apply Z.mod_pos_bound; lia).
  assert (isHex (String (digit (n mod 16)) acc) = true) as Hacc'.
  { cbn [isHex]. rewrite digitValue_digit, Hacc by done.
    rewrite andb_true_r. apply Z.leb_le. lia. }
  destruct (n / 16 =? 0); [done|]. apply IH; [|done]. apply Z.div_pos; lia.
Qed.

Lemma formatBits_length fuel : forall n acc k,
  0 <= n < 16 ^ Z.of_nat k -> (1 <= k <= fuel)%nat ->
  (String.length acc < String.length (formatBits fuel n 16 acc) <= String.length acc + k)%nat.
Proof.
  induction fuel as [|fuel IH]; intros n acc k Hn Hk; [lia|].
  cbn [formatBits]. destruct (n / 16 =? 0) eqn:Hq.
  - cbn [String.length]. lia.
  - apply Z.eqb_neq in Hq. destruct k as [|k]; [lia|].
    rewrite Nat2Z.inj_succ, Z.pow_succ_r in Hn by lia.
    assert (0 <= n / 16 < 16 ^ Z.of_nat k) as Hn'.
    { split; [apply Z.div_pos; lia|]. apply Z.div_lt_upper_bound; lia. }
    assert (1 <= k)%nat as Hk1.
    { destruct k; [|lia]. change (16 ^ Z.of_nat 0) with 1 in Hn'. lia. }
    specialize (IH (n / 16) (String (digit (n mod 16)) acc) k Hn' ltac:(lia)).
    cbn [String.length] in IH. lia.
Qed.

(** X6: [Hash] never returns an error.  Its result is the 32-bit FNV-1a
    hash of the sorted serialised forms, written with one to eight
    lower-case hexadecimal digits, from which the hash is read back. *)
Theorem Hash_hex objs :
  exists n, 0 <= n < 2 ^ 32 /\
    calcHash (map String_ objs) = Ok n /\
    Hash objs = Ok (FormatUint n 16) /\
    isHex (FormatUint n 16) = true /\
    hexValue (FormatUint n 16) = n /\
    (1 <= String.length (FormatUint n 16) <= 8)%nat.
Proof.
  exists (foldl fnv32a_Write offset32 (sort_Strings (map String_ objs))).
  assert (0 <= foldl fnv32a_Write offset32 (sort_Strings (map String_ objs)) < 2 ^ 32) as Hn.
  { apply foldl_fnv32a_range. by compute. }
  split; [done|]. split; [done|]. split; [done|]. unfold FormatUint, hexValue.
  split; [apply formatBits_isHex; [apply Hn | reflexivity]|]. split.
  - rewrite formatBits_value; [done|]. change (16 ^ Z.of_nat 64) with (2 ^ 256).
    assert (2 ^ 32 < 2 ^ 256) by (by apply Z.pow_lt_mono_r). lia.
  - pose proof (formatBits_length 64 _ "" 8%nat Hn ltac:(lia)) as H.
    cbn [String.length] in H. lia.
Qed.

End object_more.


(** * More facts on pkg/apply/task *)

Module task_more.
Import object task task_facts.

Section apply_task_more.
Variables (Unstructured Info RuntimeObject UID error applyOptions : Type).
Variable Error : error -> string.
Variable UnstructuredToObjMetaOrDie : Unstructured -> ObjMetadata.
Variable GroupKindOf : Unstructured -> GroupKind.
Variable InfoObject : Info -> option RuntimeObject.
Variable Accessor : RuntimeObject -> result error (UID * Z).
Variable applyOptionsFactoryFunc :
  ServerSideOptions -> DryRunStrategy -> result error applyOptions.
Variable Run : applyOptions -> Info -> Unstructured -> Info * option error.

Local Abbreviation ApplyTask := (ApplyTask Unstructured Info error).
Local Abbreviation Action := (Action Unstructured Info UID error applyOptions).
Local Abbreviation Event := (Event Unstructured error).
Local Abbreviation filter_loop := (filter_loop Unstructured error).
Local Abbreviation mutate_loop := (mutate_loop Unstructured error).
Local Abbreviation filter := (filter Unstructured Info error UnstructuredToObjMetaOrDie).
Local Abbreviation mutate := (mutate Unstructured Info error UnstructuredToObjMetaOrDie).
Local Abbreviation clientSideApply :=
  (clientSideApply Unstructured Info UID error applyOptions applyOptionsFactoryFunc Run).
Local Abbreviation sendBatchApplyEvents :=
  (sendBatchApplyEvents Unstructured Info UID error applyOptions UnstructuredToObjMetaOrDie).
Local Abbreviation applyObject :=
  (applyObject Unstructured Info RuntimeObject UID error Error applyOptions
     UnstructuredToObjMetaOrDie GroupKindOf InfoObject Accessor applyOptionsFactoryFunc Run).
Local Abbreviation Start :=
  (Start Unstructured Info RuntimeObject UID error Error applyOptions
     UnstructuredToObjMetaOrDie GroupKindOf InfoObject Accessor applyOptionsFactoryFunc Run).
Local Abbreviation createApplyEvent := (createApplyEvent Unstructured error).
Local Abbreviation createApplyFailedEvent := (createApplyFailedEvent Unstructured error).
Local Abbreviation events := (events Unstructured Info UID error applyOptions).
Local Abbreviation failures := (failures Unstructured Info UID error applyOptions).
Local Abbreviation idOf := UnstructuredToObjMetaOrDie.
Local Abbreviation filtersPass := (filtersPass Unstructured error).
Local Abbreviation mutatorsSucceed := (mutatorsSucceed Unstructured error).
Local Abbreviation runMutators := (runMutators Unstructured error).
Local Abbreviation streamErrorOnAPIService :=
  (streamErrorOnAPIService Unstructured Info error Error GroupKindOf).
Local Abbreviation applied :=
  (applied Unstructured Info RuntimeObject UID error applyOptions InfoObject Accessor).

Implicit Types (a : ApplyTask) (ao : applyOptions) (obj : Unstructured).

(** The identity of the apply event carried by an event. *)
Local Abbreviation eventId := (fun e : Event => Identifier _ _ (ApplyEvent_ _ _ e)).

Lemma events_cons (x : Action) tr :
  events (x :: tr) = match x with SendEvent e => e :: events tr | _ => events tr end.
Proof. by destruct x. Qed.

Lemma failures_cons (x : Action) tr :
  failures (x :: tr) =
  match x with CaptureResourceFailure id => id :: failures tr | _ => failures tr end.
Proof. by destruct x. Qed.

Lemma events_nil : events [] = [].
Proof. reflexivity. Qed.

Lemma failures_nil : failures [] = [].
Proof. reflexivity. Qed.

Ltac trace_simpl :=
  repeat (first [ rewrite events_app | rewrite failures_app
                | rewrite events_cons | rewrite failures_cons
                | rewrite events_nil | rewrite failures_nil ];
          cbv beta iota).

(** *** When the options cannot be created *)

Lemma sendBatchApplyEvents_trace (objects : list Unstructured) err :
  events (sendBatchApplyEvents objects err) =
    (fun obj => mkEvent ApplyType
                  (mkApplyEvent (idOf obj) ZeroOperation None
                     (Some (InitializeApplyOptionError err)))) <$> objects /\
  failures (sendBatchApplyEvents objects err) = idOf <$> objects /\
  forall ao info obj, CallRun ao info obj ∉ sendBatchApplyEvents objects err.
Proof.
  unfold task.sendBatchApplyEvents.
  induction objects as [|o objects (IH1 & IH2 & IH3)]; cbn [flat_map fmap list_fmap].
  - repeat split. intros ao info obj. apply not_elem_of_nil.
  - trace_simpl. rewrite IH1, IH2.
    repeat split. intros ao info obj. rewrite elem_of_app, !elem_of_cons.
    intros [[H|[H|H]]|H]; [done..|by apply not_elem_of_nil in H|]. by apply (IH3 ao info obj).
Qed.

(** X8: when the factory cannot create the apply options, every object of
    the task has one apply event sent for it, with its identity, no
    operation, no resource and the error of the factory wrapped as an
    initialisation error, and is captured as a failure, in the order of
    the objects; no object is applied, and the task result is sent
    last. *)
Theorem Start_factory_failure a err :
  applyOptionsFactoryFunc (ServerSide a) (Strategy a) = Err err ->
  events (Start a) =
    (fun obj => mkEvent ApplyType
                  (mkApplyEvent (idOf obj) ZeroOperation None
                     (Some (InitializeApplyOptionError err))))
      <$> Objects a /\
  failures (Start a) = idOf <$> Objects a /\
  (forall ao info obj, CallRun ao info obj ∉ Start a) /\
  last (Start a) = Some SendTaskResult.
Proof.
  intros Hf. destruct (sendBatchApplyEvents_trace (Objects a) err) as (H1 & H2 & H3).
  unfold task.Start. rewrite Hf.
  trace_simpl. rewrite H1, H2, !app_nil_r. repeat split.
  - intros ao info obj. rewrite elem_of_app, elem_of_cons, elem_of_app, elem_of_cons.
    rewrite (elem_of_nil (CallRun ao info obj)).
    intros [[H|H]|[H|[H|H]]]; [done..| |done|done]. by apply (H3 ao info obj).
  - by rewrite !app_assoc, last_snoc.
Qed.

(** *** The filters and the mutators *)

(** X11: the filters let an object pass exactly when every filter of the
    task returns "not filtered" without an error; and when [filter]
    returns an error it also returns "filtered", the error being that of
    the first filter that did not let the object pass, wrapped with the
    identity of the object and the name of that filter. *)
Theorem filter_passes_iff a obj :
  (filter a obj = (false, None) <->
   Forall (fun f => exists r, Filter f obj = (false, r, None)) (Filters a)) /\
  (forall filtered e, filter a obj = (filtered, Some e) ->
   filtered = true /\
   exists pre f post b r e',
     Filters a = pre ++ f :: post /\
     Forall (fun f => exists r, Filter f obj = (false, r, None)) pre /\
     Filter f obj = (b, r, Some e') /\
     e = FilterFailed (idOf obj) (FilterName f) e').
Proof.
  unfold task.filter. generalize (idOf obj) as id. intros id.
  induction (Filters a) as [|f fs [IH1 IH2]]; cbn [task.filter_loop].
  - split; [split; [constructor | done] | done].
  - assert (forall b r e', Filter f obj = (b, r, Some e') ->
            ((true, Some (FilterFailed id (FilterName f) e')) = (false, None) <->
             Forall (fun f => exists r, Filter f obj = (false, r, None)) (f :: fs)) /\
            (forall filtered e,
               (true, Some (FilterFailed id (FilterName f) e')) = (filtered, Some e) ->
               filtered = true /\
               exists pre f0 post b r e',
                 f :: fs = pre ++ f0 :: post /\
                 Forall (fun f => exists r, Filter f obj = (false, r, None)) pre /\
                 Filter f0 obj = (b, r, Some e') /\
                 e = FilterFailed id (FilterName f0) e')) as Herr.
    { intros b r e' Hf. split.
      - split; [done|]. intros H. apply Forall_cons in H as [[r' H] _]. congruence.
      - intros filtered e [= <- <-]. split; [done|].
        exists [], f, fs, b, r, e'. repeat split; [constructor | done]. }
    destruct (Filter f obj) as [[[] r] [e'|]] eqn:Hf; cbv beta iota.
    + by apply (Herr true r e').
    + split; [|done]. split; [done|].
      intros H. apply Forall_cons in H as [[r' H] _]. congruence.
    + by apply (Herr false r e').
    + split.
      * rewrite IH1, Forall_cons. split; [by eauto | by intros [_ ?]].
      * intros filtered e H. destruct (IH2 filtered e H)
          as (-> & pre & f0 & post & b0 & r0 & e' & -> & Hpre & Hf0 & ->).
        split; [done|]. exists (f :: pre), f0, post, b0, r0, e'.
        repeat split; [|done]. apply Forall_cons. eauto.
Qed.

(** X12: the mutators run in order, each on the object as the mutators
    before it left it.  [mutate] returns no error exactly when every
    mutator of the task returns none, and the object is then the one the
    mutators leave, one after the other; it returns an error exactly when
    a mutator returns one after the mutators before it ran without one:
    the error is that of this mutator, wrapped with the identity of the
    object and the name of the mutator, the mutators after it are not
    run, and the object is as this mutator left it.  So running a list of
    mutators followed by another is running the first and, if none of its
    mutators failed, the second on the resulting object. *)
Theorem mutate_in_order a obj :
  (forall obj', mutate a obj = (obj', None) <->
     mutatorsSucceed (Mutators a) obj /\ obj' = runMutators (Mutators a) obj) /\
  (forall obj' err, mutate a obj = (obj', Some err) <->
     exists pre m post mutated reason e,
       Mutators a = pre ++ m :: post /\ mutatorsSucceed pre obj /\
       Mutate m (runMutators pre obj) = (obj', (mutated, reason, Some e)) /\
       err = MutateFailed (idOf obj) (MutatorName m) e) /\
  (forall id (ms1 ms2 : list (Mutator Unstructured error)),
     mutate_loop id (ms1 ++ ms2) obj =
     match mutate_loop id ms1 obj with
     | (obj1, None) => mutate_loop id ms2 obj1
     | (obj1, Some e) => (obj1, Some e)
     end).
Proof.
  split; [|split].
  - intros obj'. apply mutate_loop_succeed.
  - intros obj' err. unfold task.mutate. generalize (idOf obj) as id. intros id. split.
    + revert obj. induction (Mutators a) as [|m ms IH]; intros obj; cbn [task.mutate_loop]; [done|].
      destruct (Mutate m obj) as [o1 [[b r] [e|]]] eqn:Hm.
      * intros [= <- <-]. by exists [], m, ms, b, r, e.
      * intros H. apply IH in H as (pre & m' & post & b' & r' & e & -> & Hpre & Hm' & ->).
        exists (m :: pre), m', post, b', r', e.
        cbn [task.mutatorsSucceed task.runMutators foldl]. rewrite Hm. cbn [fst snd].
        repeat split; [by eauto | done..].
    + intros (pre & m & post & b & r & e & -> & Hpre & Hm & ->).
      rewrite (mutate_loop_app_succeed _ _ _ _ _ _ Hpre). cbn [task.mutate_loop].
      by rewrite Hm.
  - intros id ms1 ms2. revert obj.
    induction ms1 as [|m ms1 IH]; intros obj; cbn [app task.mutate_loop].
    + by destruct (mutate_loop id ms2 obj).
    + destruct (Mutate m obj) as [obj' [[b r] [e|]]]; [done|]. apply IH.
Qed.

(** *** What the loop does for one object *)

(** The three ways in which the body of the loop can end. *)
Lemma applyObject_cases a ao obj :
  (exists e, applyObject a ao obj = [SendEvent e; CaptureResourceFailure (idOf obj)] /\
             eventId e = idOf obj /\ Type_ _ _ e = ApplyType) \/
  exists info obj' tr,
    BuildInfo a obj = Ok info /\ filter a obj = (false, None) /\
    mutate a obj = (obj', None) /\
    (forall x, x ∈ tr -> x = CallFactory clientSideOptions (Strategy a) \/
                         exists ao' info', x = CallRun ao' info' obj') /\
    ((exists e, applyObject a ao obj =
         CallRun ao info obj' :: tr ++ [SendEvent e; CaptureResourceFailure (idOf obj)] /\
         eventId e = idOf obj /\ Type_ _ _ e = ApplyType) \/
     applyObject a ao obj = CallRun ao info obj' :: tr \/
     exists uid gen,
       applyObject a ao obj = CallRun ao info obj' :: tr ++ [ResourceApplied (idOf obj) uid gen]).
Proof.
  unfold task.applyObject.
  destruct (BuildInfo a obj) as [info|e0]; [|left; eauto].
  destruct (filter a obj) as [[] [e0|]]; [left; eauto..|].
  destruct (mutate a obj) as [obj' [e0|]]; [left; eauto|].
  right. exists info, obj'.
  destruct (Run ao info obj') as [info1 [e|]] eqn:Hrun.
  - destruct (ServerSideApply (ServerSide a) && task.isAPIService _ GroupKindOf obj' &&
              task.isStreamError _ Error e).
    + unfold task.clientSideApply.
      destruct (applyOptionsFactoryFunc clientSideOptions (Strategy a)) as [ao'|e1].
      * destruct (Run ao' info1 obj') as [info2 [e2|]] eqn:Hrun2.
        -- exists [CallFactory clientSideOptions (Strategy a); CallRun ao' info1 obj'].
           repeat split; [|left; eexists; repeat split].
           intros x. rewrite !elem_of_cons. intros [->|[->|H]]; [by left|right; eauto|].
           by apply not_elem_of_nil in H.
        -- exists [CallFactory clientSideOptions (Strategy a); CallRun ao' info1 obj'].
           repeat split.
           { intros x. rewrite !elem_of_cons. intros [->|[->|H]]; [by left|right; eauto|].
             by apply not_elem_of_nil in H. }
           destruct (InfoObject info2) as [o|]; [|right; left; by rewrite app_nil_r].
           destruct (Accessor o) as [[uid gen]|]; [|right; left; by rewrite app_nil_r].
           right; right. by exists uid, gen.
      * exists [CallFactory clientSideOptions (Strategy a)].
        repeat split; [|left; eexists; repeat split].
        intros x. rewrite !elem_of_cons. intros [->|H]; [by left|].
        by apply not_elem_of_nil in H.
    + exists []. repeat split; [|left; eexists; repeat split].
      intros x H. by apply not_elem_of_nil in H.
  - exists []. repeat split; [intros x H; by apply not_elem_of_nil in H|].
    destruct (InfoObject info1) as [o|]; [|by right; left].
    destruct (Accessor o) as [[uid gen]|]; [|by right; left].
    right; right. by exists uid, gen.
Qed.




(** X10: an object is handed to the cluster exactly when its info was
    built, no filter kept it back and no mutator failed; every call of
    [Run] for the object, the first one and the one of the client-side
    fallback, is made on the object as the mutators left it, and the first
    thing done for such an object is the call of [Run] with the options of
    the task. *)
Theorem Run_called_iff a ao obj :
  ((exists ao' info' obj', CallRun ao' info' obj' ∈ applyObject a ao obj) <->
   exists info obj',
     BuildInfo a obj = Ok info /\ filter a obj = (false, None) /\
     mutate a obj = (obj', None)) /\
  (forall info obj',
     BuildInfo a obj = Ok info -> filter a obj = (false, None) ->
     mutate a obj = (obj', None) ->
     head (applyObject a ao obj) = Some (CallRun ao info obj') /\
     forall ao' info' obj'', CallRun ao' info' obj'' ∈ applyObject a ao obj -> obj'' = obj').
Proof.
  destruct (applyObject_cases a ao obj)
    as [(e & Htr & _)|(info & obj' & tr & Hi & Hf & Hm & Htr & H)].
  - split.
    + split.
      * intros (ao' & info' & obj' & Hin). rewrite Htr, !elem_of_cons in Hin.
        destruct Hin as [Hin|[Hin|Hin]]; [done..|]. by apply not_elem_of_nil in Hin.
      * intros (info & obj' & Hi & Hf & Hm). revert Htr. unfold task.applyObject.
        rewrite Hi, Hf, Hm. destruct (Run ao info obj') as [info1 [e1|]].
        -- by destruct (_ && _ && _); [destruct (clientSideApply _ _ _) as [[? ?] [?|]]|].
        -- done.
    + intros info obj' Hi Hf Hm. revert Htr. unfold task.applyObject.
      rewrite Hi, Hf, Hm. destruct (Run ao info obj') as [info1 [e1|]].
      * by destruct (_ && _ && _); [destruct (clientSideApply _ _ _) as [[? ?] [?|]]|].
      * done.
  - assert (head (applyObject a ao obj) = Some (CallRun ao info obj')) as Hhd
      by (by destruct H as [(e & Heq & _)|[Heq|(uid & gen & Heq)]]; rewrite Heq).
    assert (forall ao' info' obj'',
              CallRun ao' info' obj'' ∈ applyObject a ao obj -> obj'' = obj') as Hobj.
    { intros ao' info' obj'' Hin.
      assert ((CallRun ao' info' obj'' : Action) = CallRun ao info obj' \/
              CallRun ao' info' obj'' ∈ tr)
        as [Heq|Hin'].
      { destruct H as [(e & Heq & _)|[Heq|(uid & gen & Heq)]]; rewrite Heq in Hin;
          rewrite elem_of_cons in Hin; try rewrite elem_of_app in Hin;
          rewrite ?elem_of_cons in Hin; destruct_or?; eauto; try done;
          by apply not_elem_of_nil in Hin. }
      - by injection Heq.
      - destruct (Htr _ Hin') as [Heq|(? & ? & Heq)]; [done|]. by injection Heq. }
    split.
    + split; [by eauto|]. intros _. exists ao, info, obj'.
      destruct (applyObject a ao obj) as [|x l]; [done|]. injection Hhd as ->.
      apply list_elem_of_here.
    + intros info0 obj0 Hi0 Hf0 Hm0. rewrite Hi in Hi0. rewrite Hm in Hm0.
      injection Hi0 as <-. injection Hm0 as <-. done.
Qed.

End apply_task_more.

Lemma Start_factory_failure_witness :
  events ObjMetadata ObjMetadata string string ServerSideOptions
    (Start ObjMetadata ObjMetadata unit string string (fun e => e) ServerSideOptions
       (fun obj => obj) GK (fun _ => Some tt) fakeAccessor
       (fun _ _ => Err "no discovery client") fakeRun fakeTask) =
  (fun obj => mkEvent ApplyType
                (mkApplyEvent obj ZeroOperation None
                   (Some (InitializeApplyOptionError "no discovery client"))))
    <$> [deployment; unknownObject; foreignObject; apiService].
Proof.
  apply (Start_factory_failure ObjMetadata ObjMetadata unit string string ServerSideOptions
           (fun e => e) (fun obj => obj) GK (fun _ => Some tt) fakeAccessor
           (fun _ _ => Err "no discovery client") fakeRun fakeTask "no discovery client").
  reflexivity.
Defined.


End task_more.


(** * More facts on pkg/apply/mutator *)

Module mutator_more.
Import object mutator.

Section apply_time_mutator_more.
Variable float64 : Type.
Variable Sprintf_v : Value float64 -> string.
Variable json_Marshal : Value float64 -> result (error float64) string.
Variable kyq_Get : Object float64 -> string -> result (error float64) (Value float64 * bool).
Variable kyq_Set : Object float64 -> string -> Value float64 -> Object float64 * option (error float64).
Variable HasAnnotation : Object float64 -> bool.
Variable ReadAnnotation : Object float64 -> result (error float64) (list FieldSubstitution).
Variable NewResourceReference : Object float64 -> ResourceReference.
Variable RefEqual : ResourceReference -> ResourceReference -> bool.
Variable ResourceReferenceToObjMeta : ResourceReference -> result (error float64) ObjMetadata.
Variable Mapping : Type.
Variable RESTMapping : GroupKind -> option string -> result (error float64) Mapping.
Variable clusterGet : Mapping -> string -> string -> result (error float64) (Object float64).

Local Abbreviation getObject :=
  (getObject float64 ResourceReferenceToObjMeta Mapping RESTMapping clusterGet).
Local Abbreviation substitute :=
  (substitute float64 Sprintf_v json_Marshal kyq_Get kyq_Set ResourceReferenceToObjMeta
     Mapping RESTMapping clusterGet).
Local Abbreviation substituteAll :=
  (substituteAll float64 Sprintf_v json_Marshal kyq_Get kyq_Set ResourceReferenceToObjMeta
     Mapping RESTMapping clusterGet).
Local Abbreviation Mutate :=
  (Mutate float64 Sprintf_v json_Marshal kyq_Get kyq_Set HasAnnotation ReadAnnotation
     NewResourceReference RefEqual ResourceReferenceToObjMeta Mapping RESTMapping clusterGet).
Local Abbreviation ResourceCache := (option (gmap ObjMetadata (Object float64))).

(** A cache grows: where there is no cache none is created, and an object
    held by the cache is neither removed nor replaced. *)
Local Abbreviation grows := (fun cache cache' : ResourceCache =>
  (cache = None -> cache' = None) /\
  (forall m, cache = Some m -> exists m', cache' = Some m' /\ m ⊆ m')).

Lemma grows_refl (cache : ResourceCache) : grows cache cache.
Proof. split; [done|]. intros m ->. by exists m. Qed.

Lemma grows_trans (c1 c2 c3 : ResourceCache) : grows c1 c2 -> grows c2 c3 -> grows c1 c3.
Proof.
  intros [H1 H2] [H3 H4]. split; [by auto|]. intros m Hm.
  destruct (H2 m Hm) as (m' & Hm' & Hsub). destruct (H4 m' Hm') as (m'' & Hm'' & Hsub').
  exists m''. split; [done|]. by etrans.
Qed.

(** *** getObject *)

Lemma getObject_grows cache ref cache' r :
  getObject cache ref = (cache', r) ->
  grows cache cache' /\ (is_Err r -> cache' = cache).
Proof.
  unfold mutator.getObject.
  destruct (ResourceReferenceToObjMeta ref) as [id|e].
  2:{ intros [= <- <-]. split; [apply grows_refl | done]. }
  assert (forall c0 : ResourceCache,
    match (if decide (RefVersion ref = "")
           then RESTMapping (mkGroupKind (RefGroup ref) (RefKind ref)) None
           else RESTMapping (mkGroupKind (RefGroup ref) (RefKind ref)) (Some (RefVersion ref)))
    with
    | Ok mapping =>
        match clusterGet mapping (RefNamespace ref) (RefName ref) with
        | Ok obj => ((fun c : gmap ObjMetadata (Object float64) => <[id := obj]> c) <$> c0,
                     Ok obj)
        | Err e => (c0, Err (RetrieveFailed e))
        end
    | Err e => (c0, Err (MappingFailed e))
    end = (cache', r) ->
    (c0 = None \/ exists m, c0 = Some m /\ m !! id = None) ->
    grows c0 cache' /\ (is_Err r -> cache' = c0)) as Hmiss.
  { intros c0. destruct (if decide (RefVersion ref = "") then _ else _) as [mapping|e].
    2:{ intros [= <- <-]. split; [apply grows_refl | done]. }
    destruct (clusterGet mapping _ _) as [obj|e].
    2:{ intros [= <- <-]. split; [apply grows_refl | done]. }
    intros [= <- <-] Hc0. split; [|done]. destruct Hc0 as [->|(m & -> & Hm)]; [apply grows_refl|].
    split; [done|]. intros m0 [= <-]. exists (<[id := obj]> m). split; [done|].
    by apply insert_subseteq. }
  destruct cache as [m|]; cbn [mbind option_bind].
  - destruct (m !! id) as [obj|] eqn:Hm.
    + intros [= <- <-]. split; [apply grows_refl | done].
    + intros H. apply Hmiss; [done|]. right. by exists m.
  - intros H. apply Hmiss; [done|]. by left.
Qed.

(** X14: after a lookup that returned an object, for a mutator with a
    cache, the object is served from the cache: looking the same
    reference up again returns the same object and leaves the cache as it
    is, whatever the mapper and the cluster would answer. *)
Theorem getObject_cached m ref cache' obj :
  getObject (Some m) ref = (cache', Ok obj) ->
  forall Mapping' (RESTMapping' : GroupKind -> option string -> result (error float64) Mapping')
         (clusterGet' : Mapping' -> string -> string -> result (error float64) (Object float64)),
    mutator.getObject float64 ResourceReferenceToObjMeta Mapping' RESTMapping' clusterGet'
      cache' ref = (cache', Ok obj).
Proof.
  unfold mutator.getObject.
  destruct (ResourceReferenceToObjMeta ref) as [id|e]; [|done]. cbn [mbind option_bind].
  destruct (m !! id) as [o|] eqn:Hm.
  - intros [= <- <-] Mapping' RESTMapping' clusterGet'. cbn [mbind option_bind].
    by rewrite Hm.
  - destruct (if decide (RefVersion ref = "") then _ else _) as [mapping|e]; [|done].
    destruct (clusterGet mapping _ _) as [o|e]; [|done].
    intros [= <- <-] Mapping' RESTMapping' clusterGet'. cbn [fmap option_fmap option_map mbind option_bind].
    by rewrite lookup_insert_eq.
Qed.

(** *** Mutate *)

Lemma substitute_grows targetRef cache obj sub cache' obj' r :
  substitute targetRef cache obj sub = (cache', obj', r) -> grows cache cache'.
Proof.
  unfold mutator.substitute.
  destruct (getObject cache (SourceRef sub)) as [c1 [src|e]] eqn:Hget;
    apply getObject_grows in Hget as [Hg _].
  2:{ by intros [= <- _ _]. }
  destruct (readFieldValue _ _ obj _) as [[tv ?]|e]; [|by intros [= <- _ _]].
  destruct (readFieldValue _ _ src _) as [[sv []]|e]; [|by intros [= <- _ _]..].
  destruct (newValue _ _ _ _ _ _ _) as [nv|e]; [|by intros [= <- _ _]].
  by destruct (writeFieldValue _ _ obj _ nv) as [o [e|]]; intros [= <- _ _].
Qed.

Lemma substituteAll_grows targetRef subs : forall cache obj b s cache' obj' r,
  substituteAll targetRef cache obj subs b s = (cache', obj', r) -> grows cache cache'.
Proof.
  induction subs as [|sub subs IH]; intros cache obj b s cache' obj' r; cbn [mutator.substituteAll].
  - intros [= <- _ _]. apply grows_refl.
  - destruct (substitute targetRef cache obj sub) as [[c1 o1] [e|]] eqn:Hs;
      apply substitute_grows in Hs.
    + by intros [= <- _ _].
    + intros H. apply IH in H. by apply (grows_trans cache c1 cache').
Qed.

(** What [substituteAll] reports: the flag and the reason it was given,
    and then, where it reports no error, nothing was done; or the flag
    set, with the reason of the annotation. *)
Lemma substituteAll_reports targetRef subs : forall cache obj b s cache' obj' r,
  substituteAll targetRef cache obj subs b s = (cache', obj', r) ->
  (mutated _ r = b /\ reason _ r = s /\ (err _ r = None -> cache' = cache /\ obj' = obj)) \/
  (mutated _ r = true /\ reason _ r = "resource contained annotation: " +:+ mutation_Annotation).
Proof.
  induction subs as [|sub subs IH]; intros cache obj b s cache' obj' r; cbn [mutator.substituteAll].
  - intros [= <- <- <-]. by left.
  - destruct (substitute targetRef cache obj sub) as [[c1 o1] [e|]].
    + intros [= <- <- <-]. by left.
    + intros H. apply IH in H as [(Hm & Hr & _)|H]; right; [done|exact H].
Qed.

(** X15: [Mutate] only adds to the cache of the mutator: where there is
    no cache none is created, and an object held by the cache is neither
    removed nor replaced, whether the mutation succeeds or fails. *)
Theorem Mutate_cache_grows cache obj cache' obj' r :
  Mutate cache obj = (cache', obj', r) ->
  (cache = None -> cache' = None) /\
  (forall m, cache = Some m -> exists m', cache' = Some m' /\ m ⊆ m').
Proof.
  unfold mutator.Mutate. destruct (negb (HasAnnotation obj)).
  { intros [= <- _ _]. apply grows_refl. }
  destruct (ReadAnnotation obj) as [subs|e]; [|intros [= <- _ _]; apply grows_refl].
  destruct (find _ subs); [intros [= <- _ _]; apply grows_refl|].
  apply substituteAll_grows.
Qed.

(** X16: the self-references are looked for before anything is done: when
    a substitution of the annotation, whichever it is, has the target
    itself as its source, [Mutate] returns the self-reference error for
    the first such substitution, and the object and the cache are as
    before, whatever the other substitutions, the evaluator and the
    cluster are. *)
Theorem Mutate_self_reference cache obj subs sub :
  HasAnnotation obj = true -> ReadAnnotation obj = Ok subs ->
  sub ∈ subs -> RefEqual (NewResourceReference obj) (SourceRef sub) = true ->
  exists pre sub' post,
    subs = pre ++ sub' :: post /\
    Forall (fun s => RefEqual (NewResourceReference obj) (SourceRef s) = false) pre /\
    RefEqual (NewResourceReference obj) (SourceRef sub') = true /\
    Mutate cache obj =
      (cache, obj, mkMutateResult float64 false "" (Some (SelfReference (SourceRef sub')))).
Proof.
  intros Ha Hr Hin Heq. unfold mutator.Mutate. rewrite Ha, Hr. cbn [negb].
  assert (exists pre sub' post,
    subs = pre ++ sub' :: post /\
    Forall (fun s => RefEqual (NewResourceReference obj) (SourceRef s) = false) pre /\
    RefEqual (NewResourceReference obj) (SourceRef sub') = true /\
    find (fun s => RefEqual (NewResourceReference obj) (SourceRef s)) subs = Some sub')
    as (pre & sub' & post & -> & Hpre & Hsub' & Hfind).
  { clear Hr. induction subs as [|s subs IH]; [by apply not_elem_of_nil in Hin|].
    cbn [find]. destruct (RefEqual (NewResourceReference obj) (SourceRef s)) eqn:Hs.
    - exists [], s, subs. repeat split; [constructor | done].
    - apply elem_of_cons in Hin as [->|Hin]; [congruence|].
      destruct (IH Hin) as (pre & sub' & post & -> & Hpre & Hsub' & Hfind).
      exists (s :: pre), sub', post. repeat split; [by constructor | done..]. }
  exists pre, sub', post. by rewrite Hfind.
Qed.

(** X17: what [Mutate] reports: the reason is that of the annotation
    exactly when the object is reported as mutated, and it is empty
    otherwise; when [Mutate] reports neither a mutation nor an error, the
    object and the cache are as before; and an object without the
    annotation is never mutated. *)
Theorem Mutate_reports cache obj cache' obj' r :
  Mutate cache obj = (cache', obj', r) ->
  reason _ r = (if mutated _ r then "resource contained annotation: " +:+ mutation_Annotation
              else "") /\
  (mutated _ r = false -> err _ r = None -> cache' = cache /\ obj' = obj) /\
  (HasAnnotation obj = false ->
   r = mkMutateResult float64 false "" None /\ cache' = cache /\ obj' = obj).
Proof.
  unfold mutator.Mutate. destruct (HasAnnotation obj); cbn [negb].
  2:{ by intros [= <- <- <-]. }
  destruct (ReadAnnotation obj) as [subs|e]; [|by intros [= <- <- <-]].
  destruct (find _ subs); [by intros [= <- <- <-]|].
  intros H. apply substituteAll_reports in H as [(Hm & Hr & Hsame)|[Hm Hr]].
  - rewrite Hm, Hr. split; [done|]. split; [intros _; exact Hsame | done].
  - rewrite Hm, Hr. split; [done|]. split; done.
Qed.
End apply_time_mutator_more.

Lemma getObject_cached_witness :
  getObject Empty_set refToObjMeta unit noMapping noCluster
    (Some {[ mkObjMetadata "test-namespace" "source" (mkGroupKind "" "Secret") := sourceObject ]})
    sourceReference =
  (Some {[ mkObjMetadata "test-namespace" "source" (mkGroupKind "" "Secret") := sourceObject ]},
   Ok sourceObject).
Proof.
  apply (getObject_cached Empty_set refToObjMeta unit anyMapping sourceCluster
           ∅ sourceReference _ sourceObject).
  reflexivity.
Defined.

Lemma Mutate_cache_grows_witness :
  exists m',
    Some (<[ mkObjMetadata "test-namespace" "source" (mkGroupKind "" "Secret") := sourceObject ]>
            (∅ : gmap ObjMetadata Obj)) = Some m' /\
    (∅ : gmap ObjMetadata Obj) ⊆ m'.
Proof.
  refine (proj2 (Mutate_cache_grows Empty_set showValue noJSON fieldGet fieldSet annotated
                   (annotationOf [scenarioSubstitution]) referenceOf sameReference refToObjMeta
                   unit anyMapping sourceCluster (Some ∅) targetObject _
                   [("spec", VMap [("url", VString "https://XYZ/path")])]
                   (mkMutateResult Empty_set true
                      "resource contained annotation: config.kubernetes.io/apply-time-mutation"
                      None) _) ∅ eq_refl).
  reflexivity.
Defined.

Lemma Mutate_self_reference_witness :
  exists pre sub' post,
    [scenarioSubstitution; selfSubstitution] = pre ++ sub' :: post /\
    Forall (fun s => sameReference (referenceOf targetObject) (SourceRef s) = false) pre /\
    sameReference (referenceOf targetObject) (SourceRef sub') = true /\
    scenarioMutate [scenarioSubstitution; selfSubstitution] scenarioCache targetObject =
      (scenarioCache, targetObject,
       mkMutateResult Empty_set false "" (Some (SelfReference (SourceRef sub')))).
Proof.
  apply (Mutate_self_reference Empty_set showValue noJSON fieldGet fieldSet annotated
           (annotationOf [scenarioSubstitution; selfSubstitution]) referenceOf sameReference
           refToObjMeta unit noMapping noCluster scenarioCache targetObject
           [scenarioSubstitution; selfSubstitution] selfSubstitution).
  - reflexivity.
  - reflexivity.
  - apply list_elem_of_further, list_elem_of_here.
  - reflexivity.
Defined.

Lemma Mutate_reports_witness :
  "resource contained annotation: config.kubernetes.io/apply-time-mutation" =
  (if true then "resource contained annotation: " +:+ mutation_Annotation else "").
Proof.
  refine (proj1 (Mutate_reports Empty_set showValue noJSON fieldGet fieldSet annotated
                   (annotationOf [scenarioSubstitution]) referenceOf sameReference refToObjMeta
                   unit noMapping noCluster scenarioCache targetObject scenarioCache
                   [("spec", VMap [("url", VString "https://XYZ/path")])]
                   (mkMutateResult Empty_set true
                      "resource contained annotation: config.kubernetes.io/apply-time-mutation"
                      None) _)).
  reflexivity.
Defined.

End mutator_more.


(** * Facts on pkg/kyq *)

Module kyq_facts.
Import kyq.

Section kyq_facts.
Variables (Object Value : Type) (nil : Value) (error Node ExpressionNode : Type).
Variable yaml_Marshal : Object -> result error string.
Variable yaml_Unmarshal : string -> result error Value.
Variable yaml_Unmarshal_map : string -> Object -> Object * option error.
Variable json_Marshal : Value -> result error string.
Variable Decode : string -> result error Node.
Variable ParseExpression : string -> result error ExpressionNode.
Variable GetMatchingNodes : string -> Node -> ExpressionNode -> result error (list Node).
Variable PrintResults : list Node -> string * option error.

Local Abbreviation evaluateStream :=
  (evaluateStream error Node ExpressionNode Decode GetMatchingNodes PrintResults).
Local Abbreviation evaluateYaml :=
  (evaluateYaml error Node ExpressionNode Decode ParseExpression GetMatchingNodes PrintResults).
Local Abbreviation Get :=
  (Get Object Value nil error Node ExpressionNode yaml_Marshal yaml_Unmarshal Decode
     ParseExpression GetMatchingNodes PrintResults).
Local Abbreviation Set_ :=
  (Set_ Object Value error Node ExpressionNode yaml_Marshal yaml_Unmarshal_map json_Marshal
     Decode ParseExpression GetMatchingNodes PrintResults).

(** The evaluation reports a match only when the expression was parsed,
    the input decoded, and the navigator returned nodes, which were then
    printed. *)
Lemma evaluateYaml_found yamlBytes expression output err :
  evaluateYaml yamlBytes expression = (output, true, err) ->
  exists node input nodes,
    ParseExpression expression = Ok node /\ Decode yamlBytes = Ok input /\
    GetMatchingNodes "object" input node = Ok nodes /\ nodes <> [] /\
    PrintResults nodes = (output, err).
Proof.
  unfold kyq.evaluateYaml, kyq.evaluateStream.
  destruct (ParseExpression expression) as [node|e] eqn:Hpe; [|done].
  destruct (Decode yamlBytes) as [input|e] eqn:Hd; [|done].
  destruct (GetMatchingNodes "object" input node) as [nodes|e] eqn:Hm; [|done].
  destruct nodes as [|n nodes]; [done|]. cbn [length Nat.eqb negb].
  destruct (PrintResults (n :: nodes)) as [out [e|]] eqn:Hp; intros [= <- <-];
    by exists node, input, (n :: nodes).
Qed.

Lemma evaluateYaml_no_match yamlBytes expression node input :
  ParseExpression expression = Ok node -> Decode yamlBytes = Ok input ->
  GetMatchingNodes "object" input node = Ok [] ->
  evaluateYaml yamlBytes expression = ("", false, None).
Proof.
  intros Hp Hd Hm. unfold kyq.evaluateYaml, kyq.evaluateStream. by rewrite Hp, Hd, Hm.
Qed.

(** X18: [Get] reports a value as found only together with no error, and
    only when the expression matched a node of the object as YAML: the
    value is then the printed match read back.  In every other case the
    value is nil. *)
Theorem Get_results obj expression value found err :
  Get obj expression = (value, found, err) ->
  (found = true -> err = None) /\
  (found = false -> value = nil) /\
  (found = true ->
   exists yamlBytes node input nodes output,
     yaml_Marshal obj = Ok yamlBytes /\ ParseExpression expression = Ok node /\
     Decode yamlBytes = Ok input /\
     GetMatchingNodes "object" input node = Ok nodes /\ nodes <> [] /\
     PrintResults nodes = (output, None) /\ yaml_Unmarshal output = Ok value).
Proof.
  unfold kyq.Get. destruct (yaml_Marshal obj) as [yamlBytes|e] eqn:Hy; [|by intros [= <- <- <-]].
  destruct (evaluateYaml yamlBytes expression) as [[output []] [e|]] eqn:He;
    [by intros [= <- <- <-]| |by intros [= <- <- <-]..].
  destruct (yaml_Unmarshal output) as [result|e] eqn:Hu; [|by intros [= <- <- <-]].
  intros [= <- <- <-]. split; [done|]. split; [done|]. intros _.
  apply evaluateYaml_found in He as (node & input & nodes & ? & ? & ? & ? & ?).
  by exists yamlBytes, node, input, nodes, output.
Qed.

(** X19: [Set] evaluates the expression [(expression) = json] on the
    object as YAML.  When no node matches it returns no error and the
    object is as before; and the object is changed by nothing but the
    final reading of the printed result into it: when an earlier step
    fails, the object is as before. *)
Theorem Set_changes obj expression value :
  (forall yamlBytes jsonBytes node input,
     yaml_Marshal obj = Ok yamlBytes -> json_Marshal value = Ok jsonBytes ->
     ParseExpression ("(" +:+ expression +:+ ") = " +:+ jsonBytes) = Ok node ->
     Decode yamlBytes = Ok input -> GetMatchingNodes "object" input node = Ok [] ->
     Set_ obj expression value = (obj, None)) /\
  (forall obj' err, Set_ obj expression value = (obj', err) ->
     obj' = obj \/
     exists yamlBytes jsonBytes node input nodes output,
       yaml_Marshal obj = Ok yamlBytes /\ json_Marshal value = Ok jsonBytes /\
       ParseExpression ("(" +:+ expression +:+ ") = " +:+ jsonBytes) = Ok node /\
       Decode yamlBytes = Ok input /\
       GetMatchingNodes "object" input node = Ok nodes /\ nodes <> [] /\
       PrintResults nodes = (output, None) /\
       yaml_Unmarshal_map output obj = (obj', err)).
Proof.
  unfold kyq.Set_, assignment. split.
  - intros yamlBytes jsonBytes node input -> -> Hp Hd Hm.
    by rewrite (evaluateYaml_no_match _ _ node input).
  - intros obj' err.
    destruct (yaml_Marshal obj) as [yamlBytes|e] eqn:Hy; [|intros [= <- _]; by left].
    destruct (json_Marshal value) as [jsonBytes|e] eqn:Hj; [|intros [= <- _]; by left].
    destruct (evaluateYaml yamlBytes _) as [[output []] [e|]] eqn:He;
      [intros [= <- _]; by left| |intros [= <- _]; by left..].
    intros Hu. right.
    apply evaluateYaml_found in He as (node & input & nodes & ? & ? & ? & ? & ?).
    by exists yamlBytes, jsonBytes, node, input, nodes, output.
Qed.
End kyq_facts.

Lemma Get_results_witness :
  exists yamlBytes node input nodes output,
    yamlBytes = "pod-name" /\ node = "." /\ input = yamlBytes /\
    scalarMatch "object" input node = Ok nodes /\ nodes <> [] /\
    scalarPrint nodes = (output, None) /\ output = "pod-name".
Proof.
  destruct (Get_results string string "" string string string
              (fun obj => Ok obj) (fun s => Ok s) (fun s => Ok s) (fun e => Ok e)
              scalarMatch scalarPrint "pod-name" "." "pod-name" true None eq_refl)
    as (_ & _ & H).
  destruct (H eq_refl) as (y & node & input & nodes & output & Hy & Hn & Hi & Hm & Hne & Hp & Hu).
  exists y, node, input, nodes, output.
  injection Hy as <-. injection Hn as <-. injection Hi as <-. injection Hu as ->.
  repeat split; assumption.
Defined.

End kyq_facts.

(** * Facts on pkg/object/dependson *)

Module dependson_facts.
Import object dependson.

Section dependson_facts.
Variable Unstructured : Type.
Variable GetAnnotations : Unstructured -> option (gmap string string).
Variable SetAnnotations : Unstructured -> gmap string string -> Unstructured.
Variable ResourceReference : Type.
Variable NewResourceReference : Unstructured -> ResourceReference.
Variable cause : Type.
Variable ParseDependencySet : string -> DependencySet * option cause.
Variable FormatDependencySet : DependencySet -> result cause string.
Variable Equal : DependencySet -> DependencySet -> bool.

(** [GetAnnotations] returns the annotations that [SetAnnotations] set. *)
Hypothesis GetAnnotations_SetAnnotations :
  forall u a, GetAnnotations (SetAnnotations u a) = Some a.

Local Abbreviation annotation := (annotation Unstructured GetAnnotations).
Local Abbreviation HasAnnotation := (HasAnnotation Unstructured GetAnnotations).
Local Abbreviation ReadAnnotation :=
  (ReadAnnotation Unstructured GetAnnotations ResourceReference NewResourceReference cause
     ParseDependencySet).
Local Abbreviation WriteAnnotation :=
  (WriteAnnotation Unstructured GetAnnotations SetAnnotations ResourceReference
     NewResourceReference cause FormatDependencySet Equal).

(** X20: after [WriteAnnotation] has returned no error, the object has
    the depends-on annotation, whose value is the formatted dependency
    set; its other annotations are as before; and [ReadAnnotation]
    returns what the parser makes of that value, so the dependency set
    itself where the parser reads back what the formatter wrote. *)
Theorem Write_Read u depSet obj' :
  WriteAnnotation (Some u) depSet = (obj', None) ->
  exists u' depSetStr,
    obj' = Some u' /\ FormatDependencySet depSet = Ok depSetStr /\
    annotation u' Annotation = Some depSetStr /\
    (forall key, key <> Annotation -> annotation u' key = annotation u key) /\
    HasAnnotation (Some u') = true /\
    ReadAnnotation (Some u') =
      match ParseDependencySet depSetStr with
      | (deps, Some e) => (deps, Some (ParseFailed (NewResourceReference u') e))
      | (deps, None) => (deps, None)
      end /\
    (ParseDependencySet depSetStr = (depSet, None) ->
     ReadAnnotation (Some u') = (depSet, None)).
Proof.
  unfold dependson.WriteAnnotation. destruct (Equal depSet []); [done|].
  destruct (FormatDependencySet depSet) as [depSetStr|e]; [|done].
  intros [= <-]. eexists _, depSetStr. split; [done|]. split; [done|].
  assert (forall key,
    annotation (SetAnnotations u (<[Annotation := depSetStr]> (default ∅ (GetAnnotations u)))) key =
    if decide (key = Annotation) then Some depSetStr else annotation u key) as Hkey.
  { intros key. unfold dependson.annotation. rewrite GetAnnotations_SetAnnotations.
    cbn [mbind option_bind]. destruct (decide (key = Annotation)) as [->|Hne].
    - by rewrite lookup_insert_eq.
    - rewrite lookup_insert_ne by done. by destruct (GetAnnotations u). }
  assert (annotation (SetAnnotations u (<[Annotation := depSetStr]> (default ∅ (GetAnnotations u))))
            Annotation = Some depSetStr) as Ha by (by rewrite Hkey, decide_True).
  split; [done|]. split.
  { intros key Hne. by rewrite Hkey, decide_False. }
  unfold dependson.HasAnnotation, dependson.ReadAnnotation. rewrite Ha.
  split; [by apply bool_decide_eq_true_2|]. split; [done|]. by intros ->.
Qed.

(** X21: an object without the annotation, or no object, reads as the
    empty dependency set, without an error; [WriteAnnotation] refuses no
    object and the empty dependency set; and whenever it returns an error
    the object is as before. *)
Theorem annotation_absent_or_refused obj depSet :
  (HasAnnotation obj = false -> ReadAnnotation obj = ([], None)) /\
  (forall obj' e, WriteAnnotation obj depSet = (obj', Some e) -> obj' = obj) /\
  (WriteAnnotation None depSet = (None, Some ObjectNil)) /\
  (forall u, Equal depSet [] = true ->
             WriteAnnotation (Some u) depSet = (Some u, Some EmptySet)).
Proof.
  split; [|split; [|split]].
  - unfold dependson.HasAnnotation, dependson.ReadAnnotation. destruct obj as [u|]; [|done].
    destruct (annotation u Annotation) as [s|]; [|done].
    intros H. apply bool_decide_eq_false in H. destruct H. by eexists.
  - intros obj' e. unfold dependson.WriteAnnotation. destruct obj as [u|]; [|by intros [= <- _]].
    destruct (Equal depSet []); [by intros [= <- _]|].
    by destruct (FormatDependencySet depSet); [|intros [= <- _]].
  - done.
  - intros u Heq. unfold dependson.WriteAnnotation. by rewrite Heq.
Qed.
End dependson_facts.

Lemma Write_Read_witness :
  exists u' depSetStr,
    depSetStr = "a,b," /\ u' = Some (<[Annotation := depSetStr]> ∅) /\
    ReadAnnotation (option (gmap string string)) (fun u => u) unit (fun _ => tt) string
      fakeParse (Some u') = ([pod "a"; pod "b"], None).
Proof.
  destruct (Write_Read (option (gmap string string)) (fun u => u) (fun _ a => Some a)
              unit (fun _ => tt) string fakeParse fakeFormat fakeEqual
              (fun _ _ => eq_refl) None [pod "a"; pod "b"]
              (Some (Some (<[Annotation := "a,b,"]> ∅))) eq_refl)
    as (u' & depSetStr & Hu & Hf & _ & _ & _ & _ & Hread).
  exists u', depSetStr. injection Hu as <-. injection Hf as <-.
  split; [reflexivity|]. split; [reflexivity|]. apply Hread. reflexivity.
Defined.

End dependson_facts.

(** * Facts on the destroyer *)

Module destroyer_facts.
Import object destroyer.

Section destroyer_facts.
Variables (InventoryPolicy DryRunStrategy InventoryInfo Unstructured RESTMapper : Type).
Variables (error TaskQueue ActionGroups RunnerEvent : Type).
Variable DefaultPollInterval : Z.
Variable GetPruneObjs :
  InventoryInfo -> list Unstructured -> PruneOpts DryRunStrategy ->
  result error (list Unstructured).
Variable ToRESTMapper : result error RESTMapper.
Variable Build :
  RESTMapper -> bool -> list Unstructured -> list (DeleteFilter InventoryPolicy InventoryInfo) ->
  SolverOpts DryRunStrategy -> InventoryInfo -> DryRunStrategy -> TaskQueue * option error.
Variable ToActionGroups : TaskQueue -> ActionGroups.
Variable UnstructuredsToObjMetasOrDie : list Unstructured -> list ObjMetadata.
Variable runner_Run :
  list ObjMetadata -> TaskQueue -> TaskRunnerOpts -> list RunnerEvent * option error.

Local Abbreviation DestroyerOptions := (DestroyerOptions InventoryPolicy DryRunStrategy).
Local Abbreviation setDestroyerDefaults :=
  (setDestroyerDefaults InventoryPolicy DryRunStrategy DefaultPollInterval).
Local Abbreviation PruneOptions := (PruneOptions InventoryPolicy DryRunStrategy).
Local Abbreviation SolverOptions := (SolverOptions InventoryPolicy DryRunStrategy).
Local Abbreviation TaskRunnerOptions := (TaskRunnerOptions InventoryPolicy DryRunStrategy).
Local Abbreviation Action := (Action error ActionGroups RunnerEvent).
Local Abbreviation onError := (onError error ActionGroups RunnerEvent).
Local Abbreviation inits := (inits error ActionGroups RunnerEvent).
Local Abbreviation Run :=
  (Run InventoryPolicy DryRunStrategy InventoryInfo Unstructured RESTMapper error TaskQueue
     ActionGroups RunnerEvent DefaultPollInterval GetPruneObjs ToRESTMapper Build
     ToActionGroups UnstructuredsToObjMetasOrDie runner_Run).

Implicit Types (o opts : DestroyerOptions).

Lemma setDestroyerDefaults_fields o :
  setDestroyerDefaults o =
  mkDestroyerOptions (InventoryPolicy_ o) (DryRunStrategy_ o) (DeleteTimeout o)
    (if decide (DeletePropagationPolicy o = "") then DeletePropagationBackground
     else DeletePropagationPolicy o)
    (EmitStatusEvents o)
    (if decide (PollInterval o = 0) then DefaultPollInterval else PollInterval o).
Proof.
  destruct o as [ip drs dt dpp ese pi]. unfold destroyer.setDestroyerDefaults.
  cbn [PollInterval DeletePropagationPolicy InventoryPolicy_ DryRunStrategy_
       DeleteTimeout EmitStatusEvents].
  destruct (decide (pi = 0));
    cbn [PollInterval DeletePropagationPolicy InventoryPolicy_ DryRunStrategy_
         DeleteTimeout EmitStatusEvents];
    by destruct (decide (dpp = "")).
Qed.

(** X22: setting the defaults twice is setting them once; a poll
    interval and a propagation policy that are given are kept, and every
    other option is as before; where the default poll interval is not
    zero, the options with the defaults have a poll interval and a
    propagation policy.  The options for the pruner and for the solver
    carry the same strategy, timeout and policy, those for the pruner
    with [Destroy] set, and those for the task runner use the cache. *)
Theorem setDestroyerDefaults_idempotent o :
  let o' := setDestroyerDefaults o in
  setDestroyerDefaults o' = o' /\
  (PollInterval o <> 0 -> PollInterval o' = PollInterval o) /\
  (DeletePropagationPolicy o <> "" -> DeletePropagationPolicy o' = DeletePropagationPolicy o) /\
  (InventoryPolicy_ o' = InventoryPolicy_ o /\ DryRunStrategy_ o' = DryRunStrategy_ o /\
   DeleteTimeout o' = DeleteTimeout o /\ EmitStatusEvents o' = EmitStatusEvents o) /\
  (DefaultPollInterval <> 0 -> PollInterval o' <> 0 /\ DeletePropagationPolicy o' <> "") /\
  (prune_Destroy _ (PruneOptions o') = true /\
   prune_DryRunStrategy _ (PruneOptions o') = solver_DryRunStrategy _ (SolverOptions o') /\
   prune_DeleteTimeout _ (PruneOptions o') = solver_DeleteTimeout _ (SolverOptions o') /\
   prune_DeletionPropagationPolicy _ (PruneOptions o') =
     solver_DeletePropagationPolicy _ (SolverOptions o') /\
   UseCache (TaskRunnerOptions o') = true /\
   runner_PollInterval (TaskRunnerOptions o') = PollInterval o').
Proof.
  cbv zeta. rewrite (setDestroyerDefaults_fields (setDestroyerDefaults o)).
  rewrite (setDestroyerDefaults_fields o).
  cbn [PollInterval DeletePropagationPolicy InventoryPolicy_ DryRunStrategy_
       DeleteTimeout EmitStatusEvents].
  split; [|split; [|split; [|split; [|split]]]].
  - f_equal; repeat case_decide; done.
  - intros H. by rewrite decide_False.
  - intros H. by rewrite decide_False.
  - done.
  - intros H. split; repeat case_decide; done.
  - done.
Qed.

(** X23: whatever the collaborators return, the goroutine of [Run] closes
    the event channel once, as the last thing it does; when the objects
    to prune or the REST mapper cannot be obtained, the error is handled
    and nothing else is sent; otherwise one init event is sent, with the
    action groups of the task queue that the builder returned for the
    objects to prune, the two filters of the destroyer and its options
    after the defaults were set. *)
Theorem Run_closes_last inv opts :
  (exists tr, Run inv opts = tr ++ [Close] /\ (Close ∉ tr)) /\
  (forall e, GetPruneObjs inv [] (PruneOptions (setDestroyerDefaults opts)) = Err e ->
             Run inv opts = [HandleError e; Close]) /\
  (forall objs e, GetPruneObjs inv [] (PruneOptions (setDestroyerDefaults opts)) = Ok objs ->
                  ToRESTMapper = Err e -> Run inv opts = [HandleError e; Close]) /\
  (forall objs mapper,
     GetPruneObjs inv [] (PruneOptions (setDestroyerDefaults opts)) = Ok objs ->
     ToRESTMapper = Ok mapper ->
     inits (Run inv opts) =
       [ToActionGroups
          (Build mapper true objs
             [PreventRemoveFilter;
              InventoryPolicyFilter inv (InventoryPolicy_ (setDestroyerDefaults opts))]
             (SolverOptions (setDestroyerDefaults opts)) inv
             (DryRunStrategy_ (setDestroyerDefaults opts))).1]).
Proof.
  assert (forall err, (Close ∉ onError err) /\ inits (onError err) = []) as Hon.
  { intros [e|]; cbn [destroyer.onError]; (split; [|done]); [|apply not_elem_of_nil].
    rewrite elem_of_cons. intros [H|H]; [done|]. by apply not_elem_of_nil in H. }
  assert (forall sent : list RunnerEvent,
            (Close ∉ (RunnerSends <$> sent : list Action)) /\
            inits (RunnerSends <$> sent) = []) as Hsent.
  { intros sent. induction sent as [|x sent [IH1 IH2]]; [split; [apply not_elem_of_nil|done]|].
    cbn [fmap list_fmap]. split; [|exact IH2].
    rewrite elem_of_cons. by intros [H|H]. }
  unfold destroyer.Run. cbv zeta.
  destruct (GetPruneObjs inv [] _) as [objs|e].
  2:{ split; [|split; [|split]]; [| |done..].
      - exists [HandleError e]. split; [done|]. rewrite elem_of_cons. intros [H|H]; [done|].
        by apply not_elem_of_nil in H.
      - by intros e' [= <-]. }
  destruct ToRESTMapper as [mapper|e].
  2:{ split; [|split; [|split]]; [|done| |done].
      - exists [HandleError e]. split; [done|]. rewrite elem_of_cons. intros [H|H]; [done|].
        by apply not_elem_of_nil in H.
      - by intros objs' e' _ [= <-]. }
  change (prune_Destroy _ (PruneOptions (setDestroyerDefaults opts))) with true.
  destruct (Build mapper true objs _ _ inv _) as [taskQueue err] eqn:HB.
  destruct (runner_Run _ taskQueue _) as [sent err'].
  destruct (Hsent sent) as [Hs1 Hs2]. destruct (Hon err) as [Ho1 Ho2].
  destruct (Hon err') as [Ho1' Ho2'].
  split; [|split; [|split]]; [|done|done|].
  - exists (onError err ++ [SendInit (ToActionGroups taskQueue)] ++
            (RunnerSends <$> sent) ++ onError err').
    split; [by rewrite <- !app_assoc|].
    rewrite !elem_of_app, elem_of_cons. intros [H|[[H|H]|[H|H]]]; try done.
    by apply not_elem_of_nil in H.
  - intros objs' mapper' [= <-] [= <-]. rewrite HB. unfold destroyer.inits in *.
    rewrite !omap_app, Ho2, Hs2, Ho2'. done.
Qed.

(** X24: an error of the task queue builder does not end the run: the
    error is handled, and then the init event is sent with the action
    groups of the queue that [Build] returned, and the task runner is run
    on that queue, with the options of the destroyer after the defaults
    were set, before the channel is closed. *)
Theorem Run_after_Build_error inv opts objs mapper taskQueue e :
  let opts' := setDestroyerDefaults opts in
  GetPruneObjs inv [] (PruneOptions opts') = Ok objs ->
  ToRESTMapper = Ok mapper ->
  Build mapper true objs
    [PreventRemoveFilter; InventoryPolicyFilter inv (InventoryPolicy_ opts')]
    (SolverOptions opts') inv (DryRunStrategy_ opts') = (taskQueue, Some e) ->
  Run inv opts =
    HandleError e :: SendInit (ToActionGroups taskQueue) ::
    (RunnerSends <$> (runner_Run (UnstructuredsToObjMetasOrDie objs) taskQueue
                        (TaskRunnerOptions opts')).1) ++
    onError (runner_Run (UnstructuredsToObjMetasOrDie objs) taskQueue
               (TaskRunnerOptions opts')).2 ++ [Close].
Proof.
  cbv zeta. intros Hg Hm Hb. unfold destroyer.Run. cbv zeta. rewrite Hg, Hm.
  change (prune_Destroy _ (PruneOptions _)) with true. rewrite Hb.
  by destruct (runner_Run _ taskQueue _) as [sent err'].
Qed.
End destroyer_facts.

Lemma setDestroyerDefaults_idempotent_witness :
  PollInterval (setDestroyerDefaults unit unit twoSeconds
                  (mkDestroyerOptions tt tt 0 "" false 0)) <> 0 /\
  DeletePropagationPolicy (setDestroyerDefaults unit unit twoSeconds
                             (mkDestroyerOptions tt tt 0 "" false 0)) <> "".
Proof.
  apply (setDestroyerDefaults_idempotent unit unit twoSeconds
           (mkDestroyerOptions tt tt 0 "" false 0)).
  discriminate.
Defined.

Lemma Run_after_Build_error_witness :
  Run unit unit unit string unit string (list string) (list string) string twoSeconds
    (fun _ _ _ => Ok ["pod"]) (Ok tt)
    (fun _ _ objs _ _ _ _ => (objs, Some "invalid task queue"))
    (fun q => q) (fun _ => []) (fun _ q _ => (q, None)) tt
    (mkDestroyerOptions tt tt 0 "" false 0) =
  [HandleError "invalid task queue"; SendInit ["pod"]; RunnerSends "pod"; Close].
Proof.
  apply (Run_after_Build_error unit unit unit string unit string (list string) (list string)
           string twoSeconds (fun _ _ _ => Ok ["pod"]) (Ok tt)
           (fun _ _ objs _ _ _ _ => (objs, Some "invalid task queue"))
           (fun q => q) (fun _ => []) (fun _ q _ => (q, None)) tt
           (mkDestroyerOptions tt tt 0 "" false 0) ["pod"] tt ["pod"] "invalid task queue");
    reflexivity.
Defined.

End destroyer_facts.

(** * Facts on the help texts of kapply *)

Module kapply_facts.
Import kapply.

Lemma prefix_app_l (p q s : string) :
  String.prefix (p +:+ q) s = true -> String.prefix p s = true.
Proof.
  revert s. induction p as [|c p IH]; intros s; [by destruct s|].
  rewrite app_String. destruct s as [|d s]; [done|]. cbn [String.prefix].
  destruct (ascii_dec c d); [apply IH | done].
Qed.

Lemma Contains_app_l (s p q : string) :
  Contains s p = false -> Contains s (p +:+ q) = false.
Proof.
  unfold Contains. induction s as [|c s IH]; cbn [Index].
  - destruct (HasPrefix "" p) eqn:Hp; [done|]. intros _.
    destruct (HasPrefix "" (p +:+ q)) eqn:Hpq; [|done].
    apply prefix_app_l in Hpq. unfold HasPrefix in Hp. congruence.
  - destruct (HasPrefix (String c s) p) eqn:Hp; [done|].
    destruct (HasPrefix (String c s) (p +:+ q)) eqn:Hpq.
    { apply prefix_app_l in Hpq. unfold HasPrefix in Hp. congruence. }
    destruct (Index s p <? 0) eqn:Hi.
    + intros _. apply Z.ltb_lt in Hi.
      assert ((0 <=? Index s p) = false) as H by (apply Z.leb_gt; lia).
      apply IH in H. apply Z.leb_gt in H.
      destruct (Index s (p +:+ q) <? 0) eqn:Hi'; [done|]. apply Z.ltb_ge in Hi'. lia.
    + apply Z.ltb_ge in Hi. intros H. apply Z.leb_gt in H. lia.
Qed.

(** X25: a help text in which ["kubectl "] does not occur is left as it
    is by [updateHelp], whatever the names of the commands are. *)
Theorem updateHelp_without_kubectl names c :
  Contains (Short c) "kubectl " = false ->
  Contains (Long c) "kubectl " = false ->
  Contains (Example c) "kubectl " = false ->
  updateHelp names c = c.
Proof.
  intros Hs Hl He. unfold updateHelp.
  induction names as [|name names IH]; [done|]. cbn [foldl].
  rewrite !ReplaceAll_absent
    by first [by apply Contains_app_l | rewrite app_String; discriminate].
  by destruct c.
Qed.

Lemma updateHelp_without_kubectl_witness :
  updateHelp kapply.names
    (mkCommand "Apply a configuration" "Apply a configuration to the cluster" "apply -f dir") =
  mkCommand "Apply a configuration" "Apply a configuration to the cluster" "apply -f dir".
Proof.
  apply (updateHelp_without_kubectl kapply.names
           (mkCommand "Apply a configuration" "Apply a configuration to the cluster"
              "apply -f dir")); reflexivity.
Defined.

End kapply_facts.

(** * Facts on pkg/logutil *)

Module logutil_facts.
Import logutil.

Section Log_facts.
Variable Enabled : Z -> bool.
(** A verbosity that is enabled enables the lower ones. *)
Hypothesis Enabled_mono : forall v w, v <= w -> Enabled w = true -> Enabled v = true.

Local Abbreviation Log := (Log Enabled).

Lemma verbosity_default level :
  default 0 (LevelVerbosity NewKlogGoLoggingBackend !! level) =
  if decide (level = NOTICE) then 1
  else if decide (level = INFO) then 2
  else if decide (level = DEBUG) then 5 else 0.
Proof.
  unfold NewKlogGoLoggingBackend, LevelVerbosity, CRITICAL, ERROR, WARNING, NOTICE, INFO, DEBUG.
  rewrite !lookup_insert, lookup_empty.
  repeat case_decide; first [reflexivity | lia].
Qed.

(** X26: [Log] never returns an error, and it makes at most one call of
    a klog function, with the message and with the call depth it was
    given plus one.  With the default mappings, a level that is not one
    of go-logging is logged as an error at verbosity 0, and when a record
    of some level is logged, a record of a more severe level is logged
    too. *)
Theorem Log_severity k level level' calldepth message message' :
  (Log k level calldepth message).2 = None /\
  (forall c, c ∈ (Log k level calldepth message).1 ->
     (Log k level calldepth message).1 = [c] /\
     call_depth c = calldepth + 1 /\ call_message c = message) /\
  (level < CRITICAL \/ DEBUG < level ->
   (Log NewKlogGoLoggingBackend level calldepth message).1 =
     if Enabled 0 then [mkCall ErrorDepth (calldepth + 1) message] else []) /\
  (CRITICAL <= level' <= level -> level <= DEBUG ->
   (Log NewKlogGoLoggingBackend level calldepth message).1 <> [] ->
   (Log NewKlogGoLoggingBackend level' calldepth message').1 <> []).
Proof.
  unfold logutil.Log. split; [|split; [|split]].
  - by destruct (negb _).
  - intros c. destruct (negb _); cbn [fst].
    + intros H. by apply not_elem_of_nil in H.
    + intros H%list_elem_of_singleton. by subst c.
  - unfold CRITICAL, DEBUG. intros Hl. rewrite verbosity_default.
    unfold NOTICE, INFO, DEBUG. rewrite !decide_False by lia.
    destruct (Enabled 0); [|done]. cbn [negb fst]. do 2 f_equal.
    unfold NewKlogGoLoggingBackend, LevelLog, CRITICAL, ERROR, WARNING, NOTICE, INFO, DEBUG.
    rewrite !lookup_insert_ne by lia. by rewrite lookup_empty.
  - unfold CRITICAL, DEBUG. intros Hl' Hl. rewrite !verbosity_default.
    set (v := if decide (level = NOTICE) then 1 else _).
    set (v' := if decide (level' = NOTICE) then 1 else _).
    assert (v' <= v) as Hle.
    { unfold v, v', NOTICE, INFO, DEBUG. repeat case_decide; lia. }
    destruct (Enabled v) eqn:Hv; [|done]. intros _.
    by rewrite (Enabled_mono v' v Hle Hv).
Qed.
End Log_facts.

Lemma Log_severity_witness :
  (Log (fun v => v <=? 2) NewKlogGoLoggingBackend WARNING 3 "no match").1 <> [].
Proof.
  refine (proj2 (proj2 (proj2 (Log_severity (fun v => v <=? 2) _ NewKlogGoLoggingBackend
                                 INFO WARNING 3 "parsed" "no match"))) _ _ _).
  - intros v w Hvw Hw. apply Z.leb_le in Hw. apply Z.leb_le. lia.
  - unfold CRITICAL, WARNING, INFO. lia.
  - unfold INFO, DEBUG. lia.
  - vm_compute. discriminate.
Defined.

End logutil_facts.
